(** * Storage, notification, statistics and authentication services of the
    appointment app

    A shallow embedding of [services/storage.ts], [services/notifications.ts],
    [services/statistics.ts] and [services/auth.ts].

    - JavaScript values are the JSON trees of [JSValue], plus BigInt, the
      one kind of value [JSON.stringify] refuses. Numbers are integers, an
      object is the list of its own properties in insertion order, and the
      status percentages, quotients of two counts, are rationals.
    - [async] functions become computations of the monad [M]: they thread
      the [World] (wall clock, AsyncStorage contents, the module-level cache
      of storage.ts, the console) and either return or throw.
    - AsyncStorage is an external store: its calls succeed or reject
      following the script [faults] of the world.
    - The cache hands out the very object it holds; the properties below
      concern callers that do not mutate what they receive, except for the
      [add] functions of storage.ts, whose [push] onto the cached array is
      modelled by [cache_mutate].
    - The authentication service keeps the registered patients in a module
      variable, which its computations thread beside the world. *)

From Stdlib Require Import ZArith QArith Ascii String List Lia Decimal DecimalZ.
From stdpp Require Import base gmap strings list sorting.

#[local] Set Warnings "-register-all".

Local Open Scope string_scope.
Local Open Scope list_scope.
Local Open Scope Z_scope.

(** ** JavaScript values *)

Inductive JSValue : Type :=
| JNull
| JBool (b : bool)
| JNum (n : Z)
| JBigInt (n : Z)
| JStr (s : string)
| JArr (items : list JSValue)
| JObj (fields : list (string * JSValue)).

(** Induction principle that reaches inside arrays and objects. *)
Section JSValue_ind_deep.
Variable P : JSValue -> Prop.
Hypothesis HNull : P JNull.
Hypothesis HBool : forall b, P (JBool b).
Hypothesis HNum : forall n, P (JNum n).
Hypothesis HBigInt : forall n, P (JBigInt n).
Hypothesis HStr : forall s, P (JStr s).
Hypothesis HArr : forall items, Forall P items -> P (JArr items).
Hypothesis HObj : forall fields, Forall (fun kv => P (snd kv)) fields -> P (JObj fields).

Fixpoint JSValue_ind_deep (v : JSValue) : P v :=
  match v with
  | JNull => HNull
  | JBool b => HBool b
  | JNum n => HNum n
  | JBigInt n => HBigInt n
  | JStr s => HStr s
  | JArr items =>
      HArr items
        ((fix go (l : list JSValue) : Forall P l :=
            match l with
            | [] => @List.Forall_nil _ P
            | x :: l' => @List.Forall_cons _ P x l' (JSValue_ind_deep x) (go l')
            end) items)
  | JObj fields =>
      HObj fields
        ((fix go (l : list (string * JSValue)) : Forall (fun kv => P (snd kv)) l :=
            match l with
            | [] => @List.Forall_nil _ _
            | kv :: l' =>
                @List.Forall_cons _ (fun kv => P (snd kv)) kv l' (JSValue_ind_deep (snd kv)) (go l')
            end) fields)
  end.
End JSValue_ind_deep.

(** ToBoolean: [false], [0], [0n], the empty string and [null] are falsy;
    every array and object is truthy. *)
Definition truthy (v : JSValue) : bool :=
  match v with
  | JNull => false
  | JBool b => b
  | JNum n => negb (n =? 0)%Z
  | JBigInt n => negb (n =? 0)%Z
  | JStr s => negb (String.eqb s "")
  | JArr _ => true
  | JObj _ => true
  end.

(** [x || y] where [x] may be [undefined]. *)
Definition js_or (x : option JSValue) (y : JSValue) : JSValue :=
  match x with
  | Some v => if truthy v then v else y
  | None => y
  end.

(** [o[k]] on the own properties of an object literal. *)
Fixpoint assoc_get (k : string) (fields : list (string * JSValue)) : option JSValue :=
  match fields with
  | [] => None
  | (k', v) :: rest => if String.eqb k k' then Some v else assoc_get k rest
  end.

(** [o[k] = v]: an existing property keeps its place, a new one goes last. *)
Fixpoint assoc_set (k : string) (v : JSValue) (fields : list (string * JSValue))
  : list (string * JSValue) :=
  match fields with
  | [] => [(k, v)]
  | (k', v') :: rest =>
      if String.eqb k k' then (k', v) :: rest else (k', v') :: assoc_set k v rest
  end.

(** [{...a, ...b}] on the property lists of two objects. *)
Definition spread (a b : list (string * JSValue)) : list (string * JSValue) :=
  fold_left (fun acc kv => assoc_set (fst kv) (snd kv) acc) b a.

(** [x === s] for a string [s]; [x] may be [undefined]. *)
Definition strict_eq_str (x : option JSValue) (s : string) : bool :=
  match x with
  | Some (JStr s') => String.eqb s' s
  | _ => false
  end.

(** ** JSON text *)

Module JSON.

Definition chr (n : nat) : ascii := ascii_of_nat n.
Definition quote : ascii := chr 34.
Definition backslash : ascii := chr 92.

Definition is_ws (c : ascii) : bool :=
  let n := nat_of_ascii c in
  (n =? 32)%nat || (n =? 9)%nat || (n =? 10)%nat || (n =? 13)%nat.

Definition is_digit (c : ascii) : bool :=
  let n := nat_of_ascii c in (48 <=? n)%nat && (n <=? 57)%nat.

(** *** Numbers: decimal digits of an integer *)

Fixpoint render_uint (d : uint) : list ascii :=
  match d with
  | Nil => []
  | D0 d => chr 48 :: render_uint d
  | D1 d => chr 49 :: render_uint d
  | D2 d => chr 50 :: render_uint d
  | D3 d => chr 51 :: render_uint d
  | D4 d => chr 52 :: render_uint d
  | D5 d => chr 53 :: render_uint d
  | D6 d => chr 54 :: render_uint d
  | D7 d => chr 55 :: render_uint d
  | D8 d => chr 56 :: render_uint d
  | D9 d => chr 57 :: render_uint d
  end.

Definition render_Z (z : Z) : list ascii :=
  match Z.to_int z with
  | Pos d => render_uint d
  | Neg d => chr 45 :: render_uint d
  end.

Definition digit_cons (c : ascii) (d : uint) : uint :=
  match (nat_of_ascii c - 48)%nat with
  | 0 => D0 d | 1 => D1 d | 2 => D2 d | 3 => D3 d | 4 => D4 d
  | 5 => D5 d | 6 => D6 d | 7 => D7 d | 8 => D8 d | _ => D9 d
  end%nat.

(** The longest run of digits at the head of the text. *)
Fixpoint parse_digits (s : list ascii) : uint * list ascii :=
  match s with
  | c :: r =>
      if is_digit c
      then let '(d, r') := parse_digits r in (digit_cons c d, r')
      else (Nil, s)
  | [] => (Nil, [])
  end.

(** JSON has no leading zeros: the integer part is [0] or starts with 1-9. *)
Definition valid_int_part (d : uint) : bool :=
  match d with
  | Nil => false
  | D0 Nil => true
  | D0 _ => false
  | _ => true
  end.

(** A number; a fraction or an exponent is outside the integers modelled
    here and is refused. *)
Definition parse_number (s : list ascii) : option (Z * list ascii) :=
  let '(neg, s1) :=
    match s with
    | c :: r => if Ascii.eqb c (chr 45) then (true, r) else (false, s)
    | [] => (false, s)
    end in
  let '(d, r) := parse_digits s1 in
  if valid_int_part d
  then
    match r with
    | c :: _ =>
        if Ascii.eqb c (chr 46) || Ascii.eqb c (chr 101) || Ascii.eqb c (chr 69)
        then None
        else Some (Z.of_int (if neg then Neg d else Pos d), r)
    | [] => Some (Z.of_int (if neg then Neg d else Pos d), r)
    end
  else None.

(** *** Strings *)

Definition hex_digit (n : nat) : ascii :=
  if (n <? 10)%nat then chr (48 + n) else chr (87 + n).

Definition hex_value (c : ascii) : option nat :=
  let n := nat_of_ascii c in
  if (48 <=? n)%nat && (n <=? 57)%nat then Some (n - 48)%nat
  else if (97 <=? n)%nat && (n <=? 102)%nat then Some (n - 87)%nat
  else if (65 <=? n)%nat && (n <=? 70)%nat then Some (n - 55)%nat
  else None.

(** QuoteJSONString: the quote, the backslash and the control characters
    are escaped. *)
Definition render_char (c : ascii) : list ascii :=
  let n := nat_of_ascii c in
  if (n =? 34)%nat then [backslash; quote]
  else if (n =? 92)%nat then [backslash; backslash]
  else if (n =? 8)%nat then [backslash; chr 98]
  else if (n =? 12)%nat then [backslash; chr 102]
  else if (n =? 10)%nat then [backslash; chr 110]
  else if (n =? 13)%nat then [backslash; chr 114]
  else if (n =? 9)%nat then [backslash; chr 116]
  else if (n <? 32)%nat
       then [backslash; chr 117; chr 48; chr 48; hex_digit (n / 16); hex_digit (n mod 16)]
  else [c].

Definition render_string (s : string) : list ascii :=
  quote :: flat_map render_char (list_ascii_of_string s) ++ [quote].

(** The text after an opening quote, up to the closing one. Escapes
    above U+007F are outside the one-byte characters modelled here. *)
Fixpoint parse_string_body (fuel : nat) (s : list ascii) : option (list ascii * list ascii) :=
  match fuel with
  | O => None
  | S fuel' =>
      match s with
      | [] => None
      | c :: r =>
          if Ascii.eqb c quote then Some ([], r)
          else if Ascii.eqb c backslash then
            match r with
            | e :: r1 =>
                let n := nat_of_ascii e in
                let simple (x : ascii) :=
                  match parse_string_body fuel' r1 with
                  | Some (cs, r2) => Some (x :: cs, r2)
                  | None => None
                  end in
                if (n =? 34)%nat then simple quote
                else if (n =? 92)%nat then simple backslash
                else if (n =? 47)%nat then simple (chr 47)
                else if (n =? 98)%nat then simple (chr 8)
                else if (n =? 102)%nat then simple (chr 12)
                else if (n =? 110)%nat then simple (chr 10)
                else if (n =? 114)%nat then simple (chr 13)
                else if (n =? 116)%nat then simple (chr 9)
                else if (n =? 117)%nat then
                  match r1 with
                  | h1 :: h2 :: h3 :: h4 :: r2 =>
                      match hex_value h1, hex_value h2, hex_value h3, hex_value h4 with
                      | Some a, Some b, Some c', Some d =>
                          let code := (((a * 16 + b) * 16 + c') * 16 + d)%nat in
                          if (code <? 128)%nat then
                            match parse_string_body fuel' r2 with
                            | Some (cs, r3) => Some (chr code :: cs, r3)
                            | None => None
                            end
                          else None
                      | _, _, _, _ => None
                      end
                  | _ => None
                  end
                else None
            | [] => None
            end
          else if (nat_of_ascii c <? 32)%nat then None
          else
            match parse_string_body fuel' r with
            | Some (cs, r') => Some (c :: cs, r')
            | None => None
            end
      end
  end.

Definition parse_string (s : list ascii) : option (string * list ascii) :=
  match parse_string_body (S (length s)) s with
  | Some (cs, r) => Some (string_of_list_ascii cs, r)
  | None => None
  end.

(** *** Values *)

(** Values that [JSON.stringify] accepts: a BigInt anywhere inside makes
    it throw a TypeError. *)
Fixpoint serializable (v : JSValue) : bool :=
  match v with
  | JBigInt _ => false
  | JArr items => forallb serializable items
  | JObj fields => forallb (fun kv => serializable (snd kv)) fields
  | _ => true
  end.

Fixpoint join (parts : list (list ascii)) : list ascii :=
  match parts with
  | [] => []
  | [p] => p
  | p :: rest => p ++ chr 44 :: join rest
  end.

Definition lit (s : string) : list ascii := list_ascii_of_string s.

Fixpoint render (v : JSValue) : list ascii :=
  match v with
  | JNull => lit "null"
  | JBool true => lit "true"
  | JBool false => lit "false"
  | JNum n => render_Z n
  | JBigInt n => render_Z n
  | JStr s => render_string s
  | JArr items => chr 91 :: join (map render items) ++ [chr 93]
  | JObj fields =>
      chr 123
        :: join (map (fun kv => render_string (fst kv) ++ chr 58 :: render (snd kv)) fields)
        ++ [chr 125]
  end.

(** [JSON.stringify(v)]; [None] is the TypeError. *)
Definition stringify (v : JSValue) : option string :=
  if serializable v then Some (string_of_list_ascii (render v)) else None.

Fixpoint skip_ws (s : list ascii) : list ascii :=
  match s with
  | c :: r => if is_ws c then skip_ws r else s
  | [] => []
  end.

Fixpoint strip_prefix (p s : list ascii) : option (list ascii) :=
  match p, s with
  | [], _ => Some s
  | a :: p', b :: s' => if Ascii.eqb a b then strip_prefix p' s' else None
  | _ :: _, [] => None
  end.

Definition keyword (rest_of_word : string) (v : JSValue) (r : list ascii)
  : option (JSValue * list ascii) :=
  match strip_prefix (lit rest_of_word) r with
  | Some r' => Some (v, r')
  | None => None
  end.

(** Recursive descent; [fuel] bounds the nesting, [parse] below gives
    enough of it for any text. *)
Fixpoint parse_value (fuel : nat) (s : list ascii) {struct fuel}
  : option (JSValue * list ascii) :=
  match fuel with
  | O => None
  | S fuel' =>
      match skip_ws s with
      | [] => None
      | c :: r =>
          let n := nat_of_ascii c in
          if (n =? 110)%nat then keyword "ull" JNull r
          else if (n =? 116)%nat then keyword "rue" (JBool true) r
          else if (n =? 102)%nat then keyword "alse" (JBool false) r
          else if (n =? 34)%nat then
            match parse_string r with
            | Some (str, r') => Some (JStr str, r')
            | None => None
            end
          else if (n =? 91)%nat then
            match skip_ws r with
            | c2 :: r2 =>
                if Ascii.eqb c2 (chr 93) then Some (JArr [], r2)
                else
                  match parse_elements fuel' r with
                  | Some (vs, r') => Some (JArr vs, r')
                  | None => None
                  end
            | [] => None
            end
          else if (n =? 123)%nat then
            match skip_ws r with
            | c2 :: r2 =>
                if Ascii.eqb c2 (chr 125) then Some (JObj [], r2)
                else
                  match parse_members fuel' r with
                  | Some (kvs, r') => Some (JObj (spread [] kvs), r')
                  | None => None
                  end
            | [] => None
            end
          else
            match parse_number (c :: r) with
            | Some (z, r') => Some (JNum z, r')
            | None => None
            end
      end
  end
with parse_elements (fuel : nat) (s : list ascii) {struct fuel}
  : option (list JSValue * list ascii) :=
  match fuel with
  | O => None
  | S fuel' =>
      match parse_value fuel' s with
      | Some (v, r) =>
          match skip_ws r with
          | c :: r' =>
              if Ascii.eqb c (chr 44) then
                match parse_elements fuel' r' with
                | Some (vs, r'') => Some (v :: vs, r'')
                | None => None
                end
              else if Ascii.eqb c (chr 93) then Some ([v], r')
              else None
          | [] => None
          end
      | None => None
      end
  end
with parse_members (fuel : nat) (s : list ascii) {struct fuel}
  : option (list (string * JSValue) * list ascii) :=
  match fuel with
  | O => None
  | S fuel' =>
      match skip_ws s with
      | q :: r0 =>
          if Ascii.eqb q quote then
            match parse_string r0 with
            | Some (k, r1) =>
                match skip_ws r1 with
                | colon :: r2 =>
                    if Ascii.eqb colon (chr 58) then
                      match parse_value fuel' r2 with
                      | Some (v, r3) =>
                          match skip_ws r3 with
                          | c :: r4 =>
                              if Ascii.eqb c (chr 44) then
                                match parse_members fuel' r4 with
                                | Some (kvs, r5) => Some ((k, v) :: kvs, r5)
                                | None => None
                                end
                              else if Ascii.eqb c (chr 125) then Some ([(k, v)], r4)
                              else None
                          | [] => None
                          end
                      | None => None
                      end
                    else None
                | [] => None
                end
            | None => None
            end
          else None
      | [] => None
      end
  end.

(** [JSON.parse(text)] on the texts whose numbers are integers and whose
    escapes are below U+0080; [None] is the SyntaxError. A text of JSON
    outside these is refused too, for want of a value to return: [valid]
    below tells the two apart, and a property that speaks of text that is
    not JSON asks for [valid text = false]. *)
Definition parse (text : string) : option JSValue :=
  let cs := list_ascii_of_string text in
  match parse_value (S (length cs)) cs with
  | Some (v, r) =>
      match skip_ws r with
      | [] => Some v
      | _ :: _ => None
      end
  | None => None
  end.

(** *** Values that survive the round trip *)

Fixpoint distinct (keys : list string) : bool :=
  match keys with
  | [] => true
  | k :: rest => negb (existsb (String.eqb k) rest) && distinct rest
  end.

(** No BigInt inside, and no object with the same key twice. *)
Fixpoint well_formed (v : JSValue) : bool :=
  match v with
  | JBigInt _ => false
  | JArr items => forallb well_formed items
  | JObj fields =>
      distinct (map fst fields) && forallb (fun kv => well_formed (snd kv)) fields
  | _ => true
  end.

(** The nesting budget that [parse_value] needs for [v]. *)
Fixpoint weight (v : JSValue) : nat :=
  match v with
  | JArr items => S (list_sum (map (fun x => S (weight x)) items))
  | JObj fields => S (list_sum (map (fun kv => S (weight (snd kv))) fields))
  | _ => 1
  end.

(** *** The grammar of JSON *)

(** The recognizer of the JSON grammar: the texts that [JSON.parse] of the
    language accepts, whatever they denote. It knows the fraction and the
    exponent of a number and every [\u] escape, which [parse] above
    refuses for want of a value to return. *)
Definition valid_number (s : list ascii) : option (list ascii) :=
  let s1 :=
    match s with
    | c :: r => if Ascii.eqb c (chr 45) then r else s
    | [] => s
    end in
  let '(d, r) := parse_digits s1 in
  if valid_int_part d
  then
    let fraction :=
      match r with
      | c :: r1 =>
          if Ascii.eqb c (chr 46)
          then match parse_digits r1 with
               | (Nil, _) => None
               | (_, r2) => Some r2
               end
          else Some r
      | [] => Some r
      end in
    match fraction with
    | Some (c :: r3) =>
        if Ascii.eqb c (chr 101) || Ascii.eqb c (chr 69)
        then
          let r4 :=
            match r3 with
            | sign :: r' =>
                if Ascii.eqb sign (chr 43) || Ascii.eqb sign (chr 45) then r' else r3
            | [] => r3
            end in
          match parse_digits r4 with
          | (Nil, _) => None
          | (_, r5) => Some r5
          end
        else Some (c :: r3)
    | Some [] => Some []
    | None => None
    end
  else None.

Fixpoint valid_string_body (fuel : nat) (s : list ascii) : option (list ascii) :=
  match fuel with
  | O => None
  | S fuel' =>
      match s with
      | [] => None
      | c :: r =>
          if Ascii.eqb c quote then Some r
          else if Ascii.eqb c backslash then
            match r with
            | e :: r1 =>
                let n := nat_of_ascii e in
                if (n =? 34)%nat || (n =? 92)%nat || (n =? 47)%nat || (n =? 98)%nat
                   || (n =? 102)%nat || (n =? 110)%nat || (n =? 114)%nat || (n =? 116)%nat
                then valid_string_body fuel' r1
                else if (n =? 117)%nat then
                  match r1 with
                  | h1 :: h2 :: h3 :: h4 :: r2 =>
                      match hex_value h1, hex_value h2, hex_value h3, hex_value h4 with
                      | Some _, Some _, Some _, Some _ => valid_string_body fuel' r2
                      | _, _, _, _ => None
                      end
                  | _ => None
                  end
                else None
            | [] => None
            end
          else if (nat_of_ascii c <? 32)%nat then None
          else valid_string_body fuel' r
      end
  end.

Definition valid_string (s : list ascii) : option (list ascii) :=
  valid_string_body (S (length s)) s.

Fixpoint valid_value (fuel : nat) (s : list ascii) {struct fuel} : option (list ascii) :=
  match fuel with
  | O => None
  | S fuel' =>
      match skip_ws s with
      | [] => None
      | c :: r =>
          let n := nat_of_ascii c in
          if (n =? 110)%nat then strip_prefix (lit "ull") r
          else if (n =? 116)%nat then strip_prefix (lit "rue") r
          else if (n =? 102)%nat then strip_prefix (lit "alse") r
          else if (n =? 34)%nat then valid_string r
          else if (n =? 91)%nat then
            match skip_ws r with
            | c2 :: r2 =>
                if Ascii.eqb c2 (chr 93) then Some r2 else valid_elements fuel' r
            | [] => None
            end
          else if (n =? 123)%nat then
            match skip_ws r with
            | c2 :: r2 =>
                if Ascii.eqb c2 (chr 125) then Some r2 else valid_members fuel' r
            | [] => None
            end
          else valid_number (c :: r)
      end
  end
with valid_elements (fuel : nat) (s : list ascii) {struct fuel} : option (list ascii) :=
  match fuel with
  | O => None
  | S fuel' =>
      match valid_value fuel' s with
      | Some r =>
          match skip_ws r with
          | c :: r' =>
              if Ascii.eqb c (chr 44) then valid_elements fuel' r'
              else if Ascii.eqb c (chr 93) then Some r'
              else None
          | [] => None
          end
      | None => None
      end
  end
with valid_members (fuel : nat) (s : list ascii) {struct fuel} : option (list ascii) :=
  match fuel with
  | O => None
  | S fuel' =>
      match skip_ws s with
      | q :: r0 =>
          if Ascii.eqb q quote then
            match valid_string r0 with
            | Some r1 =>
                match skip_ws r1 with
                | colon :: r2 =>
                    if Ascii.eqb colon (chr 58) then
                      match valid_value fuel' r2 with
                      | Some r3 =>
                          match skip_ws r3 with
                          | c :: r4 =>
                              if Ascii.eqb c (chr 44) then valid_members fuel' r4
                              else if Ascii.eqb c (chr 125) then Some r4
                              else None
                          | [] => None
                          end
                      | None => None
                      end
                    else None
                | [] => None
                end
            | None => None
            end
          else None
      | [] => None
      end
  end.

(** Whether the text is JSON. *)
Definition valid (text : string) : bool :=
  let cs := list_ascii_of_string text in
  match valid_value (S (length cs)) cs with
  | Some r =>
      match skip_ws r with
      | [] => true
      | _ :: _ => false
      end
  | None => false
  end.

End JSON.


(** ** Dates *)

Module Date.

(** Days since 1970-01-01 of a proleptic Gregorian date. *)
Definition days_from_civil (y m d : Z) : Z :=
  let y' := if m <=? 2 then y - 1 else y in
  let era := y' / 400 in
  let yoe := y' - era * 400 in
  let doy := (153 * (if 2 <? m then m - 3 else m + 9) + 2) / 5 + d - 1 in
  let doe := yoe * 365 + yoe / 4 - yoe / 100 + doy in
  era * 146097 + doe - 719468.

Definition civil_from_days (z : Z) : Z * Z * Z :=
  let z' := z + 719468 in
  let era := z' / 146097 in
  let doe := z' - era * 146097 in
  let yoe := (doe - doe / 1460 + doe / 36524 - doe / 146096) / 365 in
  let doy := doe - (365 * yoe + yoe / 4 - yoe / 100) in
  let mp := (5 * doy + 2) / 153 in
  let d := doy - (153 * mp + 2) / 5 + 1 in
  let m := if mp <? 10 then mp + 3 else mp - 9 in
  let y := yoe + era * 400 in
  (if m <=? 2 then y + 1 else y, m, d).

Definition is_leap (y : Z) : bool :=
  ((y mod 4 =? 0) && negb (y mod 100 =? 0)) || (y mod 400 =? 0).

Definition days_in_month (y m : Z) : Z :=
  if m =? 2 then (if is_leap y then 29 else 28)
  else if (m =? 4) || (m =? 6) || (m =? 9) || (m =? 11) then 30
  else 31.

(** The time values a Date can hold: 100 million days around the epoch. *)
Definition max_time : Z := 8640000000000000.
Definition in_range (t : Z) : bool := (- max_time <=? t) && (t <=? max_time).

Definition digit_of (c : ascii) : option Z :=
  if JSON.is_digit c then Some (Z.of_nat (nat_of_ascii c) - 48) else None.

(** A run of exactly [n] digits. *)
Fixpoint digits (n : nat) (acc : Z) (s : list ascii) : option (Z * list ascii) :=
  match n with
  | O => Some (acc, s)
  | S n' =>
      match s with
      | c :: r =>
          match digit_of c with
          | Some d => digits n' (acc * 10 + d) r
          | None => None
          end
      | [] => None
      end
  end.

Definition expect (c : nat) (s : list ascii) : option (list ascii) :=
  match s with
  | x :: r => if Ascii.eqb x (JSON.chr c) then Some r else None
  | [] => None
  end.

(** [Date.parse] on the format that [toISOString] writes,
    [YYYY-MM-DDTHH:mm:ss.sssZ]; [None] is NaN. Other spellings of a date
    are not modelled and count as invalid. *)
Definition parse (text : string) : option Z :=
  let s := list_ascii_of_string text in
  match digits 4 0 s with
  | Some (y, s) =>
  match expect 45 s with Some s =>
  match digits 2 0 s with Some (mo, s) =>
  match expect 45 s with Some s =>
  match digits 2 0 s with Some (d, s) =>
  match expect 84 s with Some s =>
  match digits 2 0 s with Some (h, s) =>
  match expect 58 s with Some s =>
  match digits 2 0 s with Some (mi, s) =>
  match expect 58 s with Some s =>
  match digits 2 0 s with Some (sec, s) =>
  match expect 46 s with Some s =>
  match digits 3 0 s with Some (ms, s) =>
  match expect 90 s with
  | Some [] =>
      if (1 <=? mo) && (mo <=? 12) && (1 <=? d) && (d <=? days_in_month y mo)
         && (h <=? 23) && (mi <=? 59) && (sec <=? 59)
      then Some ((((days_from_civil y mo d * 24 + h) * 60 + mi) * 60 + sec) * 1000 + ms)
      else None
  | _ => None end
  | None => None end | None => None end | None => None end | None => None end
  | None => None end | None => None end | None => None end | None => None end
  | None => None end | None => None end | None => None end | None => None end
  | None => None
  end.

(** [n] written with at least [width] digits. *)
Fixpoint pad (width : nat) (n : Z) : list ascii :=
  match width with
  | O => []
  | S w => pad w (n / 10) ++ [JSON.chr (48 + Z.to_nat (n mod 10))]
  end.

(** [new Date(t).toISOString()]; [None] is the RangeError of an invalid
    time value. *)
Definition toISOString (t : Z) : option string :=
  if in_range t then
    let day := t / 86400000 in
    let rest := t mod 86400000 in
    let '(y, m, d) := civil_from_days day in
    let year :=
      if (0 <=? y) && (y <=? 9999) then pad 4 y
      else JSON.chr (if y <? 0 then 45 else 43) :: pad 6 (Z.abs y) in
    Some (string_of_list_ascii
            (year ++ JSON.chr 45 :: pad 2 m ++ JSON.chr 45 :: pad 2 d
               ++ JSON.chr 84 :: pad 2 (rest / 3600000)
               ++ JSON.chr 58 :: pad 2 (rest / 60000 mod 60)
               ++ JSON.chr 58 :: pad 2 (rest / 1000 mod 60)
               ++ JSON.chr 46 :: pad 3 (rest mod 1000) ++ [JSON.chr 90]))
  else None.

(** [new Date(x).getTime()] for a property [x] of a parsed JSON value
    that [new Date] can make a primitive of; [None] is NaN. A string is
    read in the format that [toISOString] writes; what an engine makes of
    other spellings of a date, which the language leaves to the engine, is
    not modelled and reads as NaN. *)
Definition getTime (x : option JSValue) : option Z :=
  match x with
  | Some (JStr s) => parse s
  | Some (JArr [JStr s]) => parse s
  | Some (JNum n) => if in_range n then Some n else None
  | Some (JBool b) => Some (if b then 1 else 0)
  | Some JNull => Some 0
  | _ => None
  end.

End Date.

(** ** The world and the monad of async functions *)

Inductive Error : Type := TypeError | SyntaxError | RangeError | StorageFailure.

Inductive LogEntry : Type :=
| ConsoleError (msg : string) (e : Error)
| ConsoleWarn (msg : string) (arg : option JSValue).

(** [CacheItem<T>] of storage.ts. *)
Record CacheItem : Type := mkCacheItem {
  data : JSValue;
  timestamp : Z;
  expiry : option Z
}.

Record World : Type := mkWorld {
  clock : Z;                      (* what Date.now() reads, in ms *)
  faults : list bool;             (* the coming AsyncStorage calls: true rejects *)
  disk : gmap string string;      (* the contents of AsyncStorage *)
  cache : gmap string CacheItem;  (* const cache = new Map() of storage.ts *)
  console : list LogEntry         (* newest entry first *)
}.

Definition with_clock (t : Z) (w : World) : World :=
  mkWorld t (faults w) (disk w) (cache w) (console w).
Definition with_faults (f : list bool) (w : World) : World :=
  mkWorld (clock w) f (disk w) (cache w) (console w).
Definition with_disk (d : gmap string string) (w : World) : World :=
  mkWorld (clock w) (faults w) d (cache w) (console w).
Definition with_cache (c : gmap string CacheItem) (w : World) : World :=
  mkWorld (clock w) (faults w) (disk w) c (console w).
Definition with_console (l : list LogEntry) (w : World) : World :=
  mkWorld (clock w) (faults w) (disk w) (cache w) l.

Inductive Result (A : Type) : Type :=
| Ok (a : A)
| Throw (e : Error).
Arguments Ok {A} a.
Arguments Throw {A} e.

Definition M (A : Type) : Type := World -> Result A * World.

Definition ret {A} (a : A) : M A := fun w => (Ok a, w).
Definition throw {A} (e : Error) : M A := fun w => (Throw e, w).
Definition bind {A B} (m : M A) (k : A -> M B) : M B :=
  fun w =>
    match m w with
    | (Ok a, w') => k a w'
    | (Throw e, w') => (Throw e, w')
    end.

Notation "'let*' x ':=' c 'in' k" := (bind c (fun x => k))
  (at level 10, x name, c at level 100, k at level 200).

(** [try { body } catch (error) { handler }]: what the body did to the world
    before it threw stays done. *)
Definition try_catch {A} (body : M A) (handler : Error -> M A) : M A :=
  fun w =>
    match body w with
    | (Ok a, w') => (Ok a, w')
    | (Throw e, w') => handler e w'
    end.

Definition of_option {A} (e : Error) (o : option A) : M A :=
  match o with
  | Some a => ret a
  | None => throw e
  end.

Definition JSON_stringify (v : JSValue) : M string := of_option TypeError (JSON.stringify v).
Definition JSON_parse (text : string) : M JSValue := of_option SyntaxError (JSON.parse text).

Definition Date_now : M Z := fun w => (Ok (clock w), w).
Definition Date_toISOString : M string :=
  let* t := Date_now in of_option RangeError (Date.toISOString t).

Definition log (entry : LogEntry) (w : World) : World :=
  with_console (entry :: console w) w.
Definition console_error (msg : string) (e : Error) : M unit :=
  fun w => (Ok tt, log (ConsoleError msg e) w).
Definition console_warn (msg : string) (arg : option JSValue) : M unit :=
  fun w => (Ok tt, log (ConsoleWarn msg arg) w).

(** [v.k]: reading a property of [null] is a TypeError, a property that is
    not there reads as [undefined]. *)
Definition get_prop (v : JSValue) (k : string) : M (option JSValue) :=
  match v with
  | JNull => throw TypeError
  | JObj fields => ret (assoc_get k fields)
  | _ => ret None
  end.

(** The elements of [v] when it is an array; calling an array method on
    anything else is a TypeError. *)
Definition as_array (v : JSValue) : M (list JSValue) :=
  match v with
  | JArr items => ret items
  | _ => throw TypeError
  end.

(** [list.map(f)] with a callback that may throw. *)
Fixpoint Array_map {A B} (f : A -> M B) (l : list A) : M (list B) :=
  match l with
  | [] => ret []
  | x :: rest =>
      let* y := f x in
      let* ys := Array_map f rest in
      ret (y :: ys)
  end.

(** [list.filter(f)] with a callback that may throw. *)
Fixpoint Array_filter {A} (f : A -> M bool) (l : list A) : M (list A) :=
  match l with
  | [] => ret []
  | x :: rest =>
      let* keep := f x in
      let* ys := Array_filter f rest in
      ret (if keep then x :: ys else ys)
  end.

(** ** AsyncStorage *)

(** Whether the next AsyncStorage call rejects, and the world once that
    call has been made. *)
Definition rejects (w : World) : bool :=
  match head (faults w) with
  | Some true => true
  | _ => false
  end.
Definition next_call (w : World) : World := with_faults (tail (faults w)) w.

Module AsyncStorage.

(** One call: it consumes the head of the script, rejects when that says
    so, and then leaves the store as it was. *)
Definition call {A} (op : World -> A * World) : M A :=
  fun w =>
    if rejects w then (Throw StorageFailure, next_call w)
    else let '(a, w') := op (next_call w) in (Ok a, w').

Definition getItem (key : string) : M (option string) :=
  call (fun w => (disk w !! key, w)).
Definition setItem (key value : string) : M unit :=
  call (fun w => (tt, with_disk (<[key := value]> (disk w)) w)).
Definition removeItem (key : string) : M unit :=
  call (fun w => (tt, with_disk (delete key (disk w)) w)).
Definition clear : M unit :=
  call (fun w => (tt, with_disk ∅ w)).

End AsyncStorage.

(** A string read from AsyncStorage is truthy when it is there and not
    empty. *)
Definition stored_text (stored : option string) : option string :=
  match stored with
  | Some s => if String.eqb s "" then None else Some s
  | None => None
  end.

(** ** services/storage.ts *)

Module STORAGE_KEYS.
Definition USER : string := "@MedicalApp:user".
Definition TOKEN : string := "@MedicalApp:token".
Definition APPOINTMENTS : string := "@MedicalApp:appointments".
Definition NOTIFICATIONS : string := "@MedicalApp:notifications".
Definition REGISTERED_USERS : string := "@MedicalApp:registeredUsers".
Definition APP_SETTINGS : string := "@MedicalApp:settings".
Definition STATISTICS_CACHE : string := "@MedicalApp:statisticsCache".
End STORAGE_KEYS.

Definition cache_get (key : string) : M (option CacheItem) :=
  fun w => (Ok (cache w !! key), w).
Definition cache_set (key : string) (item : CacheItem) : M unit :=
  fun w => (Ok tt, with_cache (<[key := item]> (cache w)) w).
Definition cache_delete (key : string) : M unit :=
  fun w => (Ok tt, with_cache (delete key (cache w)) w).
Definition cache_clear : M unit :=
  fun w => (Ok tt, with_cache ∅ w).

(** [list.push(item)]; calling it on anything but an array is a TypeError. *)
Definition Array_push (v item : JSValue) : M JSValue :=
  match v with
  | JArr items => ret (JArr (items ++ [item]))
  | _ => throw TypeError
  end.

(** A mutation in place of the object that [getItem] returned. [getItem]
    hands out the very object that the cache holds under the key, whenever
    it leaves an entry there (a valid entry, or the value just parsed from
    the store); a default or [null] is in no entry. Two entries are taken
    never to hold the same object. *)
Definition cache_mutate (key : string) (v : JSValue) : M unit :=
  fun w =>
    (Ok tt,
     match cache w !! key with
     | Some c =>
         with_cache
           (<[key := {| data := v; timestamp := timestamp c; expiry := expiry c |}]>
              (cache w)) w
     | None => w
     end).

(** [n.toString()] for an array index. *)
Definition index_key (i : nat) : string :=
  string_of_list_ascii (JSON.render_Z (Z.of_nat i)).

Fixpoint indexed {A} (f : A -> JSValue) (i : nat) (l : list A)
  : list (string * JSValue) :=
  match l with
  | [] => []
  | x :: rest => (index_key i, f x) :: indexed f (S i) rest
  end.

(** The own enumerable properties that [{...v}] copies: those of an object,
    the elements of an array, the characters of a string, and nothing for
    [null], a boolean or a number. *)
Definition spread_props (v : JSValue) : list (string * JSValue) :=
  match v with
  | JObj fields => fields
  | JArr items => indexed (fun x => x) 0 items
  | JStr s => indexed (fun c => JStr (String c EmptyString)) 0 (list_ascii_of_string s)
  | _ => []
  end.

(** [typeof x === 'string'] *)
Definition typeof_string (x : option JSValue) : bool :=
  match x with
  | Some (JStr _) => true
  | _ => false
  end.

(** [list.includes(x)] for a list of strings. *)
Definition includes (l : list string) (x : option JSValue) : bool :=
  existsb (strict_eq_str x) l.

Module storageService.

(** [expiryMinutes ? Date.now() + (expiryMinutes * 60 * 1000) : undefined] *)
Definition expiry_of (expiryMinutes : option Z) (now : Z) : option Z :=
  match expiryMinutes with
  | Some m => if m =? 0 then None else Some (now + m * 60 * 1000)
  | None => None
  end.

(** [!cached.expiry || cached.expiry > Date.now()] *)
Definition still_valid (cached : CacheItem) (now : Z) : bool :=
  match expiry cached with
  | Some e => (e =? 0) || (now <? e)
  | None => true
  end.

Definition setItem (key : string) (value : JSValue) (expiryMinutes : option Z) : M unit :=
  try_catch
    (let* serializedValue := JSON_stringify value in
     let* _ := AsyncStorage.setItem key serializedValue in
     let* t := Date_now in
     let* t' := Date_now in
     cache_set key
       {| data := value; timestamp := t; expiry := expiry_of expiryMinutes t' |})
    (fun error =>
       let* _ := console_error ("Erro ao salvar " +:+ key +:+ ":") error in
       throw error).

(** The cache step of [getItem]: [Some] is the early return of a valid
    entry; an expired entry is deleted on the way. *)
Definition cache_lookup (key : string) : M (option JSValue) :=
  let* cached := cache_get key in
  match cached with
  | Some c =>
      let* now := Date_now in
      if still_valid c now then ret (Some (data c))
      else let* _ := cache_delete key in ret None
  | None => ret None
  end.

Definition getItem (key : string) (defaultValue : option JSValue) : M JSValue :=
  try_catch
    (let* hit := cache_lookup key in
     match hit with
     | Some v => ret v
     | None =>
         let* stored := AsyncStorage.getItem key in
         match stored_text stored with
         | Some text =>
             let* parsed := JSON_parse text in
             let* now := Date_now in
             let* _ := cache_set key {| data := parsed; timestamp := now; expiry := None |} in
             ret parsed
         | None => ret (js_or defaultValue JNull)
         end
     end)
    (fun error =>
       let* _ := console_error ("Erro ao carregar " +:+ key +:+ ":") error in
       ret (js_or defaultValue JNull)).

Definition removeItem (key : string) : M unit :=
  try_catch
    (let* _ := AsyncStorage.removeItem key in cache_delete key)
    (fun error =>
       let* _ := console_error ("Erro ao remover " +:+ key +:+ ":") error in
       throw error).

Definition clearAll : M unit :=
  try_catch
    (let* _ := AsyncStorage.clear in cache_clear)
    (fun error =>
       let* _ := console_error "Erro ao limpar armazenamento:" error in
       throw error).

Definition getAppointments : M JSValue :=
  getItem STORAGE_KEYS.APPOINTMENTS (Some (JArr [])).

Definition saveAppointments (appointments : JSValue) : M unit :=
  setItem STORAGE_KEYS.APPOINTMENTS appointments None.

(** The own properties of a value that a property access [v.k] with a
    key that is no index and not [length] can find: those of an object. *)
Definition own_props (v : JSValue) : list (string * JSValue) :=
  match v with
  | JObj fields => fields
  | _ => []
  end.

Definition updateAppointment (appointmentId : string) (updates : JSValue) : M unit :=
  let* appointments := getAppointments in
  let* items := as_array appointments in
  let* updatedAppointments :=
    Array_map
      (fun apt =>
         let* id := get_prop apt "id" in
         ret (if strict_eq_str id appointmentId
              then JObj (spread (spread_props apt) (spread_props updates))
              else apt))
      items in
  saveAppointments (JArr updatedAppointments).

Definition deleteAppointment (appointmentId : string) : M unit :=
  let* appointments := getAppointments in
  let* items := as_array appointments in
  let* filteredAppointments :=
    Array_filter
      (fun apt =>
         let* id := get_prop apt "id" in
         ret (negb (strict_eq_str id appointmentId)))
      items in
  saveAppointments (JArr filteredAppointments).

Definition createBackup : M string :=
  try_catch
    (let* stamp := Date_toISOString in
     let* appointments := getItem STORAGE_KEYS.APPOINTMENTS (Some (JArr [])) in
     let* notifications := getItem STORAGE_KEYS.NOTIFICATIONS (Some (JArr [])) in
     let* registeredUsers := getItem STORAGE_KEYS.REGISTERED_USERS (Some (JArr [])) in
     let* settings := getItem STORAGE_KEYS.APP_SETTINGS (Some (JObj [])) in
     JSON_stringify
       (JObj [("timestamp", JStr stamp);
              ("data", JObj [("appointments", appointments);
                             ("notifications", notifications);
                             ("registeredUsers", registeredUsers);
                             ("settings", settings)])]))
    (fun error =>
       let* _ := console_error "Erro ao criar backup:" error in
       throw error).

Definition restoreFromBackup (backupString : string) : M unit :=
  try_catch
    (let* backup := JSON_parse backupString in
     let* backup_data := get_prop backup "data" in
     match backup_data with
     | Some d =>
         if truthy d then
           let* appointments := get_prop d "appointments" in
           let* _ := setItem STORAGE_KEYS.APPOINTMENTS (js_or appointments (JArr [])) None in
           let* notifications := get_prop d "notifications" in
           let* _ := setItem STORAGE_KEYS.NOTIFICATIONS (js_or notifications (JArr [])) None in
           let* registeredUsers := get_prop d "registeredUsers" in
           let* _ := setItem STORAGE_KEYS.REGISTERED_USERS (js_or registeredUsers (JArr [])) None in
           let* settings := get_prop d "settings" in
           setItem STORAGE_KEYS.APP_SETTINGS (js_or settings (JObj [])) None
         else ret tt
     | None => ret tt
     end)
    (fun error =>
       let* _ := console_error "Erro ao restaurar backup:" error in
       throw error).

Definition clearCache : M unit := cache_clear.

Definition default_settings : JSValue :=
  JObj [("theme", JStr "light");
        ("notifications", JBool true);
        ("language", JStr "pt-BR");
        ("autoBackup", JBool true)].

Definition getAppSettings : M JSValue :=
  getItem STORAGE_KEYS.APP_SETTINGS (Some default_settings).

(** [appointments.push(appointment)] on what [getItem(key, [])] returned. *)
Definition push_in_place (key : string) (list item : JSValue) : M JSValue :=
  let* pushed := Array_push list item in
  let* _ := cache_mutate key pushed in
  ret pushed.

Definition addAppointment (appointment : JSValue) : M unit :=
  let* appointments := getAppointments in
  let* appointments' :=
    push_in_place STORAGE_KEYS.APPOINTMENTS appointments appointment in
  saveAppointments appointments'.

Definition getRegisteredUsers : M JSValue :=
  getItem STORAGE_KEYS.REGISTERED_USERS (Some (JArr [])).

Definition saveRegisteredUsers (users : JSValue) : M unit :=
  setItem STORAGE_KEYS.REGISTERED_USERS users None.

Definition addUser (user : JSValue) : M unit :=
  let* users := getRegisteredUsers in
  let* users' := push_in_place STORAGE_KEYS.REGISTERED_USERS users user in
  saveRegisteredUsers users'.

Definition getNotifications : M JSValue :=
  getItem STORAGE_KEYS.NOTIFICATIONS (Some (JArr [])).

Definition saveNotifications (notifications : JSValue) : M unit :=
  setItem STORAGE_KEYS.NOTIFICATIONS notifications None.

Definition addNotification (notification : JSValue) : M unit :=
  let* notifications := getNotifications in
  let* notifications' :=
    push_in_place STORAGE_KEYS.NOTIFICATIONS notifications notification in
  saveNotifications notifications'.

(** [appointment && typeof appointment.id === 'string' && ...]: a falsy
    argument is itself the result. *)
Definition validateAppointment (appointment : JSValue) : JSValue :=
  if truthy appointment then
    let field k := assoc_get k (own_props appointment) in
    JBool (typeof_string (field "id")
           && typeof_string (field "patientId")
           && typeof_string (field "doctorId")
           && typeof_string (field "date")
           && typeof_string (field "time")
           && includes ["pending"; "confirmed"; "cancelled"] (field "status"))
  else appointment.

Definition validateUser (user : JSValue) : JSValue :=
  if truthy user then
    let field k := assoc_get k (own_props user) in
    JBool (typeof_string (field "id")
           && typeof_string (field "name")
           && typeof_string (field "email")
           && includes ["admin"; "doctor"; "patient"] (field "role"))
  else user.

Definition updateAppSettings (settings : JSValue) : M unit :=
  let* currentSettings := getAppSettings in
  let updatedSettings := JObj (spread (spread_props currentSettings) (spread_props settings)) in
  setItem STORAGE_KEYS.APP_SETTINGS updatedSettings None.

End storageService.

(** ** services/notifications.ts *)

(** [v.k] where [v] is known not to be [null]. *)
Definition prop (v : JSValue) (k : string) : option JSValue :=
  match v with
  | JObj fields => assoc_get k fields
  | _ => None
  end.

(** [Array.prototype.sort(comparefn)]: the sort of the language is stable,
    and with a consistent comparator its result is the one sorted stable
    arrangement, which insertion from the right computes. A comparator
    result of NaN ([None]) counts as [+0]. *)
Section Array_sort.
Context {A : Type} (comparefn : A -> A -> option Z).

Definition strictly_before (a b : A) : bool :=
  match comparefn a b with
  | Some v => v <? 0
  | None => false
  end.

Fixpoint sort_insert (x : A) (l : list A) : list A :=
  match l with
  | [] => [x]
  | y :: l' => if strictly_before y x then y :: sort_insert x l' else x :: y :: l'
  end.

Fixpoint Array_sort (l : list A) : list A :=
  match l with
  | [] => []
  | x :: l' => sort_insert x (Array_sort l')
  end.
End Array_sort.

(** [!x] where [x] may be [undefined]. *)
Definition js_not (x : option JSValue) : bool :=
  match x with
  | Some v => negb (truthy v)
  | None => true
  end.

(** [n.toString()] for an integer [n] that is printed without an
    exponent, as every reading of the clock is. *)
Definition Number_toString (n : Z) : string :=
  string_of_list_ascii (JSON.render_Z n).

(** [String(x)], as a template literal and the key of a property access
    compute it, for a value without functions inside: an array is joined by
    commas with [null] printed as nothing, an object is [[object Object]]
    unless a property of its own hides [toString], in which case nothing is
    left to call and the conversion is a TypeError ([None]). *)
Fixpoint ToString_value (v : JSValue) : option string :=
  match v with
  | JNull => Some "null"
  | JBool true => Some "true"
  | JBool false => Some "false"
  | JNum n => Some (Number_toString n)
  | JBigInt n => Some (Number_toString n)
  | JStr s => Some s
  | JArr items =>
      (fix join_items (first : bool) (l : list JSValue) : option string :=
         match l with
         | [] => Some EmptyString
         | x :: rest =>
             match (match x with JNull => Some EmptyString | _ => ToString_value x end),
                   join_items false rest with
             | Some s, Some r => Some ((if first then EmptyString else ",") +:+ s +:+ r)
             | _, _ => None
             end
         end) true items
  | JObj fields =>
      match assoc_get "toString" fields with
      | Some _ => None
      | None => Some "[object Object]"
      end
  end.

(** [`${x}`] and the key of [o[x]], where [x] may be [undefined]. *)
Definition ToString (x : option JSValue) : M string :=
  match x with
  | Some v => of_option TypeError (ToString_value v)
  | None => ret "undefined"
  end.

(** [ToPrimitive(x)], the first step of [new Date(x)]: a primitive is
    taken as it is; an object or an array is asked for [valueOf], which
    gives the object back, and then for [toString], so that the conversion
    throws a TypeError exactly where [String(x)] does. *)
Definition ToPrimitive (x : option JSValue) : M unit :=
  let* _ := ToString x in
  ret tt.

Module notificationService.

Definition STORAGE_KEY : string := "@MedicalApp:notifications".

(** [new Date(n.createdAt).getTime()], once [new Date] has its primitive. *)
Definition created (n : JSValue) : option Z := Date.getTime (prop n "createdAt").

(** [new Date(n.createdAt)], as far as it can throw. *)
Definition new_Date (n : JSValue) : M unit :=
  let* createdAt := get_prop n "createdAt" in
  ToPrimitive createdAt.

(** [(a, b) => new Date(b.createdAt).getTime() - new Date(a.createdAt).getTime()] *)
Definition newest_first (a b : JSValue) : option Z :=
  match created b, created a with
  | Some tb, Some ta => Some (tb - ta)
  | _, _ => None
  end.

Definition getNotifications (userId : string) : M (list JSValue) :=
  try_catch
    (let* stored := AsyncStorage.getItem STORAGE_KEY in
     let* allNotifications :=
       match stored_text stored with
       | Some text => JSON_parse text
       | None => ret (JArr [])
       end in
     let* items := as_array allNotifications in
     let* mine :=
       Array_filter
         (fun n => let* owner := get_prop n "userId" in ret (strict_eq_str owner userId))
         items in
     (* sorting two or more elements passes each of them to the comparator,
        which makes a Date of it *)
     let* _ :=
       if (2 <=? length mine)%nat then Array_map new_Date mine else ret [] in
     ret (Array_sort newest_first mine))
    (fun error =>
       let* _ := console_error "Erro ao carregar notificações:" error in
       ret []).

(** [stored ? JSON.parse(stored) : []] on what
    [AsyncStorage.getItem(STORAGE_KEY)] gave, the first two lines of every
    function that rewrites the list. *)
Definition read_all : M JSValue :=
  let* stored := AsyncStorage.getItem STORAGE_KEY in
  match stored_text stored with
  | Some text => JSON_parse text
  | None => ret (JArr [])
  end.

(** [await AsyncStorage.setItem(STORAGE_KEY, JSON.stringify(list))] *)
Definition write_all (list : JSValue) : M unit :=
  let* text := JSON_stringify list in
  AsyncStorage.setItem STORAGE_KEY text.

(** [{ ...n, read: true }] *)
Definition as_read (n : JSValue) : JSValue :=
  JObj (spread (spread_props n) [("read", JBool true)]).

(** The argument is an object all of whose properties are defined. *)
Definition createNotification (notification : JSValue) : M unit :=
  try_catch
    (let* allNotifications := read_all in
     let* now := Date_now in
     let* createdAt := Date_toISOString in
     let newNotification :=
       JObj (spread (spread_props notification)
               [("id", JStr (Number_toString now));
                ("createdAt", JStr createdAt);
                ("read", JBool false)]) in
     let* allNotifications' := Array_push allNotifications newNotification in
     write_all allNotifications')
    (fun error => console_error "Erro ao criar notificação:" error).

Definition markAsRead (notificationId : string) : M unit :=
  try_catch
    (let* allNotifications := read_all in
     let* items := as_array allNotifications in
     let* updatedNotifications :=
       Array_map
         (fun n =>
            let* id := get_prop n "id" in
            ret (if strict_eq_str id notificationId then as_read n else n))
         items in
     write_all (JArr updatedNotifications))
    (fun error => console_error "Erro ao marcar notificação como lida:" error).

Definition markAllAsRead (userId : string) : M unit :=
  try_catch
    (let* allNotifications := read_all in
     let* items := as_array allNotifications in
     let* updatedNotifications :=
       Array_map
         (fun n =>
            let* owner := get_prop n "userId" in
            ret (if strict_eq_str owner userId then as_read n else n))
         items in
     write_all (JArr updatedNotifications))
    (fun error => console_error "Erro ao marcar todas notificações como lidas:" error).

Definition deleteNotification (notificationId : string) : M unit :=
  try_catch
    (let* allNotifications := read_all in
     let* items := as_array allNotifications in
     let* filteredNotifications :=
       Array_filter
         (fun n =>
            let* id := get_prop n "id" in
            ret (negb (strict_eq_str id notificationId)))
         items in
     write_all (JArr filteredNotifications))
    (fun error => console_error "Erro ao deletar notificação:" error).

Definition getUnreadCount (userId : string) : M Z :=
  try_catch
    (let* notifications := getNotifications userId in
     let* unread :=
       Array_filter (fun n => let* r := get_prop n "read" in ret (js_not r))
         notifications in
     ret (Z.of_nat (length unread)))
    (fun error =>
       let* _ := console_error "Erro ao contar notificações não lidas:" error in
       ret 0).

End notificationService.

(** ** services/statistics.ts *)

Record StatusPercentages : Type := mkStatusPercentages {
  confirmed : Q;
  pending : Q;
  cancelled : Q
}.

(** [Statistics] without the [specialties] histogram: what the counter of
    an entry named like a member of [Object.prototype] becomes depends on
    the engine's prototype. *)
Record Statistics : Type := mkStatistics {
  totalAppointments : Z;
  confirmedAppointments : Z;
  pendingAppointments : Z;
  cancelledAppointments : Z;
  totalPatients : Z;
  totalDoctors : Z;
  appointmentsByMonth : gmap string Z;
  statusPercentages : StatusPercentages
}.

(** SameValueZero on values that came out of [JSON.parse]: primitives by
    value, while two arrays or objects are never the same reference. *)
Definition same_value_zero (x y : option JSValue) : bool :=
  match x, y with
  | None, None => true
  | Some JNull, Some JNull => true
  | Some (JBool a), Some (JBool b) => Bool.eqb a b
  | Some (JNum a), Some (JNum b) => a =? b
  | Some (JBigInt a), Some (JBigInt b) => a =? b
  | Some (JStr a), Some (JStr b) => String.eqb a b
  | _, _ => false
  end.

(** [new Set(l).size] *)
Fixpoint Set_size (l : list (option JSValue)) : Z :=
  match l with
  | [] => 0
  | x :: rest =>
      if existsb (same_value_zero x) rest then Set_size rest else 1 + Set_size rest
  end.

(** [s.split('/')] *)
Fixpoint split_slash (cur : list ascii) (s : list ascii) : list (list ascii) :=
  match s with
  | [] => [rev cur]
  | c :: r =>
      if Ascii.eqb c (JSON.chr 47) then rev cur :: split_slash [] r
      else split_slash (c :: cur) r
  end.

Definition String_split (s : string) : list string :=
  map string_of_list_ascii (split_slash [] (list_ascii_of_string s)).

(** A destructured array element inside a template literal. *)
Definition template_part (x : option string) : string :=
  match x with
  | Some s => s
  | None => "undefined"
  end.

Module statisticsService.

Definition count_status (status : string) (appointments : list JSValue) : M Z :=
  let* matching :=
    Array_filter
      (fun a => let* s := get_prop a "status" in ret (strict_eq_str s status))
      appointments in
  ret (Z.of_nat (length matching)).

(** [date.split('/')]: only a string has the method. *)
Definition call_split (date : option JSValue) : M (list string) :=
  match date with
  | Some (JStr s) => ret (String_split s)
  | _ => throw TypeError
  end.

(** [if (byMonth[k]) byMonth[k]++ else byMonth[k] = 1]. A month key has a
    slash in it, so it never names a member of [Object.prototype]. *)
Definition bump (k : string) (byMonth : gmap string Z) : gmap string Z :=
  match byMonth !! k with
  | Some n => if n =? 0 then <[k := 1]> byMonth else <[k := n + 1]> byMonth
  | None => <[k := 1]> byMonth
  end.

(** The key built from the destructured [[day, month, year]]. *)
Definition month_key_of (parts : list string) : string :=
  template_part (parts !! 1%nat) +:+ "/" +:+ template_part (parts !! 2%nat).

(** The body of the [forEach] that fills [appointmentsByMonth]. *)
Definition count_month (byMonth : gmap string Z) (appointment : JSValue)
  : M (gmap string Z) :=
  try_catch
    (let* date := get_prop appointment "date" in
     let* parts := call_split date in
     let monthKey := month_key_of parts in
     ret (bump monthKey byMonth))
    (fun error =>
       let* date := get_prop appointment "date" in
       let* _ := console_warn "Data inválida encontrada:" date in
       ret byMonth).

Fixpoint count_months (byMonth : gmap string Z) (appointments : list JSValue)
  : M (gmap string Z) :=
  match appointments with
  | [] => ret byMonth
  | a :: rest =>
      let* byMonth' := count_month byMonth a in
      count_months byMonth' rest
  end.

(** The body of the [forEach] that fills [specialties], as far as the
    rest of the function can tell: [specialties[appointment.specialty]]
    converts the specialty to a property key, which is a TypeError for a
    specialty that cannot be converted. Reading, incrementing and
    assigning the entry cannot throw. The histogram itself is not among
    the fields of [Statistics] kept here. *)
Definition specialty_key (appointment : JSValue) : M string :=
  let* specialty := get_prop appointment "specialty" in
  ToString specialty.

Definition percentage (count total : Z) : Q :=
  if 0 <? total then (inject_Z count / inject_Z total * inject_Z 100)%Q else 0%Q.

Definition read_array (key : string) : M JSValue :=
  let* stored := AsyncStorage.getItem key in
  match stored_text stored with
  | Some text => JSON_parse text
  | None => ret (JArr [])
  end.

Definition getGeneralStatistics : M Statistics :=
  try_catch
    (let* parsed := read_array "@MedicalApp:appointments" in
     let* registeredUsers := read_array "@MedicalApp:registeredUsers" in
     let* appointments := as_array parsed in
     let totalAppointments := Z.of_nat (length appointments) in
     let* confirmedAppointments := count_status "confirmed" appointments in
     let* pendingAppointments := count_status "pending" appointments in
     let* cancelledAppointments := count_status "cancelled" appointments in
     let* patientIds := Array_map (fun a => get_prop a "patientId") appointments in
     let totalPatients := Set_size patientIds in
     let* doctorIds := Array_map (fun a => get_prop a "doctorId") appointments in
     let totalDoctors := Set_size doctorIds in
     let* specialtyKeys := Array_map specialty_key appointments in
     let* appointmentsByMonth := count_months ∅ appointments in
     ret {| totalAppointments := totalAppointments;
            confirmedAppointments := confirmedAppointments;
            pendingAppointments := pendingAppointments;
            cancelledAppointments := cancelledAppointments;
            totalPatients := totalPatients;
            totalDoctors := totalDoctors;
            appointmentsByMonth := appointmentsByMonth;
            statusPercentages :=
              {| confirmed := percentage confirmedAppointments totalAppointments;
                 pending := percentage pendingAppointments totalAppointments;
                 cancelled := percentage cancelledAppointments totalAppointments |} |})
    (fun error =>
       let* _ := console_error "Erro ao calcular estatísticas:" error in
       throw error).

(** The fields that [getDoctorStatistics] returns of [Partial<Statistics>]. *)
Record DoctorStatistics : Type := mkDoctorStatistics {
  doctor_totalAppointments : Z;
  doctor_confirmedAppointments : Z;
  doctor_pendingAppointments : Z;
  doctor_cancelledAppointments : Z;
  doctor_totalPatients : Z;
  doctor_statusPercentages : StatusPercentages
}.

Definition getDoctorStatistics (doctorId : string) : M DoctorStatistics :=
  try_catch
    (let* parsed := read_array "@MedicalApp:appointments" in
     let* allAppointments := as_array parsed in
     let* doctorAppointments :=
       Array_filter
         (fun a => let* d := get_prop a "doctorId" in ret (strict_eq_str d doctorId))
         allAppointments in
     let totalAppointments := Z.of_nat (length doctorAppointments) in
     let* confirmedAppointments := count_status "confirmed" doctorAppointments in
     let* pendingAppointments := count_status "pending" doctorAppointments in
     let* cancelledAppointments := count_status "cancelled" doctorAppointments in
     let* patientIds := Array_map (fun a => get_prop a "patientId") doctorAppointments in
     let totalPatients := Set_size patientIds in
     ret {| doctor_totalAppointments := totalAppointments;
            doctor_confirmedAppointments := confirmedAppointments;
            doctor_pendingAppointments := pendingAppointments;
            doctor_cancelledAppointments := cancelledAppointments;
            doctor_totalPatients := totalPatients;
            doctor_statusPercentages :=
              {| confirmed := percentage confirmedAppointments totalAppointments;
                 pending := percentage pendingAppointments totalAppointments;
                 cancelled := percentage cancelledAppointments totalAppointments |} |})
    (fun error =>
       let* _ := console_error "Erro ao calcular estatísticas do médico:" error in
       throw error).

End statisticsService.

(** ** Vocabulary of the properties *)

(** The world after the cache step of [getItem] missed. *)
Definition evicted (key : string) (w : World) : World :=
  with_cache (delete key (cache w)) w.

(** The entry of [key] that is still valid at the clock of [w]. *)
Definition cache_hit (key : string) (w : World) : option JSValue :=
  match cache w !! key with
  | Some c => if storageService.still_valid c (clock w) then Some (data c) else None
  | None => None
  end.

(** The empty world: nothing stored, nothing cached, a store that works. *)
Definition fresh_world : World := mkWorld 0 [] ∅ ∅ [].

(** The outcome of a computation and the world it leaves. *)
Definition result {A} (m : M A) (w : World) : Result A := fst (m w).
Definition after {A} (m : M A) (w : World) : World := snd (m w).

(** The default a caller supplied, or [null] when there is none. *)
Definition default_or_absent (d : option JSValue) : JSValue :=
  match d with
  | Some v => v
  | None => JNull
  end.

(** A world where key [k] holds the number 7, stored without a TTL. *)
Definition world_with_k : World :=
  after (storageService.setItem "k" (JNum 7) None) fresh_world.

(** A world where [k] was stored with a TTL of one minute at clock 0. *)
Definition world_with_ttl : World :=
  after (storageService.setItem "k" (JNum 7) (Some 1)) fresh_world.

(** The value a service finds under [key]:
    [stored ? JSON.parse(stored) : []]; [None] when the text does not parse. *)
Definition stored_value (key : string) (w : World) : option JSValue :=
  match stored_text (disk w !! key) with
  | Some text => JSON.parse text
  | None => Some (JArr [])
  end.

(** The elements of that value when it is an array. *)
Definition stored_array (key : string) (w : World) : option (list JSValue) :=
  match stored_value key w with
  | Some (JArr items) => Some items
  | _ => None
  end.

(** [n.userId === userId] *)
Definition owned_by (userId : string) (n : JSValue) : bool :=
  strict_eq_str (prop n "userId") userId.

(** The notification was created at time [t]. *)
Definition created_at (t : Z) (n : JSValue) : bool :=
  match notificationService.created n with
  | Some t' => t' =? t
  | None => false
  end.

(** [a] may stand before [b] in a list that is newest first. *)
Definition not_older (a b : JSValue) : Prop :=
  match notificationService.created a, notificationService.created b with
  | Some ta, Some tb => tb <= ta
  | _, _ => False
  end.

Definition notification (id userId createdAt : string) : JSValue :=
  JObj [("id", JStr id); ("userId", JStr userId); ("title", JStr "Consulta Confirmada");
        ("read", JBool false); ("createdAt", JStr createdAt)].

(** Three notifications of [u1], two of them created in the same
    millisecond, and one of [u2]. *)
Definition sample_notifications : list JSValue :=
  [notification "n1" "u1" "2025-08-21T14:30:00.000Z";
   notification "n2" "u2" "2025-08-23T09:00:00.000Z";
   notification "n3" "u1" "2025-08-22T08:15:00.500Z";
   notification "n4" "u1" "2025-08-21T14:30:00.000Z"].

(** The fresh world with [v] serialized under [key] in AsyncStorage. *)
Definition disk_with (key : string) (v : JSValue) : World :=
  match JSON.stringify v with
  | Some text => with_disk (<[key := text]> ∅) fresh_world
  | None => fresh_world
  end.

Definition notifications_world : World :=
  disk_with notificationService.STORAGE_KEY (JArr sample_notifications).

(** [a.status === status] *)
Definition has_status (status : string) (a : JSValue) : bool :=
  strict_eq_str (prop a "status") status.

Definition appointment (id patientId doctorId date status : string) : JSValue :=
  JObj [("id", JStr id); ("patientId", JStr patientId); ("patientName", JStr "Ana");
        ("doctorId", JStr doctorId); ("doctorName", JStr "Dr. João Silva");
        ("date", JStr date); ("time", JStr "14:30");
        ("specialty", JStr "Cardiologia"); ("status", JStr status)].

Definition confirmed_appointments : list JSValue :=
  [appointment "a1" "p1" "d1" "21/08/2025" "confirmed";
   appointment "a2" "p2" "d1" "02/09/2025" "confirmed";
   appointment "a3" "p1" "d2" "30/08/2025" "confirmed"].

Definition confirmed_world : World :=
  disk_with "@MedicalApp:appointments" (JArr confirmed_appointments).

(** One appointment whose date is written year first. *)
Definition iso_dated_world : World :=
  disk_with "@MedicalApp:appointments"
    (JArr [appointment "a1" "p1" "d1" "2025-08-21" "pending"]).

(** The month key the histogram files an appointment under; none when the
    date is not a string. *)
Definition month_key (a : JSValue) : option string :=
  match prop a "date" with
  | Some (JStr s) => Some (statisticsService.month_key_of (String_split s))
  | _ => None
  end.

(** The histogram and the console after the appointments were counted. *)
Fixpoint month_histogram (byMonth : gmap string Z) (appointments : list JSValue)
  : gmap string Z :=
  match appointments with
  | [] => byMonth
  | a :: rest =>
      month_histogram
        (match month_key a with
         | Some k => statisticsService.bump k byMonth
         | None => byMonth
         end) rest
  end.

Fixpoint month_warnings (appointments : list JSValue) (w : World) : World :=
  match appointments with
  | [] => w
  | a :: rest =>
      month_warnings rest
        (match month_key a with
         | Some _ => w
         | None => log (ConsoleWarn "Data inválida encontrada:" (prop a "date")) w
         end)
  end.

(** A date [DD/MM/YYYY] made of the given characters. *)
Definition ddmmyyyy (d1 d2 m1 m2 y1 y2 y3 y4 : ascii) : string :=
  string_of_list_ascii
    [d1; d2; JSON.chr 47; m1; m2; JSON.chr 47; y1; y2; y3; y4].

(** A world where the appointments were saved through the storage service. *)
Definition saved_appointments_world : World :=
  after (storageService.saveAppointments (JArr confirmed_appointments)) fresh_world.

(** A text after a number must not go on with a digit, a fraction or an
    exponent; the delimiters of JSON do not. *)
Definition delimited (rest : list ascii) : Prop :=
  match rest with
  | [] => True
  | c :: _ => c = JSON.chr 44 \/ c = JSON.chr 93 \/ c = JSON.chr 125
  end.

(** [parse_value] reads the rendering of [v] back, given enough fuel and a
    delimiter after it. *)
Definition reads_back (v : JSValue) : Prop :=
  JSON.well_formed v = true ->
  forall fuel rest,
    (JSON.weight v <= fuel)%nat -> delimited rest ->
    JSON.parse_value fuel (JSON.render v ++ rest) = Some (v, rest).

(** The first [n] calls to AsyncStorage go through. *)
Definition quiet (n : nat) (w : World) : Prop :=
  Forall (fun b => b = false) (take n (faults w)).

(** The document that [createBackup] serializes. *)
Definition backup_document (stamp : string) (a n u s : JSValue) : JSValue :=
  JObj [("timestamp", JStr stamp);
        ("data", JObj [("appointments", a); ("notifications", n);
                       ("registeredUsers", u); ("settings", s)])].

(** The four writes of [restoreFromBackup]. *)
Definition restore_writes (a n u s : JSValue) : M unit :=
  let* _ := storageService.setItem STORAGE_KEYS.APPOINTMENTS a None in
  let* _ := storageService.setItem STORAGE_KEYS.NOTIFICATIONS n None in
  let* _ := storageService.setItem STORAGE_KEYS.REGISTERED_USERS u None in
  storageService.setItem STORAGE_KEYS.APP_SETTINGS s None.


Definition sample_users : JSValue :=
  JArr [JObj [("id", JStr "patient-1"); ("role", JStr "patient")]].

Definition sample_settings : JSValue :=
  JObj [("theme", JStr "dark"); ("notifications", JBool false)].

(** A world where the four covered keys were saved through the service. *)
Definition populated_world : World :=
  after
    (restore_writes (JArr confirmed_appointments) (JArr sample_notifications)
       sample_users sample_settings)
    fresh_world.

(** A later moment of the world: another clock reading, another script, and
    whatever AsyncStorage holds by then. *)
Definition later (t : Z) (fs : list bool) (w : World) : World :=
  with_faults fs (with_clock t w).

(** A world where key [k] is stored as text that is not JSON. *)
Definition broken_text_world : World :=
  with_disk (<["k" := "{oops"]> ∅) fresh_world.

(** The appointments that [deleteAppointment(id)] keeps. *)
Definition without_id (id : string) (items : list JSValue) : list JSValue :=
  List.filter (fun apt => negb (strict_eq_str (prop apt "id") id)) items.

(** What [updateAppointment(id, updates)] makes of one appointment. *)
Definition merge_update (id : string) (updates apt : JSValue) : JSValue :=
  if strict_eq_str (prop apt "id") id
  then JObj (spread (spread_props apt) (spread_props updates))
  else apt.

(** A world where the appointments key is cached and stored, the next call
    to AsyncStorage being rejected. *)
Definition failing_appointments_world : World :=
  with_faults [true] saved_appointments_world.

(** The three collections that storage.ts keeps as arrays, with their
    accessors. *)
Inductive Repository : Type := Appointments | RegisteredUsers | Notifications.

Definition repository_key (r : Repository) : string :=
  match r with
  | Appointments => STORAGE_KEYS.APPOINTMENTS
  | RegisteredUsers => STORAGE_KEYS.REGISTERED_USERS
  | Notifications => STORAGE_KEYS.NOTIFICATIONS
  end.

Definition repository_get (r : Repository) : M JSValue :=
  match r with
  | Appointments => storageService.getAppointments
  | RegisteredUsers => storageService.getRegisteredUsers
  | Notifications => storageService.getNotifications
  end.

Definition repository_add (r : Repository) (item : JSValue) : M unit :=
  match r with
  | Appointments => storageService.addAppointment item
  | RegisteredUsers => storageService.addUser item
  | Notifications => storageService.addNotification item
  end.

(** What [restoreFromBackup] finds to restore in a text: the truthy [data]
    property of the value it parses to. *)
Definition backup_data (text : string) : option JSValue :=
  match JSON.parse text with
  | Some v =>
      match prop v "data" with
      | Some d => if truthy d then Some d else None
      | None => None
      end
  | None => None
  end.

(** A world that holds data under the four covered keys, uncached, while
    AsyncStorage rejects the next four calls. *)
Definition unreadable_world : World :=
  with_faults [true; true; true; true] (with_cache ∅ populated_world).

(** The [data] section and the text of a backup of the sample data. *)
Definition sample_backup_data : JSValue :=
  JObj [("appointments", JArr confirmed_appointments);
        ("notifications", JArr sample_notifications);
        ("registeredUsers", sample_users);
        ("settings", sample_settings)].

Definition sample_backup_text : string :=
  match JSON.stringify
          (JObj [("timestamp", JStr "2025-08-21T14:30:00.000Z");
                 ("data", sample_backup_data)]) with
  | Some text => text
  | None => EmptyString
  end.

(** How many appointments the histogram files under the month key [k]. *)
Definition filed_under (k : string) (a : JSValue) : bool :=
  match month_key a with
  | Some k' => String.eqb k' k
  | None => false
  end.

(** The date of the appointment is not a string. *)
Definition undated (a : JSValue) : bool :=
  match month_key a with
  | Some _ => false
  | None => true
  end.

(** [a.doctorId === doctorId] *)
Definition of_doctor (doctorId : string) (a : JSValue) : bool :=
  strict_eq_str (prop a "doctorId") doctorId.

(** A computation that leaves AsyncStorage and the cache as they are. *)
Definition read_only {A} (m : M A) : Prop :=
  forall w, disk (after m w) = disk w /\ cache (after m w) = cache w.

(** Appointments of two doctors, one of them without a usable date. *)
Definition mixed_appointments : list JSValue :=
  [appointment "a1" "p1" "d1" "21/08/2025" "confirmed";
   appointment "a2" "p2" "d2" "02/09/2025" "pending";
   JObj [("id", JStr "a3"); ("patientId", JStr "p1"); ("doctorId", JStr "d1");
         ("date", JNum 20250830); ("status", JStr "done")];
   appointment "a4" "p1" "d1" "30/08/2025" "cancelled"].

Definition mixed_world : World :=
  disk_with "@MedicalApp:appointments" (JArr mixed_appointments).

(** A world whose registered users text is not JSON. *)
Definition broken_users_world : World :=
  with_disk (<["@MedicalApp:registeredUsers" := "[oops"]> (disk confirmed_world))
    confirmed_world.

(** The appointments of one doctor. *)
Definition doctor_appointments (doctorId : string) (all : list JSValue) : list JSValue :=
  List.filter (of_doctor doctorId) all.

(** [!n.read] *)
Definition unread (n : JSValue) : bool := js_not (prop n "read").

(** The number of notifications of a user in a list that are not read. *)
Definition unread_of (userId : string) (all : list JSValue) : Z :=
  Z.of_nat (length (List.filter unread (List.filter (owned_by userId) all))).

(** [n[k] === s ? { ...n, read: true } : n] *)
Definition mark_where (k s : string) (n : JSValue) : JSValue :=
  if strict_eq_str (prop n k) s then notificationService.as_read n else n.

(** [n.id !== id] *)
Definition other_id (id : string) (n : JSValue) : bool :=
  negb (strict_eq_str (prop n "id") id).

(** The computation never touches the cache of the storage service and, in
    AsyncStorage, at most the entry [key]. *)
Definition writes_only {A} (key : string) (m : M A) : Prop :=
  forall w,
    cache (after m w) = cache w
    /\ forall k, k <> key -> disk (after m w) !! k = disk w !! k.

(** The four functions of the notification service that rewrite the
    list. *)
Inductive Mutator : Type :=
  | Create (notification : JSValue)
  | MarkAsRead (notificationId : string)
  | MarkAllAsRead (userId : string)
  | Delete (notificationId : string).

Definition mutate (m : Mutator) : M unit :=
  match m with
  | Create notification => notificationService.createNotification notification
  | MarkAsRead notificationId => notificationService.markAsRead notificationId
  | MarkAllAsRead userId => notificationService.markAllAsRead userId
  | Delete notificationId => notificationService.deleteNotification notificationId
  end.

(** The notification that [createNotification] appends at clock reading
    [t]. *)
Definition new_notification (notification : JSValue) (t : Z) (stamp : string) : JSValue :=
  JObj (spread (spread_props notification)
          [("id", JStr (Number_toString t));
           ("createdAt", JStr stamp);
           ("read", JBool false)]).

(** The world after the storage service has read the sample notifications,
    which leaves them in its cache. *)
Definition cached_notifications_world : World :=
  after storageService.getNotifications notifications_world.

(** ** services/auth.ts *)

(** [list.find(f)] and [list.some(f)] with a callback that may throw. *)
Fixpoint Array_find {A} (f : A -> M bool) (l : list A) : M (option A) :=
  match l with
  | [] => ret None
  | x :: rest =>
      let* found := f x in
      if found then ret (Some x) else Array_find f rest
  end.

Fixpoint Array_some {A} (f : A -> M bool) (l : list A) : M bool :=
  match l with
  | [] => ret false
  | x :: rest =>
      let* found := f x in
      if found then ret true else Array_some f rest
  end.

Module authService.

Definition REGISTERED_USERS : string := "@MedicalApp:registeredUsers".

Definition mockDoctors : list JSValue :=
  [JObj [("id", JStr "1"); ("name", JStr "Dr. João Silva");
         ("email", JStr "joao@example.com"); ("role", JStr "doctor");
         ("specialty", JStr "Cardiologia");
         ("image", JStr "https://randomuser.me/api/portraits/men/1.jpg")];
   JObj [("id", JStr "2"); ("name", JStr "Dra. Maria Santos");
         ("email", JStr "maria@example.com"); ("role", JStr "doctor");
         ("specialty", JStr "Pediatria");
         ("image", JStr "https://randomuser.me/api/portraits/women/1.jpg")];
   JObj [("id", JStr "3"); ("name", JStr "Dr. Pedro Oliveira");
         ("email", JStr "pedro@example.com"); ("role", JStr "doctor");
         ("specialty", JStr "Ortopedia");
         ("image", JStr "https://randomuser.me/api/portraits/men/2.jpg")]].

Definition mockAdmin : JSValue :=
  JObj [("id", JStr "admin"); ("name", JStr "Administrador");
        ("email", JStr "admin@example.com"); ("role", JStr "admin");
        ("image", JStr "https://randomuser.me/api/portraits/men/3.jpg")].

Definition admin_email : string := "admin@example.com".

Record AuthResponse : Type := mkAuthResponse {
  user : JSValue;
  token : string
}.

(** The module variable [registeredUsers] beside the world of the storage. *)
Record App : Type := mkApp {
  registeredUsers : JSValue;
  world : World
}.

(** How a call ends: with a value, with [new Error(message)] thrown by the
    service, or with an error of the language or of AsyncStorage. *)
Inductive Outcome (A : Type) : Type :=
  | Returns (a : A)
  | ThrowsError (message : string)
  | Throws (e : Error).
Arguments Returns {A} a.
Arguments ThrowsError {A} message.
Arguments Throws {A} e.

Definition Auth (A : Type) : Type := App -> Outcome A * App.

Definition auth_ret {A} (a : A) : Auth A := fun s => (Returns a, s).
Definition throw_Error {A} (message : string) : Auth A := fun s => (ThrowsError message, s).
Definition auth_bind {A B} (m : Auth A) (k : A -> Auth B) : Auth B :=
  fun s =>
    match m s with
    | (Returns a, s') => k a s'
    | (ThrowsError message, s') => (ThrowsError message, s')
    | (Throws e, s') => (Throws e, s')
    end.

Notation "'let+' x ':=' c 'in' k" := (auth_bind c (fun x => k))
  (at level 10, x name, c at level 100, k at level 200).

(** A computation that only needs the world. *)
Definition lift {A} (m : M A) : Auth A :=
  fun s =>
    match m (world s) with
    | (Ok a, w') => (Returns a, mkApp (registeredUsers s) w')
    | (Throw e, w') => (Throws e, mkApp (registeredUsers s) w')
    end.

Definition read_registeredUsers : Auth JSValue :=
  fun s => (Returns (registeredUsers s), s).
Definition assign_registeredUsers (v : JSValue) : Auth unit :=
  fun s => (Returns tt, mkApp v (world s)).

(** [u => u.email === email] *)
Definition has_email (email : string) (u : JSValue) : M bool :=
  let* e := get_prop u "email" in ret (strict_eq_str e email).

(** [const { password, ...patientWithoutPassword } = patient] *)
Definition without_password (patient : JSValue) : JSValue :=
  JObj (List.filter (fun kv => negb (String.eqb (fst kv) "password"))
          (spread_props patient)).

Definition signIn (email password : string) : Auth AuthResponse :=
  if String.eqb email admin_email && String.eqb password "123456" then
    auth_ret {| user := mockAdmin; token := "admin-token" |}
  else
    let+ doctor :=
      lift (Array_find
              (fun d =>
                 let* e := get_prop d "email" in
                 ret (strict_eq_str e email && String.eqb password "123456"))
              mockDoctors) in
    match doctor with
    | Some d =>
        let+ id := lift (let* i := get_prop d "id" in ToString i) in
        auth_ret {| user := d; token := "doctor-token-" +:+ id |}
    | None =>
        let+ users := read_registeredUsers in
        let+ items := lift (as_array users) in
        let+ patient := lift (Array_find (has_email email) items) in
        match patient with
        | Some p =>
            if truthy p then
              let+ stored := lift (get_prop p "password") in
              if strict_eq_str stored password then
                let+ id := lift (let* i := get_prop p "id" in ToString i) in
                auth_ret {| user := without_password p;
                            token := "patient-token-" +:+ id |}
              else throw_Error "Email ou senha inválidos"
            else throw_Error "Email ou senha inválidos"
        | None => throw_Error "Email ou senha inválidos"
        end
    end.

(** [registeredUsers.length % 2 === 0 ? 'men' : 'women'] *)
Definition portrait (n : Z) : string :=
  if n mod 2 =? 0 then "men" else "women".

Definition newPatient (n : Z) (name email password : string) : JSValue :=
  JObj [("id", JStr ("patient-" +:+ Number_toString (n + 1)));
        ("name", JStr name);
        ("email", JStr email);
        ("role", JStr "patient");
        ("image", JStr ("https://randomuser.me/api/portraits/" +:+ portrait n +:+ "/"
                        +:+ Number_toString (n + 1) +:+ ".jpg"));
        ("password", JStr password)].

(** The three alternatives of the [||] are tried in order and the
    registered users are looked at last. *)
Definition email_in_use (email : string) : Auth bool :=
  let+ doctor := lift (Array_some (has_email email) mockDoctors) in
  if doctor then auth_ret true
  else if String.eqb admin_email email then auth_ret true
  else
    let+ users := read_registeredUsers in
    let+ items := lift (as_array users) in
    lift (Array_some (has_email email) items).

Definition register (name email password : string) : Auth AuthResponse :=
  let+ taken := email_in_use email in
  if taken then throw_Error "Email já está em uso"
  else
    let+ users := read_registeredUsers in
    let+ items := lift (as_array users) in
    let patient := newPatient (Z.of_nat (length items)) name email password in
    let+ pushed := lift (Array_push users patient) in
    let+ _ := assign_registeredUsers pushed in
    let+ text := lift (JSON_stringify pushed) in
    let+ _ := lift (AsyncStorage.setItem REGISTERED_USERS text) in
    let+ id := lift (let* i := get_prop patient "id" in ToString i) in
    auth_ret {| user := without_password patient;
                token := "patient-token-" +:+ id |}.

(** The assignment cannot throw, so it is written after the [try]: the
    [try] gives the parsed list, or nothing when there is no text or an
    error was logged. *)
Definition loadRegisteredUsers : Auth unit :=
  let+ loaded :=
    lift (try_catch
            (let* usersJson := AsyncStorage.getItem REGISTERED_USERS in
             match stored_text usersJson with
             | Some text => let* parsed := JSON_parse text in ret (Some parsed)
             | None => ret None
             end)
            (fun error =>
               let* _ := console_error "Erro ao carregar usuários registrados:" error in
               ret None)) in
  match loaded with
  | Some parsed => assign_registeredUsers parsed
  | None => auth_ret tt
  end.

Definition getPatients : Auth JSValue := read_registeredUsers.

End authService.

(** The app as it starts: no patient in memory. *)
Definition started (w : World) : authService.App :=
  authService.mkApp (JArr []) w.

(** The patient that [register] adds to a list of [n] patients. *)
Definition registered (n : nat) (name email password : string) : JSValue :=
  authService.newPatient (Z.of_nat n) name email password.

(** No mock user and no patient of the list has the e-mail. *)
Definition email_free (email : string) (items : list JSValue) : Prop :=
  email <> authService.admin_email
  /\ Forall (fun u => strict_eq_str (prop u "email") email = false)
       (authService.mockDoctors ++ items).

Definition sample_patients : list JSValue :=
  [registered 0 "Ana" "ana@example.com" "segredo"].

Definition sample_app : authService.App :=
  authService.mkApp (JArr sample_patients) fresh_world.

(** The computation leaves the world exactly as it found it. *)
Definition stateless {A} (m : M A) : Prop := forall w, after m w = w.

(** The times that [toISOString] writes with a year of four digits, from
    0000-01-01T00:00:00.000Z to 9999-12-31T23:59:59.999Z. *)
Definition plain_time (t : Z) : bool :=
  (-62167219200000 <=? t) && (t <=? 253402300799999).

(** The notification says that it was created at [t]: its [createdAt] is
    the text that [toISOString] writes for [t]. *)
Definition stamped (t : Z) (n : JSValue) : bool :=
  plain_time t
  && match Date.toISOString t with
     | Some s => strict_eq_str (prop n "createdAt") s
     | None => false
     end.

(** [a] may stand before [b] in a list that is newest first: whatever
    times the two say they were created at, that of [b] is not the later
    one. *)
Definition newer_first (a b : JSValue) : Prop :=
  forall ta tb, stamped ta a = true -> stamped tb b = true -> tb <= ta.

(** The specialty of the appointment can be the key of a property. *)
Definition keyable (a : JSValue) : bool :=
  match prop a "specialty" with
  | Some v =>
      match ToString_value v with
      | Some _ => true
      | None => false
      end
  | None => true
  end.

(** The texts on which the parser of the model is the one of the
    language: a text that is JSON has a value here. *)
Definition within_model (text : string) : Prop :=
  JSON.valid text = true -> is_Some (JSON.parse text).

(** What is stored under the key is not JSON. *)
Definition stored_garbage (key : string) (w : World) : Prop :=
  exists text, stored_text (disk w !! key) = Some text /\ JSON.valid text = false.

(** A world where the cache and AsyncStorage disagree, reached through
    the service alone: one appointment is stored; [addAppointment] of a
    second one reads the list, which caches it, pushes onto the cached
    array and has its write rejected. *)
Definition stale_appointments_world : World :=
  after (storageService.addAppointment (appointment "a2" "p2" "d1" "02/09/2025" "pending"))
    (with_faults [false; true]
       (disk_with "@MedicalApp:appointments"
          (JArr [appointment "a1" "p1" "d1" "21/08/2025" "confirmed"]))).

Definition is_array (v : JSValue) : bool :=
  match v with
  | JArr _ => true
  | _ => false
  end.

(** What is stored under the key is JSON, but no array. *)
Definition stored_no_array (key : string) (w : World) : Prop :=
  exists v, stored_value key w = Some v /\ is_array v = false.

(** The stored text under the key, when there is one, is a text on which
    the parser of the model is the one of the language. *)
Definition stored_within_model (key : string) (w : World) : Prop :=
  forall text, stored_text (disk w !! key) = Some text -> within_model text.

(** A world whose one appointment has a specialty that cannot be a
    property key: the object [{"toString": 1}]. *)
Definition unkeyable_world : World :=
  disk_with "@MedicalApp:appointments"
    (JArr [JObj [("id", JStr "a1"); ("patientId", JStr "p1"); ("doctorId", JStr "d1");
                 ("date", JStr "21/08/2025"); ("status", JStr "confirmed");
                 ("specialty", JObj [("toString", JNum 1)])]]).

(** The [createdAt] of a notification is something a Date can be made of
    without a TypeError: any primitive, or an object or array that
    [toString] can print. *)
Definition datable (n : JSValue) : bool :=
  match prop n "createdAt" with
  | Some v => match ToString_value v with Some _ => true | None => false end
  | None => true
  end.

(** A world with two notifications of one user, unread both, the second
    with a [createdAt] that no Date can be made of. *)
Definition undatable_world : World :=
  disk_with "@MedicalApp:notifications"
    (JArr [notification "n1" "u1" "2025-08-21T14:30:00.000Z";
           JObj [("id", JStr "n2"); ("userId", JStr "u1");
                 ("createdAt", JObj [("toString", JNum 1)]); ("read", JBool false)]]).

(** * Properties *)

(** ** The generic storage service *)

Lemma with_cache_id w : with_cache (cache w) w = w.
Proof. by destruct w. Qed.

(** What [setItem] does, in one equation. *)
Lemma setItem_eq key value ttl w :
  storageService.setItem key value ttl w =
  match JSON.stringify value with
  | None =>
      (Throw TypeError, log (ConsoleError ("Erro ao salvar " +:+ key +:+ ":") TypeError) w)
  | Some text =>
      if rejects w
      then (Throw StorageFailure,
            log (ConsoleError ("Erro ao salvar " +:+ key +:+ ":") StorageFailure) (next_call w))
      else (Ok tt,
            with_cache
              (<[key := {| data := value; timestamp := clock w;
                           expiry := storageService.expiry_of ttl (clock w) |}]> (cache w))
              (with_disk (<[key := text]> (disk w)) (next_call w)))
  end.
Proof.
  unfold storageService.setItem, try_catch, bind, JSON_stringify, of_option.
  destruct (JSON.stringify value) as [text|]; simpl; [|done].
  unfold AsyncStorage.setItem, AsyncStorage.call. by destruct (rejects w).
Qed.

Lemma cache_lookup_eq key w :
  storageService.cache_lookup key w =
  match cache_hit key w with
  | Some v => (Ok (Some v), w)
  | None => (Ok None, evicted key w)
  end.
Proof.
  unfold storageService.cache_lookup, cache_hit, evicted, bind, cache_get; simpl.
  destruct (cache w !! key) as [c|] eqn:Hc.
  - unfold Date_now. by destruct (storageService.still_valid c (clock w)).
  - by rewrite delete_id, with_cache_id.
Qed.

(** What [getItem] does, in one equation. *)
Lemma getItem_eq key d w :
  storageService.getItem key d w =
  match cache_hit key w with
  | Some v => (Ok v, w)
  | None =>
      let w1 := next_call (evicted key w) in
      let msg := "Erro ao carregar " +:+ key +:+ ":" in
      if rejects w
      then (Ok (js_or d JNull), log (ConsoleError msg StorageFailure) w1)
      else
        match stored_text (disk w !! key) with
        | Some text =>
            match JSON.parse text with
            | Some v =>
                (Ok v,
                 with_cache
                   (<[key := {| data := v; timestamp := clock w; expiry := None |}]>
                      (cache w1)) w1)
            | None => (Ok (js_or d JNull), log (ConsoleError msg SyntaxError) w1)
            end
        | None => (Ok (js_or d JNull), w1)
        end
  end.
Proof.
  unfold storageService.getItem, try_catch, bind. rewrite cache_lookup_eq.
  destruct (cache_hit key w) as [v|]; [done|].
  unfold AsyncStorage.getItem, AsyncStorage.call.
  change (rejects (evicted key w)) with (rejects w).
  destruct (rejects w); [done|]. simpl.
  destruct (stored_text (disk w !! key)) as [text|]; [|done].
  unfold JSON_parse, of_option. by destruct (JSON.parse text).
Qed.

Lemma setItem_ok_inv key value ttl w w1 :
  storageService.setItem key value ttl w = (Ok tt, w1) ->
  exists text,
    JSON.stringify value = Some text /\ rejects w = false /\
    w1 = with_cache
           (<[key := {| data := value; timestamp := clock w;
                        expiry := storageService.expiry_of ttl (clock w) |}]> (cache w))
           (with_disk (<[key := text]> (disk w)) (next_call w)).
Proof.
  rewrite setItem_eq. destruct (JSON.stringify value) as [text|]; [|done].
  destruct (rejects w); [done|]. intros [= <-]. by exists text.
Qed.

Lemma setItem_throw_inv key value ttl w e w1 :
  storageService.setItem key value ttl w = (Throw e, w1) ->
  cache w1 = cache w /\ disk w1 = disk w /\ clock w1 = clock w /\
  (JSON.stringify value = None \/ rejects w = true).
Proof.
  rewrite setItem_eq. destruct (JSON.stringify value) as [text|].
  - destruct (rejects w); [|done]. intros [= <- <-]. auto.
  - intros [= <- <-]. auto.
Qed.

(** [getItem] reads nothing of the world but the clock, the head of the
    script, and what the cache and the store hold for its key. *)
Lemma getItem_result_local key d w w' :
  clock w' = clock w -> rejects w' = rejects w ->
  cache w' !! key = cache w !! key -> disk w' !! key = disk w !! key ->
  fst (storageService.getItem key d w') = fst (storageService.getItem key d w).
Proof.
  intros Hclock Hrej Hcache Hdisk. rewrite !getItem_eq.
  unfold cache_hit. rewrite Hcache, Hclock, Hrej, Hdisk.
  destruct (cache w !! key) as [c|]; simpl.
  - destruct (storageService.still_valid c (clock w)); [done|].
    destruct (rejects w); [done|].
    destruct (stored_text (disk w !! key)) as [text|]; [|done].
    by destruct (JSON.parse text).
  - destruct (rejects w); [done|].
    destruct (stored_text (disk w !! key)) as [text|]; [|done].
    by destruct (JSON.parse text).
Qed.

(** [getItem] returns: no outcome of it is a throw. *)
Lemma getItem_never_throws key d w :
  exists v w', storageService.getItem key d w = (Ok v, w').
Proof.
  rewrite getItem_eq. destruct (cache_hit key w) as [v|]; [by eauto|]. simpl.
  destruct (rejects w); [by eauto|].
  destruct (stored_text (disk w !! key)) as [text|]; [|by eauto].
  destruct (JSON.parse text); by eauto.
Qed.

(** On a rejected read or on text that does not parse, with no valid cache
    entry, [getItem] returns [defaultValue || null]. *)
Lemma getItem_on_error key d w :
  cache_hit key w = None ->
  rejects w = true
  \/ (exists text, stored_text (disk w !! key) = Some text /\ JSON.parse text = None) ->
  fst (storageService.getItem key d w) = Ok (js_or d JNull).
Proof.
  intros Hmiss Herr. rewrite getItem_eq, Hmiss. simpl.
  destruct (rejects w); [done|].
  destruct Herr as [|(text & -> & ->)]; done.
Qed.

(** A key that is in neither the cache nor the store reads as
    [defaultValue || null]. *)
Lemma getItem_absent key d w :
  cache w !! key = None -> disk w !! key = None ->
  fst (storageService.getItem key d w) = Ok (js_or d JNull).
Proof.
  intros Hc Hd. rewrite getItem_eq. unfold cache_hit. rewrite Hc, Hd. simpl.
  by destruct (rejects w).
Qed.

Lemma removeItem_ok_inv key w w1 :
  storageService.removeItem key w = (Ok tt, w1) ->
  cache w1 !! key = None /\ disk w1 !! key = None.
Proof.
  unfold storageService.removeItem, try_catch, bind, AsyncStorage.removeItem,
    AsyncStorage.call.
  destruct (rejects w); simpl; [done|].
  intros [= <-]. simpl. by rewrite !lookup_delete_eq.
Qed.

(** An entry without expiry answers for its key, at any clock reading and
    whatever AsyncStorage would do. *)
Lemma getItem_cached key d w c :
  cache w !! key = Some c -> expiry c = None ->
  storageService.getItem key d w = (Ok (data c), w).
Proof.
  intros Hc He. rewrite getItem_eq. unfold cache_hit, storageService.still_valid.
  by rewrite Hc, He.
Qed.

(** C2: when [setItem(K, V)] without a TTL has succeeded, [getItem(K)]
    returns [V] itself, from the cache and without touching the world,
    whatever the default, the clock reading and the state of the store. *)
Theorem setItem_getItem_round_trip key value d w w1 t fs :
  storageService.setItem key value None w = (Ok tt, w1) ->
  storageService.getItem key d (with_faults fs (with_clock t w1))
  = (Ok value, with_faults fs (with_clock t w1)).
Proof.
  intros Hset. apply setItem_ok_inv in Hset as (text & _ & _ & ->).
  apply (getItem_cached key d _ {| data := value; timestamp := clock w; expiry := None |});
    [|done].
  simpl. apply lookup_insert_eq.
Qed.

Lemma setItem_getItem_round_trip_witness :
  storageService.setItem "k" (JNum 7) None fresh_world = (Ok tt, world_with_k)
  /\ storageService.getItem "k" None (with_faults [true] (with_clock 5 world_with_k))
     = (Ok (JNum 7), with_faults [true] (with_clock 5 world_with_k)).
Proof.
  assert (storageService.setItem "k" (JNum 7) None fresh_world = (Ok tt, world_with_k)) as H.
  { vm_compute. reflexivity. }
  split; [exact H|].
  exact (setItem_getItem_round_trip "k" (JNum 7) None fresh_world world_with_k 5 [true] H).
Defined.

(** C10: when [setItem(K, V)] fails, because [V] does not serialize or
    because AsyncStorage rejects the write, the error reaches the caller,
    the cache and the store are as before, and a later [getItem(K)] returns
    what it would have returned without the failed call. *)
Theorem setItem_failure_leaves_cache key value ttl w :
  JSON.stringify value = None \/ rejects w = true ->
  exists e w1,
    storageService.setItem key value ttl w = (Throw e, w1)
    /\ cache w1 = cache w /\ disk w1 = disk w
    /\ forall d t fs,
         result (storageService.getItem key d) (with_faults fs (with_clock t w1))
         = result (storageService.getItem key d) (with_faults fs (with_clock t w)).
Proof.
  intros Hfail.
  assert (exists e w1, storageService.setItem key value ttl w = (Throw e, w1))
    as (e & w1 & Hrun).
  { rewrite setItem_eq. destruct (JSON.stringify value) as [text|]; [|by eauto].
    destruct Hfail as [Hs|Hr]; [done|rewrite Hr; by eauto]. }
  exists e, w1. split; [done|].
  apply setItem_throw_inv in Hrun as (Hc & Hd & _ & _).
  repeat split; [done..|].
  intros d t fs.
  apply getItem_result_local; simpl; [done|done|by rewrite Hc|by rewrite Hd].
Qed.

Lemma setItem_failure_leaves_cache_witness :
  (JSON.stringify (JArr [JBigInt 1]) = None \/ rejects world_with_k = true)
  /\ exists e w1,
       storageService.setItem "k" (JArr [JBigInt 1]) None world_with_k = (Throw e, w1)
       /\ cache w1 = cache world_with_k /\ disk w1 = disk world_with_k
       /\ forall d t fs,
            result (storageService.getItem "k" d) (with_faults fs (with_clock t w1))
            = result (storageService.getItem "k" d)
                (with_faults fs (with_clock t world_with_k)).
Proof.
  assert (JSON.stringify (JArr [JBigInt 1]) = None \/ rejects world_with_k = true) as H.
  { left. vm_compute. reflexivity. }
  split; [exact H|].
  exact (setItem_failure_leaves_cache "k" (JArr [JBigInt 1]) None world_with_k H).
Defined.

(** The only ways [setItem] fails are the two above, and every failure is
    a throw to the caller. *)
Lemma setItem_outcomes key value ttl w :
  (exists w1, storageService.setItem key value ttl w = (Ok tt, w1))
  \/ (exists e w1, storageService.setItem key value ttl w = (Throw e, w1)
      /\ (JSON.stringify value = None \/ rejects w = true)).
Proof.
  rewrite setItem_eq. destruct (JSON.stringify value) as [text|].
  - destruct (rejects w); [right|left]; eauto 6.
  - right. eauto 6.
Qed.

(** C3, at the failing input: with the default [0] supplied, a rejected read
    and a stored text that does not parse both make [getItem] return
    [null] and not the default; it does not throw, and [setItem] on the same
    failing store does. *)
Theorem getItem_error_drops_falsy_default :
  result (storageService.getItem "k" (Some (JNum 0))) (with_faults [true] fresh_world)
  = Ok JNull
  /\ result (storageService.getItem "k" (Some (JNum 0)))
       (with_disk (<["k" := "{"]> ∅) fresh_world)
     = Ok JNull
  /\ result (storageService.setItem "k" (JNum 0) None) (with_faults [true] fresh_world)
     = Throw StorageFailure.
Proof. vm_compute. done. Qed.

(** After a successful [removeItem(K)], [getItem(K, D)] returns [D || null]. *)
Lemma removeItem_then_getItem key d w w1 t fs :
  storageService.removeItem key w = (Ok tt, w1) ->
  result (storageService.getItem key d) (with_faults fs (with_clock t w1))
  = Ok (js_or d JNull).
Proof.
  intros Hrm. apply removeItem_ok_inv in Hrm as [Hc Hd].
  by apply getItem_absent.
Qed.

(** C4, at the failing input: after [removeItem("k")] has removed a stored
    key, [getItem("k", 0)] and [getItem("k", false)] return [null]; the
    empty list does come back. *)
Theorem removeItem_getItem_drops_falsy_default :
  result (storageService.removeItem "k") world_with_k = Ok tt
  /\ result (storageService.getItem "k" (Some (JNum 0)))
       (after (storageService.removeItem "k") world_with_k) = Ok JNull
  /\ result (storageService.getItem "k" (Some (JBool false)))
       (after (storageService.removeItem "k") world_with_k) = Ok JNull
  /\ result (storageService.getItem "k" (Some (JArr [])))
       (after (storageService.removeItem "k") world_with_k) = Ok (JArr []).
Proof. vm_compute. done. Qed.

(** A supplied default that is truthy, or no default at all, does come back
    after [removeItem]. *)
Lemma removeItem_then_getItem_truthy key d w w1 t fs :
  storageService.removeItem key w = (Ok tt, w1) ->
  (forall v, d = Some v -> truthy v = true) ->
  result (storageService.getItem key d) (with_faults fs (with_clock t w1))
  = Ok (default_or_absent d).
Proof.
  intros Hrm Hd. rewrite (removeItem_then_getItem _ _ _ _ _ _ Hrm).
  destruct d as [v|]; [|done]. simpl. by rewrite (Hd v eq_refl).
Qed.

(** ** Sorting *)

Section sort_facts.
Context {A : Type} (comparefn : A -> A -> option Z).

Lemma sort_insert_perm x l : sort_insert comparefn x l ≡ₚ x :: l.
Proof.
  induction l as [|y l IH]; simpl; [done|].
  destruct (strictly_before comparefn y x); [|done].
  rewrite IH. apply Permutation_swap.
Qed.

(** Whatever the comparator, sorting rearranges and nothing more. *)
Lemma Array_sort_perm l : Array_sort comparefn l ≡ₚ l.
Proof.
  induction l as [|x l IH]; simpl; [done|].
  by rewrite sort_insert_perm, IH.
Qed.

(** An element only moves behind elements that the comparator puts
    strictly before it: a test that rejects those sees the same
    subsequence before and after the insertion. *)
Lemma sort_insert_filter (p : A -> bool) x l :
  (forall y, strictly_before comparefn y x = true -> p x = true -> p y = false) ->
  List.filter p (sort_insert comparefn x l) = List.filter p (x :: l).
Proof.
  intros Hp. induction l as [|y l IH]; [done|].
  simpl in *. destruct (strictly_before comparefn y x) eqn:Hyx; [|done].
  simpl. rewrite IH. destruct (p x) eqn:Hx; [|done].
  by rewrite (Hp y Hyx eq_refl).
Qed.
End sort_facts.

Lemma newest_first_before a b :
  strictly_before notificationService.newest_first a b = true ->
  exists ta tb, notificationService.created a = Some ta
                /\ notificationService.created b = Some tb /\ tb < ta.
Proof.
  unfold strictly_before, notificationService.newest_first.
  destruct (notificationService.created b) as [tb|]; [|done].
  destruct (notificationService.created a) as [ta|]; [|done].
  intros H. exists ta, tb. repeat split. lia.
Qed.

Lemma newest_first_not_before a b ta tb :
  notificationService.created a = Some ta -> notificationService.created b = Some tb ->
  strictly_before notificationService.newest_first a b = false -> ta <= tb.
Proof.
  unfold strictly_before, notificationService.newest_first. intros -> ->. lia.
Qed.

Lemma not_older_trans a b c : not_older a b -> not_older b c -> not_older a c.
Proof.
  unfold not_older.
  destruct (notificationService.created a), (notificationService.created b),
    (notificationService.created c); try done. lia.
Qed.

Lemma sort_insert_sorted x l :
  is_Some (notificationService.created x) ->
  Forall (fun n => is_Some (notificationService.created n)) l ->
  StronglySorted not_older l ->
  StronglySorted not_older (sort_insert notificationService.newest_first x l).
Proof.
  intros [tx Hx] Hall Hsorted.
  induction Hsorted as [|y l Hl IH Hy]; simpl.
  - repeat constructor.
  - apply Forall_cons in Hall as [[ty Hty] Hall].
    destruct (strictly_before _ y x) eqn:Hyx.
    + constructor; [by apply IH|].
      rewrite sort_insert_perm. constructor; [|done].
      apply newest_first_before in Hyx as (ta & tb & Ha & Hb & Hlt).
      unfold not_older. rewrite Ha, Hb. lia.
    + assert (not_older x y) as Hxy.
      { unfold not_older. rewrite Hx, Hty.
        by apply (newest_first_not_before y x). }
      constructor; [by constructor|].
      constructor; [done|].
      eapply Forall_impl; [exact Hy|].
      intros z Hz. by apply (not_older_trans x y z).
Qed.

Lemma Array_sort_sorted l :
  Forall (fun n => is_Some (notificationService.created n)) l ->
  StronglySorted not_older (Array_sort notificationService.newest_first l).
Proof.
  induction l as [|x l IH]; simpl; intros Hall; [constructor|].
  apply Forall_cons in Hall as [Hx Hall].
  apply sort_insert_sorted; [done| |by apply IH].
  by rewrite Array_sort_perm.
Qed.

(** Notifications created at the same time keep their order. *)
Lemma Array_sort_stable t l :
  List.filter (created_at t) (Array_sort notificationService.newest_first l)
  = List.filter (created_at t) l.
Proof.
  induction l as [|x l IH]; [done|]. simpl Array_sort.
  rewrite sort_insert_filter.
  - simpl. by rewrite IH.
  - intros y Hyx. apply newest_first_before in Hyx as (ta & tb & Ha & Hb & Hlt).
    unfold created_at. rewrite Ha, Hb. lia.
Qed.

Lemma created_at_iff t n :
  created_at t n = true <-> notificationService.created n = Some t.
Proof.
  unfold created_at. destruct (notificationService.created n) as [t'|]; [|done].
  rewrite Z.eqb_eq. split; congruence.
Qed.

Lemma sorted_head_newest x l y tx ty :
  StronglySorted not_older (x :: l) -> In y (x :: l) ->
  notificationService.created x = Some tx -> notificationService.created y = Some ty ->
  ty <= tx.
Proof.
  intros Hs Hin Hx Hy. apply StronglySorted_inv in Hs as [_ Hall].
  destruct Hin as [->|Hin].
  - assert (tx = ty) by congruence. lia.
  - rewrite List.Forall_forall in Hall. specialize (Hall y Hin).
    unfold not_older in Hall. by rewrite Hx, Hy in Hall.
Qed.

(** A list that is newest first and keeps the order of equal times is
    determined: every stable sort returns what [Array_sort] returns. *)
Lemma stable_sorted_unique (r1 r2 : list JSValue) :
  Forall (fun n => is_Some (notificationService.created n)) r1 ->
  Forall (fun n => is_Some (notificationService.created n)) r2 ->
  StronglySorted not_older r1 -> StronglySorted not_older r2 ->
  (forall t, List.filter (created_at t) r1 = List.filter (created_at t) r2) ->
  r1 = r2.
Proof.
  intros Hall1. revert r2.
  induction Hall1 as [|x r1 [tx Hx] Hall1 IH]; intros r2 Hall2 H1 H2 Hsame.
  - destruct Hall2 as [|y r2 [ty Hy] _]; [done|].
    specialize (Hsame ty). simpl in Hsame.
    by rewrite (proj2 (created_at_iff ty y) Hy) in Hsame.
  - destruct Hall2 as [|y r2 [ty Hy] Hall2].
    { specialize (Hsame tx). simpl in Hsame.
      by rewrite (proj2 (created_at_iff tx x) Hx) in Hsame. }
    assert (tx <= ty) as Hle1.
    { apply (sorted_head_newest y r2 x ty tx H2); [|done..].
      apply (List.filter_In (created_at tx)). rewrite <- Hsame. simpl.
      rewrite (proj2 (created_at_iff tx x) Hx). by left. }
    assert (ty <= tx) as Hle2.
    { apply (sorted_head_newest x r1 y tx ty H1); [|done..].
      apply (List.filter_In (created_at ty)). rewrite Hsame. simpl.
      rewrite (proj2 (created_at_iff ty y) Hy). by left. }
    assert (ty = tx) as -> by lia.
    pose proof (Hsame tx) as Htx. simpl in Htx.
    rewrite (proj2 (created_at_iff tx x) Hx), (proj2 (created_at_iff tx y) Hy) in Htx.
    injection Htx as -> Htail. f_equal.
    apply StronglySorted_inv in H1 as [H1 _]. apply StronglySorted_inv in H2 as [H2 _].
    apply IH; [done..|].
    intros t. destruct (decide (t = tx)) as [->|Hne]; [done|].
    specialize (Hsame t). simpl in Hsame.
    destruct (created_at t y) eqn:E; [|done].
    apply created_at_iff in E. congruence.
Qed.

(** ** Reading collections *)

Lemma get_prop_not_null v k w : v <> JNull -> get_prop v k w = (Ok (prop v k), w).
Proof. by destruct v. Qed.

Lemma Array_filter_prop k s items w :
  Forall (fun n => n <> JNull) items ->
  Array_filter (fun n => let* x := get_prop n k in ret (strict_eq_str x s)) items w
  = (Ok (List.filter (fun n => strict_eq_str (prop n k) s) items), w).
Proof.
  induction 1 as [|n items Hn _ IH]; [done|].
  simpl. unfold bind in *. rewrite (get_prop_not_null n k w Hn). simpl.
  by rewrite IH.
Qed.

Lemma Array_map_prop k items w :
  Forall (fun n => n <> JNull) items ->
  Array_map (fun n => get_prop n k) items w = (Ok (map (fun n => prop n k) items), w).
Proof.
  induction 1 as [|n items Hn _ IH]; [done|].
  simpl. unfold bind in *. rewrite (get_prop_not_null n k w Hn). by rewrite IH.
Qed.

(** A read of AsyncStorage that is not rejected. *)
Lemma AsyncStorage_getItem_ok key w :
  rejects w = false -> AsyncStorage.getItem key w = (Ok (disk w !! key), next_call w).
Proof. intros H. unfold AsyncStorage.getItem, AsyncStorage.call. by rewrite H. Qed.

Lemma stored_value_parse key w v w' :
  stored_value key w = Some v ->
  match stored_text (disk w !! key) with
  | Some text => JSON_parse text
  | None => ret (JArr [])
  end w' = (Ok v, w').
Proof.
  unfold stored_value, JSON_parse, of_option.
  destruct (stored_text (disk w !! key)) as [text|]; [|by intros [= <-]].
  by intros ->.
Qed.

Lemma stored_array_value key w items :
  stored_array key w = Some items -> stored_value key w = Some (JArr items).
Proof.
  unfold stored_array. destruct (stored_value key w) as [[]|]; try done.
  by intros [= <-].
Qed.

(** ** Dates *)

(** The calendar date of a day number is a date of the calendar, and the
    one that has this day number. *)
Lemma civil_from_days_inverse z y m d :
  Date.civil_from_days z = (y, m, d) ->
  1 <= m <= 12 /\ 1 <= d <= Date.days_in_month y m /\ Date.days_from_civil y m d = z.
Proof.
  unfold Date.civil_from_days. cbv zeta.
  set (z' := z + 719468).
  set (era := z' / 146097).
  set (doe := z' - era * 146097).
  set (yoe := (doe - doe / 1460 + doe / 36524 - doe / 146096) / 365).
  set (doy := doe - (365 * yoe + yoe / 4 - yoe / 100)).
  set (mp := (5 * doy + 2) / 153).
  assert (0 <= doe < 146097) as Hdoe by (subst doe era; Z.div_mod_to_equations; lia).
  assert (0 <= yoe <= 399 /\ 0 <= doy <= 365
          /\ (doy = 365 -> (yoe + 1) mod 4 = 0 /\ ((yoe + 1) mod 100 <> 0 \/ yoe = 399)))
    as (Hyoe & Hdoy & Hleap).
  { subst doy yoe. clearbody doe. clear -Hdoe. Z.div_mod_to_equations. lia. }
  assert (0 <= mp <= 11 /\ 153 * mp <= 5 * doy + 2 < 153 * (mp + 1)) as [Hmp Hmonth]
    by (subst mp; clearbody doy; Z.div_mod_to_equations; lia).
  assert (doe = yoe * 365 + yoe / 4 - yoe / 100 + doy) as Hdoe' by (subst doy; lia).
  assert (z = era * 146097 + doe - 719468) as Hz by (subst doe z'; lia).
  assert ((yoe + era * 400) / 400 = era) as Hera.
  { clear -Hyoe. Z.div_mod_to_equations. lia. }
  clearbody mp doy yoe doe era. clear z'.
  intros [= <- <- <-].
  assert (1 <= (if mp <? 10 then mp + 3 else mp - 9) <= 12) as Hm
    by (destruct (mp <? 10) eqn:E; lia).
  split; [done|]. split.
  - clear Hz Hdoe' Hera Hdoe Hm.
    assert (mp = 0 \/ mp = 1 \/ mp = 2 \/ mp = 3 \/ mp = 4 \/ mp = 5 \/ mp = 6
            \/ mp = 7 \/ mp = 8 \/ mp = 9 \/ mp = 10 \/ mp = 11) as Hc by lia.
    unfold Date.days_in_month.
    destruct Hc as [->|[->|[->|[->|[->|[->|[->|[->|[->|[->|[->| ->]]]]]]]]]]];
      try (simpl; Z.div_mod_to_equations; lia).
    unfold Date.is_leap. change (11 <? 10) with false. cbv iota.
    change (11 - 9) with 2. change (2 =? 2) with true. change (2 <=? 2) with true.
    cbv iota.
    assert ((153 * 11 + 2) / 5 = 337) as -> by reflexivity.
    destruct (Z.eq_dec doy 365) as [H365|H365].
    + destruct (Hleap H365) as [H4 H100].
      assert ((yoe + era * 400 + 1) mod 4 = 0) as -> by (Z.div_mod_to_equations; lia).
      change (0 =? 0) with true. cbv iota beta delta [andb].
      destruct (Z.eqb_spec ((yoe + era * 400 + 1) mod 100) 0) as [E100|E100]; simpl.
      * assert ((yoe + era * 400 + 1) mod 400 = 0) as ->
          by (Z.div_mod_to_equations; lia).
        simpl. lia.
      * lia.
    + destruct (_ || _); lia.
  - unfold Date.days_from_civil. cbv zeta.
    destruct (mp <? 10) eqn:E.
    + apply Z.ltb_lt in E.
      rewrite !(proj2 (Z.leb_gt (mp + 3) 2)) by lia.
      rewrite (proj2 (Z.ltb_lt 2 (mp + 3))) by lia.
      rewrite Hera. replace (mp + 3 - 3) with mp by lia.
      replace (yoe + era * 400 - era * 400) with yoe by lia. lia.
    + apply Z.ltb_ge in E.
      rewrite !(proj2 (Z.leb_le (mp - 9) 2)) by lia.
      rewrite (proj2 (Z.ltb_ge 2 (mp - 9))) by lia.
      replace (yoe + era * 400 + 1 - 1) with (yoe + era * 400) by lia.
      rewrite Hera. replace (mp - 9 + 9) with mp by lia.
      replace (yoe + era * 400 - era * 400) with yoe by lia. lia.
Qed.

(** The days from 0000-01-01 to 9999-12-31 have a year of four digits. *)
Lemma civil_year_range z y m d :
  -719528 <= z <= 2932896 ->
  Date.civil_from_days z = (y, m, d) -> 0 <= y <= 9999.
Proof.
  intros Hz. unfold Date.civil_from_days. cbv zeta.
  set (z' := z + 719468).
  set (era := z' / 146097).
  set (doe := z' - era * 146097).
  set (yoe := (doe - doe / 1460 + doe / 36524 - doe / 146096) / 365).
  set (doy := doe - (365 * yoe + yoe / 4 - yoe / 100)).
  set (mp := (5 * doy + 2) / 153).
  assert (-1 <= era <= 24) as Hera by (subst era z'; Z.div_mod_to_equations; lia).
  assert (0 <= doe < 146097) as Hdoe by (subst doe era; Z.div_mod_to_equations; lia).
  assert (era = -1 -> 146037 <= doe) as Hlow
    by (subst doe era z'; Z.div_mod_to_equations; lia).
  assert (era = 24 -> doe <= 146036) as Hhigh
    by (subst doe era z'; Z.div_mod_to_equations; lia).
  assert (0 <= yoe <= 399 /\ 0 <= doy <= 365
          /\ (146037 <= doe -> yoe = 399 /\ 306 <= doy)
          /\ (doe <= 146036 -> yoe = 399 -> doy < 306))
    as (Hyoe & Hdoy & Hl & Hh).
  { subst doy yoe. clearbody doe. clear -Hdoe. Z.div_mod_to_equations. lia. }
  assert (0 <= mp <= 11 /\ (306 <= doy -> 10 <= mp) /\ (doy < 306 -> mp < 10))
    as (Hmp & Hmp1 & Hmp2)
    by (subst mp; clearbody doy; Z.div_mod_to_equations; lia).
  clearbody mp doy yoe doe era. intros [= <- _ _].
  destruct (mp <? 10) eqn:E; [apply Z.ltb_lt in E|apply Z.ltb_ge in E].
  - rewrite (proj2 (Z.leb_gt (mp + 3) 2)) by lia. lia.
  - rewrite (proj2 (Z.leb_le (mp - 9) 2)) by lia. lia.
Qed.

Lemma digits_app a b : forall acc s,
  Date.digits (a + b) acc s
  = match Date.digits a acc s with
    | Some (acc', s') => Date.digits b acc' s'
    | None => None
    end.
Proof.
  induction a as [|a IH]; intros acc s; [done|]. simpl.
  destruct s as [|c r]; [done|]. destruct (Date.digit_of c); [apply IH|done].
Qed.

Lemma digit_of_chr v :
  0 <= v <= 9 -> Date.digit_of (JSON.chr (48 + Z.to_nat v)) = Some v.
Proof.
  intros Hv.
  assert (v = 0 \/ v = 1 \/ v = 2 \/ v = 3 \/ v = 4 \/ v = 5 \/ v = 6 \/ v = 7
          \/ v = 8 \/ v = 9) as Hc by lia.
  destruct Hc as [->|[->|[->|[->|[->|[->|[->|[->|[->| ->]]]]]]]]]; reflexivity.
Qed.

(** A number written with [width] digits is read back. *)
Lemma digits_pad width : forall v acc rest,
  0 <= v < 10 ^ Z.of_nat width ->
  Date.digits width acc (Date.pad width v ++ rest)
  = Some (acc * 10 ^ Z.of_nat width + v, rest).
Proof.
  induction width as [|width IH]; intros v acc rest Hv.
  - simpl in *. f_equal. f_equal. lia.
  - replace (S width) with (width + 1)%nat at 1 by lia.
    rewrite digits_app. change (Date.pad (S width) v)
      with (Date.pad width (v / 10) ++ [JSON.chr (48 + Z.to_nat (v mod 10))]).
    rewrite <- app_assoc. rewrite Nat2Z.inj_succ, Z.pow_succ_r in * by lia.
    rewrite IH by (Z.div_mod_to_equations; lia).
    change (Date.digits 1 ?a ([?c] ++ rest))
      with (match Date.digit_of c with
            | Some d => Some (a * 10 + d, rest)
            | None => None
            end).
    rewrite digit_of_chr by (Z.div_mod_to_equations; lia).
    f_equal. f_equal. Z.div_mod_to_equations. lia.
Qed.

(** [Date.parse] reads the text of [toISOString] back as the time it was
    written for. *)
Lemma parse_toISOString t s :
  plain_time t = true -> Date.toISOString t = Some s -> Date.parse s = Some t.
Proof.
  unfold plain_time. intros [Hlo Hhi]%andb_true_iff.
  apply Z.leb_le in Hlo, Hhi.
  unfold Date.toISOString.
  destruct (Date.in_range t); [|done].
  cbv zeta.
  destruct (Date.civil_from_days (t / 86400000)) as [[y m] d] eqn:Hcivil.
  pose proof (civil_from_days_inverse _ _ _ _ Hcivil) as (Hm & Hd & Hdays).
  assert (0 <= y <= 9999) as Hy.
  { apply (civil_year_range (t / 86400000) y m d); [|done].
    Z.div_mod_to_equations. lia. }
  rewrite (proj2 (andb_true_iff _ _) (conj (proj2 (Z.leb_le _ _) (proj1 Hy))
                                           (proj2 (Z.leb_le _ _) (proj2 Hy)))).
  intros Hs. apply (inj Some) in Hs. rewrite <- Hs. clear Hs s. unfold Date.parse.
  rewrite list_ascii_of_string_of_list_ascii.
  assert (Date.days_in_month y m <= 31) as Hdim.
  { unfold Date.days_in_month.
    destruct (m =? 2); [destruct (Date.is_leap y); lia|]. destruct (_ || _); lia. }
  set (rest := t mod 86400000) in *.
  assert (0 <= rest < 86400000) as Hrest by (subst rest; Z.div_mod_to_equations; lia).
  rewrite (digits_pad 4 y 0) by (simpl; lia).
  cbn [Date.expect app]. rewrite Ascii.eqb_refl.
  rewrite (digits_pad 2 m 0) by (simpl; lia).
  cbn [Date.expect app]. rewrite Ascii.eqb_refl.
  rewrite (digits_pad 2 d 0) by (simpl; lia).
  cbn [Date.expect app]. rewrite Ascii.eqb_refl.
  rewrite (digits_pad 2 (rest / 3600000) 0) by (simpl; Z.div_mod_to_equations; lia).
  cbn [Date.expect app]. rewrite Ascii.eqb_refl.
  rewrite (digits_pad 2 (rest / 60000 mod 60) 0) by (simpl; Z.div_mod_to_equations; lia).
  cbn [Date.expect app]. rewrite Ascii.eqb_refl.
  rewrite (digits_pad 2 (rest / 1000 mod 60) 0) by (simpl; Z.div_mod_to_equations; lia).
  cbn [Date.expect app]. rewrite Ascii.eqb_refl.
  rewrite (digits_pad 3 (rest mod 1000) 0) by (simpl; Z.div_mod_to_equations; lia).
  cbn [Date.expect app]. rewrite Ascii.eqb_refl.
  change (0 * 10 ^ Z.of_nat ?n + ?v) with v.
  rewrite !(proj2 (Z.leb_le _ _)) by (Z.div_mod_to_equations; lia).
  cbn [andb]. f_equal. rewrite Hdays. subst rest. Z.div_mod_to_equations. lia.
Qed.

Lemma strict_eq_str_inv x s : strict_eq_str x s = true -> x = Some (JStr s).
Proof.
  destruct x as [[]|]; simpl; try done. by intros ->%String.eqb_eq.
Qed.

(** The comparator reads the time a notification is stamped with. *)
Lemma stamped_created t n :
  stamped t n = true -> notificationService.created n = Some t.
Proof.
  unfold stamped. intros [Hplain Hs]%andb_true_iff.
  destruct (Date.toISOString t) as [s|] eqn:Hiso; [|done].
  apply strict_eq_str_inv in Hs. unfold notificationService.created. rewrite Hs.
  by apply parse_toISOString.
Qed.

Lemma stamped_created_at t t' n :
  stamped t' n = true -> stamped t n = created_at t n.
Proof.
  intros Ht'. pose proof (stamped_created _ _ Ht') as Hc.
  unfold created_at. rewrite Hc.
  destruct (Z.eqb_spec t' t) as [->|Hne]; [done|].
  destruct (stamped t n) eqn:Ht; [|done].
  apply stamped_created in Ht. congruence.
Qed.

Lemma StronglySorted_weaken {A} (R R' : A -> A -> Prop) l :
  (forall a b, In a l -> In b l -> R a b -> R' a b) ->
  StronglySorted R l -> StronglySorted R' l.
Proof.
  intros HR Hs. induction Hs as [|x l Hs IH Hx]; [constructor|].
  constructor.
  - apply IH. intros a b Ha Hb. apply HR; by right.
  - rewrite List.Forall_forall in *. intros y Hy.
    apply HR; [by left|by right|by apply Hx].
Qed.

(** ** Notifications *)

(** A Date can be made of every [createdAt] that has a time. *)
Lemma created_datable n : is_Some (notificationService.created n) -> datable n = true.
Proof.
  unfold notificationService.created, datable, Date.getTime.
  destruct (prop n "createdAt") as [v|]; [|done].
  destruct v as [|b|z|z|s|items|fields]; try done; try (by intros []).
  - by destruct b.
  - destruct items as [|[] []]; try done; by intros [].
Qed.

Lemma stamped_datable t n : stamped t n = true -> datable n = true.
Proof.
  intros Ht. apply created_datable. rewrite (stamped_created _ _ Ht). by eexists.
Qed.

(** The comparator makes its Dates without a TypeError when it can make one
    of every [createdAt]. *)
Lemma new_Date_ok l w :
  Forall (fun n => n <> JNull) l ->
  Forall (fun n => datable n = true) l ->
  exists units, Array_map notificationService.new_Date l w = (Ok units, w).
Proof.
  induction 1 as [|n rest Hn _ IH]; intros Hd; [by eexists|].
  apply Forall_cons in Hd as [Hd Hrest]. destruct (IH Hrest) as [units Hunits].
  assert (notificationService.new_Date n w = (Ok tt, w)) as Hone.
  { unfold notificationService.new_Date, bind.
    rewrite (get_prop_not_null n "createdAt" w Hn).
    unfold datable in Hd. unfold ToPrimitive, ToString, bind.
    destruct (prop n "createdAt") as [v|]; [|done].
    by destruct (ToString_value v). }
  exists (tt :: units). simpl. unfold bind. by rewrite Hone, Hunits.
Qed.

(** And it throws at the first [createdAt] that it can make none of. *)
Lemma new_Date_throw l w :
  Forall (fun n => n <> JNull) l ->
  Exists (fun n => datable n = false) l ->
  Array_map notificationService.new_Date l w = (Throw TypeError, w).
Proof.
  induction 1 as [|n rest Hn _ IH]; intros Hbad; [by apply Exists_nil in Hbad|].
  simpl. unfold bind. unfold notificationService.new_Date at 1, bind.
  rewrite (get_prop_not_null n "createdAt" w Hn).
  unfold ToPrimitive, ToString, bind.
  destruct (datable n) eqn:Hd.
  - apply Exists_cons in Hbad as [Hbad|Hbad]; [congruence|].
    unfold datable in Hd.
    destruct (prop n "createdAt") as [v|]; [|simpl; by rewrite (IH Hbad)].
    destruct (ToString_value v) as [key|]; [|done]. simpl. by rewrite (IH Hbad).
  - unfold datable in Hd.
    destruct (prop n "createdAt") as [v|]; [|done].
    by destruct (ToString_value v).
Qed.

Lemma owned_not_null userId n : owned_by userId n = true -> n <> JNull.
Proof. by intros H ->. Qed.

(** What [getNotifications] returns when the read goes through and finds
    an array without [null] where a Date can be made of every [createdAt]
    of the user. *)
Lemma getNotifications_ok userId w all :
  rejects w = false ->
  stored_array notificationService.STORAGE_KEY w = Some all ->
  Forall (fun n => n <> JNull) all ->
  Forall (fun n => owned_by userId n = true -> datable n = true) all ->
  notificationService.getNotifications userId w
  = (Ok (Array_sort notificationService.newest_first (List.filter (owned_by userId) all)),
     next_call w).
Proof.
  intros Hread Hstored Hobj Hdates.
  unfold notificationService.getNotifications, try_catch, bind.
  rewrite (AsyncStorage_getItem_ok _ _ Hread).
  rewrite (stored_value_parse _ _ _ _ (stored_array_value _ _ _ Hstored)).
  cbn -[Nat.leb Array_map].
  pose proof (Array_filter_prop "userId" userId all (next_call w) Hobj) as Hf.
  unfold bind in Hf. rewrite Hf.
  fold (owned_by userId).
  destruct (2 <=? length (List.filter (owned_by userId) all))%nat; [|done].
  destruct (new_Date_ok (List.filter (owned_by userId) all) (next_call w))
    as [units ->]; [| |done].
  - rewrite List.Forall_forall. intros n [_ Hn]%List.filter_In.
    by apply (owned_not_null userId).
  - rewrite List.Forall_forall in *. intros n [Hin Hn]%List.filter_In. by apply Hdates.
Qed.



(** On the sample: [n3] is the newest, and [n1] stays before [n4], which was
    created in the same millisecond. *)
Example getNotifications_sample :
  result (notificationService.getNotifications "u1") notifications_world
  = Ok [notification "n3" "u1" "2025-08-22T08:15:00.500Z";
        notification "n1" "u1" "2025-08-21T14:30:00.000Z";
        notification "n4" "u1" "2025-08-21T14:30:00.000Z"].
Proof. vm_compute. reflexivity. Qed.

(** ** Statistics *)

Lemma count_status_eq status appointments w :
  Forall (fun a => a <> JNull) appointments ->
  statisticsService.count_status status appointments w
  = (Ok (Z.of_nat (length (List.filter (has_status status) appointments))), w).
Proof.
  intros Hobj. unfold statisticsService.count_status, bind.
  pose proof (Array_filter_prop "status" status appointments w Hobj) as Hf.
  unfold bind in Hf. by rewrite Hf.
Qed.

Lemma count_month_eq byMonth a w :
  a <> JNull ->
  statisticsService.count_month byMonth a w =
  match month_key a with
  | Some k => (Ok (statisticsService.bump k byMonth), w)
  | None => (Ok byMonth, log (ConsoleWarn "Data inválida encontrada:" (prop a "date")) w)
  end.
Proof.
  intros Ha. unfold statisticsService.count_month, try_catch, bind, month_key.
  rewrite (get_prop_not_null a "date" w Ha).
  destruct (prop a "date") as [[]|] eqn:Hd; simpl;
    try (rewrite (get_prop_not_null a "date" _ Ha), Hd); done.
Qed.

Lemma count_months_eq appointments : forall byMonth w,
  Forall (fun a => a <> JNull) appointments ->
  statisticsService.count_months byMonth appointments w
  = (Ok (month_histogram byMonth appointments), month_warnings appointments w).
Proof.
  induction appointments as [|a rest IH]; intros byMonth w Hobj; [done|].
  apply Forall_cons in Hobj as [Ha Hrest]. simpl. unfold bind.
  rewrite (count_month_eq byMonth a w Ha).
  destruct (month_key a); by rewrite IH.
Qed.

(** The keys of the specialties are computed without a TypeError when
    every specialty can be a key. *)
Lemma specialty_keys_ok appointments w :
  Forall (fun a => a <> JNull) appointments ->
  Forall (fun a => keyable a = true) appointments ->
  exists keys, Array_map statisticsService.specialty_key appointments w = (Ok keys, w).
Proof.
  induction 1 as [|a rest Ha _ IH]; intros Hkey; [by eexists|].
  apply Forall_cons in Hkey as [Hk Hrest]. destruct (IH Hrest) as [keys Hkeys].
  assert (exists key, statisticsService.specialty_key a w = (Ok key, w)) as [key Hkey].
  { unfold statisticsService.specialty_key, bind.
    rewrite (get_prop_not_null a "specialty" w Ha).
    unfold keyable in Hk. unfold ToString.
    destruct (prop a "specialty") as [v|]; [|by eexists].
    destruct (ToString_value v) as [key|]; [by eexists|done]. }
  exists (key :: keys). simpl. unfold bind. by rewrite Hkey, Hkeys.
Qed.

(** What [getGeneralStatistics] returns when both reads go through, the
    appointments key holds an array without [null] elements whose
    specialties can be keys, and the users key holds text that parses. *)
Lemma getGeneralStatistics_eq w appointments :
  rejects w = false -> rejects (next_call w) = false ->
  stored_array "@MedicalApp:appointments" w = Some appointments ->
  is_Some (stored_value "@MedicalApp:registeredUsers" w) ->
  Forall (fun a => a <> JNull) appointments ->
  Forall (fun a => keyable a = true) appointments ->
  let total := Z.of_nat (length appointments) in
  let count status := Z.of_nat (length (List.filter (has_status status) appointments)) in
  statisticsService.getGeneralStatistics w =
  (Ok {| totalAppointments := total;
         confirmedAppointments := count "confirmed";
         pendingAppointments := count "pending";
         cancelledAppointments := count "cancelled";
         totalPatients := Set_size (map (fun a => prop a "patientId") appointments);
         totalDoctors := Set_size (map (fun a => prop a "doctorId") appointments);
         appointmentsByMonth := month_histogram ∅ appointments;
         statusPercentages :=
           {| confirmed := statisticsService.percentage (count "confirmed") total;
              pending := statisticsService.percentage (count "pending") total;
              cancelled := statisticsService.percentage (count "cancelled") total |} |},
   month_warnings appointments (next_call (next_call w))).
Proof.
  intros Hr1 Hr2 Happ [users Husers] Hobj Hkey. simpl.
  destruct (specialty_keys_ok appointments (next_call (next_call w)) Hobj Hkey)
    as [keys Hkeys].
  unfold statisticsService.getGeneralStatistics, try_catch, bind,
    statisticsService.read_array.
  unfold bind. rewrite (AsyncStorage_getItem_ok _ _ Hr1).
  rewrite (stored_value_parse _ _ _ _ (stored_array_value _ _ _ Happ)).
  rewrite (AsyncStorage_getItem_ok _ _ Hr2).
  change (disk (next_call w)) with (disk w).
  rewrite (stored_value_parse _ w _ _ Husers). simpl.
  rewrite !count_status_eq by done.
  rewrite !Array_map_prop by done.
  rewrite Hkeys.
  by rewrite count_months_eq.
Qed.

Lemma filter_all {A} (f : A -> bool) l :
  Forall (fun x => f x = true) l -> List.filter f l = l.
Proof. induction 1 as [|x l Hx _ IH]; [done|]. simpl. by rewrite Hx, IH. Qed.

Lemma has_status_not_null status a : has_status status a = true -> a <> JNull.
Proof. by intros H ->. Qed.

Lemma percentage_all n : 0 < n -> (statisticsService.percentage n n == 100)%Q.
Proof.
  intros Hn. unfold statisticsService.percentage.
  rewrite (proj2 (Z.ltb_lt 0 n) Hn).
  change (inject_Z 100) with 100%Q. field.
  intros H. apply (Qeq_bool_neq (inject_Z n) 0); [|done].
  unfold Qeq_bool, inject_Z. simpl. apply Z.eqb_neq. lia.
Qed.



(** C7, at the failing input: an appointment dated [2025-08-21] is not
    skipped. Its date has no slash, the month and the year of the split are
    [undefined], and the histogram counts it under [undefined/undefined]
    without any warning on the console. *)
Theorem year_first_date_is_counted :
  exists s,
    result statisticsService.getGeneralStatistics iso_dated_world = Ok s
    /\ appointmentsByMonth s = {[ "undefined/undefined" := 1 ]}
    /\ console (after statisticsService.getGeneralStatistics iso_dated_world) = [].
Proof.
  eexists. split; [vm_compute; reflexivity|]. split; vm_compute; reflexivity.
Qed.

(** A date that is not a string is skipped with a warning. *)
Lemma count_month_skips_non_string byMonth a w :
  a <> JNull -> month_key a = None ->
  statisticsService.count_month byMonth a w
  = (Ok byMonth, log (ConsoleWarn "Data inválida encontrada:" (prop a "date")) w).
Proof. intros Ha Hk. by rewrite count_month_eq, Hk. Qed.

Lemma digit_not_slash c : JSON.is_digit c = true -> Ascii.eqb c (JSON.chr 47) = false.
Proof. by destruct c as [[] [] [] [] [] [] [] []]. Qed.

(** A date in the format [DD/MM/YYYY] is counted under [MM/YYYY]. *)
Lemma month_key_well_formed a d1 d2 m1 m2 y1 y2 y3 y4 :
  prop a "date" = Some (JStr (ddmmyyyy d1 d2 m1 m2 y1 y2 y3 y4)) ->
  Forall (fun c => JSON.is_digit c = true) [d1; d2; m1; m2; y1; y2; y3; y4] ->
  month_key a = Some (string_of_list_ascii [m1; m2; JSON.chr 47; y1; y2; y3; y4]).
Proof.
  intros Hdate Hdigits. unfold month_key. rewrite Hdate. f_equal.
  unfold statisticsService.month_key_of, String_split, ddmmyyyy.
  rewrite list_ascii_of_string_of_list_ascii.
  repeat match goal with
         | H : Forall _ (_ :: _) |- _ => apply Forall_cons in H as [?%digit_not_slash H]
         end.
  simpl. by repeat match goal with H : Ascii.eqb _ _ = false |- _ => rewrite H; clear H end.
Qed.

(** ** Appointments *)

Lemma getItem_keeps_store_working key d w :
  rejects w = false -> rejects (next_call w) = false ->
  rejects (after (storageService.getItem key d) w) = false.
Proof.
  intros H1 H2. unfold after. rewrite getItem_eq.
  destruct (cache_hit key w); [done|]. simpl. rewrite H1.
  destruct (stored_text (disk w !! key)) as [text|]; [|done].
  by destruct (JSON.parse text).
Qed.

(** ** JSON text: what [stringify] writes, [parse] reads back *)

Lemma parse_digits_render d rest :
  match rest with [] => True | c :: _ => JSON.is_digit c = false end ->
  JSON.parse_digits (JSON.render_uint d ++ rest) = (d, rest).
Proof.
  intros Hrest. induction d; simpl; try (rewrite IHd; reflexivity).
  destruct rest as [|c rest]; [done|]. simpl. by rewrite Hrest.
Qed.

Lemma nzhead_no_leading_zero d :
  match nzhead d with D0 _ => False | _ => True end.
Proof. induction d; simpl; done. Qed.

Lemma valid_int_part_unorm d : JSON.valid_int_part (unorm d) = true.
Proof.
  unfold unorm. pose proof (nzhead_no_leading_zero d) as H.
  destruct (nzhead d); done.
Qed.

Lemma to_int_normal z : norm (Z.to_int z) = Z.to_int z.
Proof. by rewrite <- DecimalZ.to_of, DecimalZ.of_to. Qed.

Lemma valid_int_part_to_int z :
  match Z.to_int z with
  | Pos d => JSON.valid_int_part d = true
  | Neg d => JSON.valid_int_part d = true
  end.
Proof.
  pose proof (to_int_normal z) as H. destruct (Z.to_int z) as [d|d]; simpl in H.
  - injection H as H. rewrite <- H. apply valid_int_part_unorm.
  - pose proof (nzhead_no_leading_zero d) as Hz.
    destruct (nzhead d) eqn:E; try done; injection H as <-; done.
Qed.

Lemma delimited_not_digit rest :
  delimited rest -> match rest with [] => True | c :: _ => JSON.is_digit c = false end.
Proof. destruct rest as [|c rest]; [done|]. by intros [->|[->| ->]]. Qed.

Lemma render_uint_head d :
  JSON.valid_int_part d = true ->
  exists c r, JSON.render_uint d = c :: r /\ JSON.is_digit c = true.
Proof. destruct d; simpl; try done; eauto. Qed.

Lemma parse_number_render z rest :
  delimited rest ->
  JSON.parse_number (JSON.render_Z z ++ rest) = Some (z, rest).
Proof.
  intros Hrest. unfold JSON.parse_number, JSON.render_Z.
  pose proof (valid_int_part_to_int z) as Hvalid.
  pose proof (DecimalZ.of_to z) as Hback.
  destruct (Z.to_int z) as [d|d].
  - destruct (render_uint_head d Hvalid) as (c & r & Hcr & Hc).
    replace (match JSON.render_uint d ++ rest with
             | [] => (false, JSON.render_uint d ++ rest)
             | c0 :: r0 =>
                 if Ascii.eqb c0 (JSON.chr 45) then (true, r0)
                 else (false, JSON.render_uint d ++ rest)
             end) with (false, JSON.render_uint d ++ rest).
    2: { rewrite Hcr. simpl.
         destruct c as [[] [] [] [] [] [] [] []]; done. }
    rewrite parse_digits_render by by apply delimited_not_digit.
    rewrite Hvalid, Hback.
    destruct rest as [|c' rest]; [done|].
    by destruct Hrest as [->|[->| ->]].
  - change ((JSON.chr 45 :: JSON.render_uint d) ++ rest)
      with (JSON.chr 45 :: (JSON.render_uint d ++ rest)).
    cbv beta iota.
    change (Ascii.eqb (JSON.chr 45) (JSON.chr 45)) with true. cbv beta iota.
    rewrite parse_digits_render by by apply delimited_not_digit.
    rewrite Hvalid, Hback.
    destruct rest as [|c' rest]; [done|].
    by destruct Hrest as [->|[->| ->]].
Qed.

Lemma parse_string_body_char c fuel tail :
  JSON.parse_string_body (S fuel) (JSON.render_char c ++ tail) =
  match JSON.parse_string_body fuel tail with
  | Some (cs, r) => Some (c :: cs, r)
  | None => None
  end.
Proof. destruct c as [[] [] [] [] [] [] [] []]; reflexivity. Qed.

Lemma parse_string_body_render cs : forall fuel rest,
  (length cs < fuel)%nat ->
  JSON.parse_string_body fuel (flat_map JSON.render_char cs ++ JSON.quote :: rest)
  = Some (cs, rest).
Proof.
  induction cs as [|c cs IH]; intros [|fuel] rest Hfuel; simpl in Hfuel; try lia.
  - reflexivity.
  - change (flat_map JSON.render_char (c :: cs))
      with (JSON.render_char c ++ flat_map JSON.render_char cs).
    rewrite <- app_assoc, parse_string_body_char, IH; [done|lia].
Qed.

Lemma render_char_length cs : (length cs <= length (flat_map JSON.render_char cs))%nat.
Proof.
  induction cs as [|c cs IH]; simpl; [lia|].
  rewrite length_app.
  assert (1 <= length (JSON.render_char c))%nat; [|lia].
  destruct c as [[] [] [] [] [] [] [] []]; simpl; lia.
Qed.

(** A rendered string without its opening quote reads back. *)
Lemma parse_string_render s rest :
  JSON.parse_string
    (flat_map JSON.render_char (list_ascii_of_string s) ++ JSON.quote :: rest)
  = Some (s, rest).
Proof.
  unfold JSON.parse_string. rewrite parse_string_body_render.
  - by rewrite string_of_list_ascii_of_string.
  - rewrite length_app. simpl.
    pose proof (render_char_length (list_ascii_of_string s)). lia.
Qed.

(** How [parse_value] starts on each kind of text. *)
Lemma parse_value_quote fuel r :
  JSON.parse_value (S fuel) (JSON.quote :: r) =
  match JSON.parse_string r with
  | Some (str, r') => Some (JStr str, r')
  | None => None
  end.
Proof. reflexivity. Qed.

Lemma parse_value_bracket fuel r :
  JSON.parse_value (S fuel) (JSON.chr 91 :: r) =
  match JSON.skip_ws r with
  | c2 :: r2 =>
      if Ascii.eqb c2 (JSON.chr 93) then Some (JArr [], r2)
      else
        match JSON.parse_elements fuel r with
        | Some (vs, r') => Some (JArr vs, r')
        | None => None
        end
  | [] => None
  end.
Proof. reflexivity. Qed.

Lemma parse_value_brace fuel r :
  JSON.parse_value (S fuel) (JSON.chr 123 :: r) =
  match JSON.skip_ws r with
  | c2 :: r2 =>
      if Ascii.eqb c2 (JSON.chr 125) then Some (JObj [], r2)
      else
        match JSON.parse_members fuel r with
        | Some (kvs, r') => Some (JObj (spread [] kvs), r')
        | None => None
        end
  | [] => None
  end.
Proof. reflexivity. Qed.

Lemma parse_value_number fuel c r :
  JSON.is_digit c = true \/ c = JSON.chr 45 ->
  JSON.parse_value (S fuel) (c :: r) =
  match JSON.parse_number (c :: r) with
  | Some (z, r') => Some (JNum z, r')
  | None => None
  end.
Proof.
  intros [Hc| ->]; [|reflexivity].
  destruct c as [[] [] [] [] [] [] [] []]; try discriminate Hc; reflexivity.
Qed.

Lemma parse_elements_S fuel s :
  JSON.parse_elements (S fuel) s =
  match JSON.parse_value fuel s with
  | Some (v, r) =>
      match JSON.skip_ws r with
      | c :: r' =>
          if Ascii.eqb c (JSON.chr 44) then
            match JSON.parse_elements fuel r' with
            | Some (vs, r'') => Some (v :: vs, r'')
            | None => None
            end
          else if Ascii.eqb c (JSON.chr 93) then Some ([v], r')
          else None
      | [] => None
      end
  | None => None
  end.
Proof. reflexivity. Qed.

Lemma parse_members_quote fuel r0 :
  JSON.parse_members (S fuel) (JSON.quote :: r0) =
  match JSON.parse_string r0 with
  | Some (k, r1) =>
      match JSON.skip_ws r1 with
      | colon :: r2 =>
          if Ascii.eqb colon (JSON.chr 58) then
            match JSON.parse_value fuel r2 with
            | Some (v, r3) =>
                match JSON.skip_ws r3 with
                | c :: r4 =>
                    if Ascii.eqb c (JSON.chr 44) then
                      match JSON.parse_members fuel r4 with
                      | Some (kvs, r5) => Some ((k, v) :: kvs, r5)
                      | None => None
                      end
                    else if Ascii.eqb c (JSON.chr 125) then Some ([(k, v)], r4)
                    else None
                | [] => None
                end
            | None => None
            end
          else None
      | [] => None
      end
  | None => None
  end.
Proof. reflexivity. Qed.

Lemma render_Z_head z :
  exists c r, JSON.render_Z z = c :: r /\ (JSON.is_digit c = true \/ c = JSON.chr 45).
Proof.
  unfold JSON.render_Z. pose proof (valid_int_part_to_int z) as Hvalid.
  destruct (Z.to_int z) as [d|d]; [|by eauto].
  destruct (render_uint_head d Hvalid) as (c & r & -> & Hc). eauto.
Qed.

(** A rendered value starts with a character that is neither white space
    nor a closing bracket. *)
Lemma render_head v :
  JSON.well_formed v = true ->
  exists c r, JSON.render v = c :: r /\ JSON.is_ws c = false
              /\ Ascii.eqb c (JSON.chr 93) = false.
Proof.
  destruct v as [|[]|n| |s|items|fields]; simpl; try done;
    try (intros _; eexists; eexists; split; [reflexivity|done]).
  intros _. destruct (render_Z_head n) as (c & r & -> & Hc).
  exists c, r. split; [done|].
  destruct Hc as [Hc| ->]; [|done].
  destruct c as [[] [] [] [] [] [] [] []]; done.
Qed.

Lemma skip_ws_head c r : JSON.is_ws c = false -> JSON.skip_ws (c :: r) = c :: r.
Proof. intros H. simpl. by rewrite H. Qed.

Lemma skip_ws_delimited rest :
  delimited rest -> JSON.skip_ws rest = rest.
Proof. destruct rest as [|c rest]; [done|]. by intros [->|[->| ->]]. Qed.

Lemma existsb_eqb_elem k (l : list string) : existsb (String.eqb k) l = true <-> k ∈ l.
Proof.
  rewrite existsb_exists, list_elem_of_In. split.
  - intros (x & Hin & Heq). apply String.eqb_eq in Heq. by subst.
  - intros Hin. exists k. split; [done|]. apply String.eqb_refl.
Qed.

Lemma assoc_set_fresh k v acc :
  k ∉ map fst acc -> assoc_set k v acc = acc ++ [(k, v)].
Proof.
  induction acc as [|[k' v'] acc IH]; simpl; intros Hk; [done|].
  apply not_elem_of_cons in Hk as [Hne Hk].
  destruct (String.eqb k k') eqn:E; [by apply String.eqb_eq in E|].
  by rewrite IH.
Qed.

Lemma distinct_NoDup keys : JSON.distinct keys = true <-> NoDup keys.
Proof.
  induction keys as [|k keys IH]; simpl.
  - split; [constructor|done].
  - rewrite andb_true_iff, negb_true_iff, NoDup_cons, IH.
    rewrite <- existsb_eqb_elem. by destruct (existsb (String.eqb k) keys); intuition.
Qed.

(** Assigning properties with fresh, distinct keys appends them in order. *)
Lemma spread_distinct fields : forall acc,
  NoDup (map fst acc ++ map fst fields) -> spread acc fields = acc ++ fields.
Proof.
  unfold spread. induction fields as [|[k v] fields IH]; intros acc Hnd; simpl.
  - by rewrite app_nil_r.
  - simpl in Hnd. rewrite assoc_set_fresh.
    + rewrite IH; [by rewrite <- app_assoc|].
      rewrite map_app. simpl. by rewrite <- app_assoc.
    + apply NoDup_app in Hnd as (_ & Hdisj & _).
      intros Hin. apply (Hdisj k Hin). by left.
Qed.

Lemma parse_elements_render items :
  items <> [] -> Forall reads_back items ->
  forallb JSON.well_formed items = true ->
  forall fuel rest,
    (list_sum (map (fun x => S (JSON.weight x)) items) <= fuel)%nat ->
    JSON.parse_elements fuel (JSON.join (map JSON.render items) ++ JSON.chr 93 :: rest)
    = Some (items, rest).
Proof.
  induction items as [|x items IH]; [done|]. intros _ Hall Hwf fuel rest Hfuel.
  apply Forall_cons in Hall as [Hx Hall].
  simpl in Hwf. apply andb_true_iff in Hwf as [Hwx Hwf].
  destruct fuel as [|fuel]; simpl in Hfuel; [lia|].
  rewrite parse_elements_S. destruct items as [|y items].
  - change (JSON.join (map JSON.render [x])) with (JSON.render x).
    rewrite (Hx Hwx fuel (JSON.chr 93 :: rest)); [done|lia|by right; left].
  - change (JSON.join (map JSON.render (x :: y :: items)))
      with (JSON.render x ++ JSON.chr 44 :: JSON.join (map JSON.render (y :: items))).
    rewrite <- app_assoc.
    change ((JSON.chr 44 :: JSON.join (map JSON.render (y :: items)))
              ++ JSON.chr 93 :: rest)
      with (JSON.chr 44 :: (JSON.join (map JSON.render (y :: items))
                              ++ JSON.chr 93 :: rest)).
    rewrite (Hx Hwx fuel); [|lia|by left].
    rewrite skip_ws_head by done.
    change (Ascii.eqb (JSON.chr 44) (JSON.chr 44)) with true. cbv iota.
    rewrite IH; [done|done|done|done|]. simpl in *. lia.
Qed.

(** One member of an object, followed by [tail]. *)
Lemma parse_members_step fuel k v tail :
  reads_back v -> JSON.well_formed v = true -> (JSON.weight v <= fuel)%nat ->
  delimited tail ->
  JSON.parse_members (S fuel)
    ((JSON.render_string k ++ JSON.chr 58 :: JSON.render v) ++ tail) =
  match tail with
  | c :: r4 =>
      if Ascii.eqb c (JSON.chr 44) then
        match JSON.parse_members fuel r4 with
        | Some (kvs, r5) => Some ((k, v) :: kvs, r5)
        | None => None
        end
      else if Ascii.eqb c (JSON.chr 125) then Some ([(k, v)], r4)
      else None
  | [] => None
  end.
Proof.
  intros Hv Hwv Hfuel Htail.
  replace ((JSON.render_string k ++ JSON.chr 58 :: JSON.render v) ++ tail)
    with (JSON.quote
            :: (flat_map JSON.render_char (list_ascii_of_string k)
                  ++ JSON.quote :: JSON.chr 58 :: (JSON.render v ++ tail))).
  2: { unfold JSON.render_string. simpl. f_equal. by rewrite <- !app_assoc. }
  rewrite parse_members_quote, parse_string_render.
  rewrite skip_ws_head by done.
  change (Ascii.eqb (JSON.chr 58) (JSON.chr 58)) with true. cbv iota.
  rewrite (Hv Hwv fuel tail Hfuel Htail).
  by rewrite (skip_ws_delimited tail Htail).
Qed.

Lemma parse_members_render fields :
  fields <> [] -> Forall (fun kv => reads_back (snd kv)) fields ->
  forallb (fun kv => JSON.well_formed (snd kv)) fields = true ->
  forall fuel rest,
    (list_sum (map (fun kv => S (JSON.weight (snd kv))) fields) <= fuel)%nat ->
    JSON.parse_members fuel
      (JSON.join
         (map (fun kv => JSON.render_string (fst kv) ++ JSON.chr 58 :: JSON.render (snd kv))
            fields) ++ JSON.chr 125 :: rest)
    = Some (fields, rest).
Proof.
  induction fields as [|[k v] fields IH]; [done|]. intros _ Hall Hwf fuel rest Hfuel.
  apply Forall_cons in Hall as [Hv Hall]. simpl in Hv.
  simpl in Hwf. apply andb_true_iff in Hwf as [Hwv Hwf].
  destruct fuel as [|fuel]; simpl in Hfuel; [lia|].
  destruct fields as [|kv' fields].
  - change (JSON.join (map _ [(k, v)]))
      with (JSON.render_string k ++ JSON.chr 58 :: JSON.render v).
    rewrite parse_members_step; [done|done|done|lia|by right; right].
  - change (JSON.join (map ?f ((k, v) :: kv' :: fields)))
      with ((JSON.render_string k ++ JSON.chr 58 :: JSON.render v)
              ++ JSON.chr 44 :: JSON.join (map f (kv' :: fields))).
    rewrite <- app_assoc.
    change ((JSON.chr 44 :: ?j) ++ JSON.chr 125 :: rest)
      with (JSON.chr 44 :: (j ++ JSON.chr 125 :: rest)).
    rewrite parse_members_step; [|done|done|lia|by left].
    change (Ascii.eqb (JSON.chr 44) (JSON.chr 44)) with true. cbv iota.
    rewrite IH; [done|done|done|done|]. simpl in *. lia.
Qed.

(** Every well-formed value reads back from its rendering. *)
Lemma parse_value_render v : reads_back v.
Proof.
  induction v as [|b|n|n|s|items IH|fields IH] using JSValue_ind_deep;
    intros Hwf fuel rest Hfuel Hrest;
    (destruct fuel as [|fuel]; [simpl in Hfuel; lia|]).
  - reflexivity.
  - by destruct b.
  - destruct (render_Z_head n) as (c & r & Hcr & Hc).
    simpl JSON.render. pose proof (parse_number_render n rest Hrest) as Hnum.
    rewrite Hcr in *. simpl ((_ :: _) ++ _) in *.
    by rewrite (parse_value_number fuel c _ Hc), Hnum.
  - done.
  - simpl JSON.render. unfold JSON.render_string.
    simpl ((_ :: _) ++ _). rewrite <- app_assoc. simpl ((_ :: _) ++ _).
    by rewrite parse_value_quote, parse_string_render.
  - simpl JSON.render. simpl ((_ :: _) ++ _). rewrite <- app_assoc.
    simpl ((_ :: _) ++ _). rewrite parse_value_bracket.
    destruct items as [|x items]; [done|].
    simpl in Hwf. pose proof Hwf as Hwf'. apply andb_true_iff in Hwf' as [Hwx _].
    destruct (render_head x Hwx) as (c & r & Hcr & Hws & Hclose).
    assert (exists tail,
               JSON.join (map JSON.render (x :: items)) ++ JSON.chr 93 :: rest
               = c :: tail) as [tail Htail].
    { destruct items; simpl; rewrite Hcr; simpl; eauto. }
    rewrite Htail, (skip_ws_head c tail Hws), Hclose, <- Htail.
    rewrite parse_elements_render; [done|done|done|done|]. simpl in Hfuel |- *. lia.
  - destruct fields as [|[k v] fields]; [done|].
    change (JSON.render (JObj ((k, v) :: fields)))
      with (JSON.chr 123
              :: JSON.join
                   (map (fun kv => JSON.render_string (fst kv)
                                     ++ JSON.chr 58 :: JSON.render (snd kv))
                      ((k, v) :: fields)) ++ [JSON.chr 125]).
    rewrite <- app_comm_cons, <- app_assoc.
    change ([JSON.chr 125] ++ rest) with (JSON.chr 125 :: rest).
    rewrite parse_value_brace.
    simpl in Hwf. apply andb_true_iff in Hwf as [Hkeys Hwf].
    assert (exists tail,
               JSON.join
                 (map (fun kv => JSON.render_string (fst kv)
                                   ++ JSON.chr 58 :: JSON.render (snd kv))
                    ((k, v) :: fields)) ++ JSON.chr 125 :: rest
               = JSON.quote :: tail) as [tail Htail].
    { destruct fields; simpl; eauto. }
    rewrite Htail, (skip_ws_head JSON.quote tail eq_refl).
    change (Ascii.eqb JSON.quote (JSON.chr 125)) with false. cbv iota.
    rewrite <- Htail.
    rewrite parse_members_render; [|done|done|done|simpl in Hfuel |- *; lia].
    rewrite spread_distinct; [done|]. simpl.
    by apply (distinct_NoDup (k :: map fst fields)).
Qed.

Lemma weight_sum_bound {A} (w : A -> nat) (r : A -> list ascii) (l : list A) :
  Forall (fun x => (w x <= length (r x))%nat) l ->
  (list_sum (map (fun x => S (w x)) l) <= S (length (JSON.join (map r l))))%nat.
Proof.
  induction 1 as [|x l Hx _ IH]; [simpl; lia|].
  destruct l as [|y l]; [simpl in *; lia|].
  change (JSON.join (map r (x :: y :: l)))
    with (r x ++ JSON.chr 44 :: JSON.join (map r (y :: l))).
  rewrite length_app.
  change (list_sum (map (fun x => S (w x)) (x :: y :: l)))
    with (S (w x) + list_sum (map (fun x => S (w x)) (y :: l)))%nat.
  change (length (JSON.chr 44 :: ?t)) with (S (length t)). lia.
Qed.

Lemma render_length_pos v : JSON.well_formed v = true -> (1 <= length (JSON.render v))%nat.
Proof. intros Hwf. destruct (render_head v Hwf) as (c & r & -> & _). simpl. lia. Qed.

Lemma forallb_Forall {A} (f : A -> bool) l :
  forallb f l = true -> Forall (fun x => f x = true) l.
Proof.
  induction l as [|x l IH]; simpl; [constructor|].
  intros [Hx Hl]%andb_true_iff. constructor; auto.
Qed.

Lemma Forall_mp {A} (P Q : A -> Prop) l :
  Forall (fun x => P x -> Q x) l -> Forall P l -> Forall Q l.
Proof.
  induction 1 as [|x l Hx _ IH]; intros HP; [constructor|].
  apply Forall_cons in HP as [HPx HP]. constructor; auto.
Qed.

Lemma Forall_forallb {A} (f : A -> bool) l :
  Forall (fun x => f x = true) l -> forallb f l = true.
Proof. induction 1 as [|x l Hx _ IH]; simpl; [done|]. by rewrite Hx, IH. Qed.

(** The fuel that [parse] takes from the length of the text is enough. *)
Lemma weight_le_length v :
  JSON.well_formed v = true -> (JSON.weight v <= length (JSON.render v))%nat.
Proof.
  induction v as [|b|n|n|s|items IH|fields IH] using JSValue_ind_deep; intros Hwf;
    try (by apply render_length_pos).
  - change (JSON.well_formed (JArr items)) with (forallb JSON.well_formed items) in Hwf.
    apply forallb_Forall in Hwf.
    pose proof (weight_sum_bound JSON.weight JSON.render items) as Hsum.
    assert (Forall (fun x => (JSON.weight x <= length (JSON.render x))%nat) items) as Hall.
    { exact (Forall_mp (fun x => JSON.well_formed x = true) _ items IH Hwf). }
    specialize (Hsum Hall).
    change (JSON.weight (JArr items))
      with (S (list_sum (map (fun x => S (JSON.weight x)) items))).
    change (JSON.render (JArr items))
      with (JSON.chr 91 :: JSON.join (map JSON.render items) ++ [JSON.chr 93]).
    cbv beta in Hsum. rewrite length_cons, length_app.
    change (length [?c]) with 1%nat. lia.
  - change (JSON.well_formed (JObj fields))
      with (JSON.distinct (map fst fields)
            && forallb (fun kv => JSON.well_formed (snd kv)) fields) in Hwf.
    apply andb_true_iff in Hwf as [_ Hwf]. apply forallb_Forall in Hwf.
    pose proof (weight_sum_bound (fun kv => JSON.weight (snd kv))
                  (fun kv => JSON.render_string (fst kv)
                               ++ JSON.chr 58 :: JSON.render (snd kv)) fields) as Hsum.
    assert (Forall (fun kv => (JSON.weight (snd kv)
                               <= length (JSON.render_string (fst kv)
                                            ++ JSON.chr 58 :: JSON.render (snd kv)))%nat)
              fields) as Hall.
    { apply (Forall_mp (fun kv => JSON.well_formed (snd kv) = true) _ fields); [|done].
      eapply Forall_impl; [exact IH|]. simpl. intros kv H1 H2.
      rewrite length_app, length_cons. specialize (H1 H2). lia. }
    specialize (Hsum Hall).
    change (JSON.weight (JObj fields))
      with (S (list_sum (map (fun kv => S (JSON.weight (snd kv))) fields))).
    change (JSON.render (JObj fields))
      with (JSON.chr 123
              :: JSON.join
                   (map (fun kv => JSON.render_string (fst kv)
                                     ++ JSON.chr 58 :: JSON.render (snd kv)) fields)
              ++ [JSON.chr 125]).
    cbv beta in Hsum. rewrite length_cons, length_app.
    change (length [?c]) with 1%nat. lia.
Qed.

Lemma well_formed_serializable v : JSON.well_formed v = true -> JSON.serializable v = true.
Proof.
  induction v as [|b|n|n|s|items IH|fields IH] using JSValue_ind_deep; try done.
  - change (JSON.well_formed (JArr items)) with (forallb JSON.well_formed items).
    change (JSON.serializable (JArr items)) with (forallb JSON.serializable items).
    intros Hwf%forallb_Forall. apply Forall_forallb.
    exact (Forall_mp (fun x => JSON.well_formed x = true) _ items IH Hwf).
  - change (JSON.well_formed (JObj fields))
      with (JSON.distinct (map fst fields)
            && forallb (fun kv => JSON.well_formed (snd kv)) fields).
    change (JSON.serializable (JObj fields))
      with (forallb (fun kv => JSON.serializable (snd kv)) fields).
    intros [_ Hwf%forallb_Forall]%andb_true_iff. apply Forall_forallb.
    exact (Forall_mp (fun kv => JSON.well_formed (snd kv) = true) _ fields IH Hwf).
Qed.

(** [JSON.parse(JSON.stringify(v))] is [v] for every well-formed [v]. *)
Lemma JSON_round_trip v :
  JSON.well_formed v = true ->
  exists text, JSON.stringify v = Some text /\ JSON.parse text = Some v.
Proof.
  intros Hwf. exists (string_of_list_ascii (JSON.render v)). split.
  - unfold JSON.stringify. by rewrite well_formed_serializable.
  - unfold JSON.parse. rewrite list_ascii_of_string_of_list_ascii.
    pose proof (parse_value_render v Hwf (S (length (JSON.render v))) []) as Hparse.
    rewrite app_nil_r in Hparse. rewrite Hparse; [done| |done].
    pose proof (weight_le_length v Hwf). lia.
Qed.

(** ** JSON text: what the parser of the model accepts is JSON *)

Lemma parse_number_valid s z r :
  JSON.parse_number s = Some (z, r) -> JSON.valid_number s = Some r.
Proof.
  unfold JSON.parse_number, JSON.valid_number.
  destruct (match s with
            | c :: r0 => if Ascii.eqb c (JSON.chr 45) then (true, r0) else (false, s)
            | [] => (false, s)
            end) as [neg s1] eqn:Hneg.
  assert (match s with
          | c :: r0 => if Ascii.eqb c (JSON.chr 45) then r0 else s
          | [] => s
          end = s1) as ->.
  { destruct s as [|c r0]; [by inversion Hneg|].
    destruct (Ascii.eqb c (JSON.chr 45)); by inversion Hneg. }
  destruct (JSON.parse_digits s1) as [d r1].
  destruct (JSON.valid_int_part d); [|done].
  destruct r1 as [|c r2]; [by intros [= _ <-]|].
  destruct (Ascii.eqb c (JSON.chr 46)); [done|].
  destruct (Ascii.eqb c (JSON.chr 101)); [done|].
  destruct (Ascii.eqb c (JSON.chr 69)); [done|].
  by intros [= _ <-].
Qed.

Lemma parse_string_body_valid fuel : forall s cs r,
  JSON.parse_string_body fuel s = Some (cs, r) -> JSON.valid_string_body fuel s = Some r.
Proof.
  induction fuel as [|fuel IH]; intros s cs r; [done|]. simpl.
  destruct s as [|c s]; [done|].
  destruct (Ascii.eqb c JSON.quote); [by intros [= _ <-]|].
  destruct (Ascii.eqb c JSON.backslash).
  - destruct s as [|e r1]; [done|].
    repeat (match goal with
            | |- context [if (nat_of_ascii e =? ?k)%nat then _ else _] =>
                destruct (nat_of_ascii e =? k)%nat eqn:?
            end;
            [simpl;
             destruct (JSON.parse_string_body fuel r1) as [[cs' r']|] eqn:Hrec; [|done];
             intros [= _ <-]; by apply (IH _ cs')|]); simpl.
    destruct (nat_of_ascii e =? 117)%nat; [|done].
    destruct r1 as [|h1 [|h2 [|h3 [|h4 r2]]]]; try done.
    destruct (JSON.hex_value h1), (JSON.hex_value h2), (JSON.hex_value h3),
      (JSON.hex_value h4); try done.
    destruct (_ <? 128)%nat; [|done].
    destruct (JSON.parse_string_body fuel r2) as [[cs' r']|] eqn:Hrec; [|done].
    intros [= _ <-]. by apply (IH _ cs').
  - destruct (nat_of_ascii c <? 32)%nat; [done|].
    destruct (JSON.parse_string_body fuel s) as [[cs' r']|] eqn:Hrec; [|done].
    intros [= _ <-]. by apply (IH _ cs').
Qed.

Lemma parse_string_valid s str r :
  JSON.parse_string s = Some (str, r) -> JSON.valid_string s = Some r.
Proof.
  unfold JSON.parse_string, JSON.valid_string.
  destruct (JSON.parse_string_body (S (length s)) s) as [[cs r']|] eqn:H; [|done].
  intros [= _ <-]. by apply (parse_string_body_valid _ _ cs).
Qed.

Lemma keyword_valid word v r r' x :
  JSON.keyword word v r = Some (x, r') -> JSON.strip_prefix (JSON.lit word) r = Some r'.
Proof.
  unfold JSON.keyword.
  destruct (JSON.strip_prefix (JSON.lit word) r); [by intros [= _ <-]|done].
Qed.

Lemma parse_value_valid fuel :
  (forall s v r, JSON.parse_value fuel s = Some (v, r) -> JSON.valid_value fuel s = Some r)
  /\ (forall s vs r,
        JSON.parse_elements fuel s = Some (vs, r) -> JSON.valid_elements fuel s = Some r)
  /\ (forall s kvs r,
        JSON.parse_members fuel s = Some (kvs, r) -> JSON.valid_members fuel s = Some r).
Proof.
  induction fuel as [|fuel (IHv & IHe & IHm)]; [done|].
  split; [|split]; intros s x r; simpl.
  - destruct (JSON.skip_ws s) as [|c r0]; [done|].
    destruct (nat_of_ascii c =? 110)%nat; [apply keyword_valid|].
    destruct (nat_of_ascii c =? 116)%nat; [apply keyword_valid|].
    destruct (nat_of_ascii c =? 102)%nat; [apply keyword_valid|].
    destruct (nat_of_ascii c =? 34)%nat.
    { destruct (JSON.parse_string r0) as [[str r']|] eqn:H; [|done].
      intros [= _ <-]. by apply (parse_string_valid _ str). }
    destruct (nat_of_ascii c =? 91)%nat.
    { destruct (JSON.skip_ws r0) as [|c2 r2]; [done|].
      destruct (Ascii.eqb c2 (JSON.chr 93)); [by intros [= _ <-]|].
      destruct (JSON.parse_elements fuel r0) as [[vs r']|] eqn:H; [|done].
      intros [= _ <-]. by apply (IHe _ vs). }
    destruct (nat_of_ascii c =? 123)%nat.
    { destruct (JSON.skip_ws r0) as [|c2 r2]; [done|].
      destruct (Ascii.eqb c2 (JSON.chr 125)); [by intros [= _ <-]|].
      destruct (JSON.parse_members fuel r0) as [[kvs r']|] eqn:H; [|done].
      intros [= _ <-]. by apply (IHm _ kvs). }
    destruct (JSON.parse_number (c :: r0)) as [[z r']|] eqn:H; [|done].
    intros [= _ <-]. by apply (parse_number_valid _ z).
  - destruct (JSON.parse_value fuel s) as [[v r0]|] eqn:H; [|done].
    rewrite (IHv _ _ _ H).
    destruct (JSON.skip_ws r0) as [|c r1]; [done|].
    destruct (Ascii.eqb c (JSON.chr 44)).
    { destruct (JSON.parse_elements fuel r1) as [[vs r']|] eqn:H'; [|done].
      intros [= _ <-]. by apply (IHe _ vs). }
    destruct (Ascii.eqb c (JSON.chr 93)); [by intros [= _ <-]|done].
  - destruct (JSON.skip_ws s) as [|q r0]; [done|].
    destruct (Ascii.eqb q JSON.quote); [|done].
    destruct (JSON.parse_string r0) as [[k r1]|] eqn:Hk; [|done].
    rewrite (parse_string_valid _ _ _ Hk).
    destruct (JSON.skip_ws r1) as [|colon r2]; [done|].
    destruct (Ascii.eqb colon (JSON.chr 58)); [|done].
    destruct (JSON.parse_value fuel r2) as [[v r3]|] eqn:Hv; [|done].
    rewrite (IHv _ _ _ Hv).
    destruct (JSON.skip_ws r3) as [|c r4]; [done|].
    destruct (Ascii.eqb c (JSON.chr 44)).
    { destruct (JSON.parse_members fuel r4) as [[kvs r']|] eqn:H'; [|done].
      intros [= _ <-]. by apply (IHm _ kvs). }
    destruct (Ascii.eqb c (JSON.chr 125)); [by intros [= _ <-]|done].
Qed.

Lemma parse_is_valid text v : JSON.parse text = Some v -> JSON.valid text = true.
Proof.
  unfold JSON.parse, JSON.valid.
  destruct (JSON.parse_value _ _) as [[v' r]|] eqn:H; [|done].
  rewrite (proj1 (parse_value_valid _) _ _ _ H).
  by destruct (JSON.skip_ws r).
Qed.

(** Text that is not JSON has no value. *)
Lemma not_valid_no_parse text : JSON.valid text = false -> JSON.parse text = None.
Proof.
  intros Hv. destruct (JSON.parse text) as [v|] eqn:Hp; [|done].
  apply parse_is_valid in Hp. congruence.
Qed.

(** On a text where the parser of the model is the one of the language, no
    value means no JSON. *)
Lemma within_model_no_parse text :
  within_model text -> JSON.parse text = None -> JSON.valid text = false.
Proof.
  intros Hm Hp. destruct (JSON.valid text) eqn:Hv; [|done].
  destruct (Hm Hv) as [v Hv']. congruence.
Qed.

(** ** Appointments, continued *)

Lemma getItem_keeps_disk key d w :
  disk (after (storageService.getItem key d) w) = disk w.
Proof.
  unfold after. rewrite getItem_eq.
  destruct (cache_hit key w); [done|]. simpl.
  destruct (rejects w); [done|].
  destruct (stored_text (disk w !! key)) as [text|]; [|done].
  by destruct (JSON.parse text).
Qed.

Lemma Array_map_unmatched appointmentId updates items w :
  Forall (fun apt => apt <> JNull) items ->
  Forall (fun apt => strict_eq_str (prop apt "id") appointmentId = false) items ->
  Array_map
    (fun apt =>
       let* id := get_prop apt "id" in
       ret (if strict_eq_str id appointmentId
            then JObj (spread (spread_props apt) (spread_props updates))
            else apt)) items w
  = (Ok items, w).
Proof.
  intros Hobj. induction Hobj as [|apt items Hapt _ IH]; intros Hid; [done|].
  apply Forall_cons in Hid as [Hno Hid]. simpl. unfold bind in *.
  rewrite (get_prop_not_null apt "id" w Hapt). simpl. rewrite Hno.
  by rewrite (IH Hid).
Qed.

(** C8, as amended: [updateAppointment] stores what [getAppointments]
    reads. When that is an array of well-formed, non-null elements none of
    which has the given id, and the read and the write go through,
    [updateAppointment] raises no error, passes every element through and
    stores the elements it read, in their order; every other key is
    untouched and the collection reads as before. So the stored collection
    is unchanged when the collection read was the stored one, and only
    then. *)
Theorem updateAppointment_unknown_id appointmentId updates w items :
  rejects w = false -> rejects (next_call w) = false ->
  result storageService.getAppointments w = Ok (JArr items) ->
  JSON.well_formed (JArr items) = true ->
  Forall (fun apt => apt <> JNull) items ->
  Forall (fun apt => strict_eq_str (prop apt "id") appointmentId = false) items ->
  exists w',
    storageService.updateAppointment appointmentId updates w = (Ok tt, w')
    /\ disk w' !! STORAGE_KEYS.APPOINTMENTS = JSON.stringify (JArr items)
    /\ stored_array STORAGE_KEYS.APPOINTMENTS w' = Some items
    /\ (stored_array STORAGE_KEYS.APPOINTMENTS w' = stored_array STORAGE_KEYS.APPOINTMENTS w
        <-> stored_array STORAGE_KEYS.APPOINTMENTS w = Some items)
    /\ (forall k, k <> STORAGE_KEYS.APPOINTMENTS -> disk w' !! k = disk w !! k)
    /\ forall t fs,
         result storageService.getAppointments (with_faults fs (with_clock t w'))
         = Ok (JArr items).
Proof.
  intros Hr1 Hr2 Hread Hwf Hobj Hid.
  pose proof (getItem_keeps_store_working STORAGE_KEYS.APPOINTMENTS (Some (JArr [])) w
                Hr1 Hr2) as Hr.
  pose proof (getItem_keeps_disk STORAGE_KEYS.APPOINTMENTS (Some (JArr [])) w) as Hdisk.
  destruct (JSON_round_trip _ Hwf) as (text & Htext & Hparse).
  unfold storageService.updateAppointment, storageService.saveAppointments, bind.
  unfold result, storageService.getAppointments in Hread.
  unfold after in Hr, Hdisk. unfold storageService.getAppointments at 1.
  destruct (storageService.getItem STORAGE_KEYS.APPOINTMENTS (Some (JArr [])) w)
    as [r w1]. simpl in Hread, Hr, Hdisk. subst r. simpl.
  pose proof (Array_map_unmatched appointmentId updates items w1 Hobj Hid) as Hmap.
  unfold bind in Hmap. rewrite Hmap.
  rewrite setItem_eq, Htext, Hr.
  eexists. split; [reflexivity|].
  match goal with
  | |- _ /\ stored_array ?k ?w' = _ /\ _ =>
      assert (stored_array k w' = Some items) as Hafter
  end.
  { unfold stored_array, stored_value. simpl. rewrite lookup_insert_eq.
    assert (stored_text (Some text) = Some text) as -> by (by destruct text).
    by rewrite Hparse. }
  split; [|split; [|split; [|split]]].
  - simpl. by rewrite lookup_insert_eq.
  - exact Hafter.
  - rewrite Hafter. split; intros H; by rewrite H.
  - intros k Hk. simpl. by rewrite lookup_insert_ne, Hdisk.
  - intros t fs. unfold result, storageService.getAppointments.
    rewrite (getItem_cached _ _ _ {| data := JArr items; timestamp := clock w1;
                                     expiry := None |}); [done| |done].
    simpl. apply lookup_insert_eq.
Qed.

Lemma updateAppointment_unknown_id_witness :
  exists w',
    storageService.updateAppointment "a9" (JObj [("status", JStr "cancelled")])
      saved_appointments_world = (Ok tt, w')
    /\ disk w' !! STORAGE_KEYS.APPOINTMENTS = JSON.stringify (JArr confirmed_appointments)
    /\ stored_array STORAGE_KEYS.APPOINTMENTS w' = Some confirmed_appointments
    /\ (stored_array STORAGE_KEYS.APPOINTMENTS w'
        = stored_array STORAGE_KEYS.APPOINTMENTS saved_appointments_world
        <-> stored_array STORAGE_KEYS.APPOINTMENTS saved_appointments_world
            = Some confirmed_appointments)
    /\ (forall k, k <> STORAGE_KEYS.APPOINTMENTS ->
                  disk w' !! k = disk saved_appointments_world !! k)
    /\ forall t fs,
         result storageService.getAppointments (with_faults fs (with_clock t w'))
         = Ok (JArr confirmed_appointments).
Proof.
  apply (updateAppointment_unknown_id "a9" (JObj [("status", JStr "cancelled")])
           saved_appointments_world confirmed_appointments);
    try (vm_compute; reflexivity).
  - repeat constructor; discriminate.
  - repeat constructor.
Defined.

(** C8 as it was stated fails where the cache is ahead of AsyncStorage.
    After an [addAppointment] whose write was rejected, AsyncStorage holds
    [a1] alone and the cache [a1] and [a2]; an update of the id [a9], which
    neither has, raises no error and changes the stored collection to
    [a1] and [a2]. *)
Lemma unknown_id_update_changes_the_store :
  stored_array STORAGE_KEYS.APPOINTMENTS stale_appointments_world
  = Some [appointment "a1" "p1" "d1" "21/08/2025" "confirmed"]
  /\ result storageService.getAppointments stale_appointments_world
     = Ok (JArr [appointment "a1" "p1" "d1" "21/08/2025" "confirmed";
                 appointment "a2" "p2" "d1" "02/09/2025" "pending"])
  /\ result (storageService.updateAppointment "a9" (JObj [("status", JStr "cancelled")]))
       stale_appointments_world
     = Ok tt
  /\ stored_array STORAGE_KEYS.APPOINTMENTS
       (after (storageService.updateAppointment "a9" (JObj [("status", JStr "cancelled")]))
          stale_appointments_world)
     = Some [appointment "a1" "p1" "d1" "21/08/2025" "confirmed";
             appointment "a2" "p2" "d1" "02/09/2025" "pending"]
  /\ stored_array STORAGE_KEYS.APPOINTMENTS
       (after (storageService.updateAppointment "a9" (JObj [("status", JStr "cancelled")]))
          stale_appointments_world)
     <> stored_array STORAGE_KEYS.APPOINTMENTS stale_appointments_world.
Proof.
  split; [vm_compute; reflexivity|]. split; [vm_compute; reflexivity|].
  split; [vm_compute; reflexivity|]. split; [vm_compute; reflexivity|].
  vm_compute. discriminate.
Qed.

(** ** Expiry *)

(** C1 as stated fails: one minute after [setItem("k", 7, 1)] the entry has
    expired, and [getItem("k", "d")] returns 7 from AsyncStorage, not the
    default. *)
Lemma expired_entry_is_read_from_the_store :
  ~ (forall key value T d w w1,
       0 < T ->
       storageService.setItem key value (Some T) w = (Ok tt, w1) ->
       (forall t, t < clock w1 + T * 60 * 1000 ->
          result (storageService.getItem key d) (with_clock t w1) = Ok value)
       /\ (forall t, clock w1 + T * 60 * 1000 < t ->
             result (storageService.getItem key d) (with_clock t w1)
             = Ok (default_or_absent d))).
Proof.
  intros H.
  destruct (H "k" (JNum 7) 1 (Some (JStr "d")) fresh_world world_with_ttl) as [_ H2].
  - lia.
  - vm_compute. reflexivity.
  - specialize (H2 60001). vm_compute in H2. specialize (H2 eq_refl). discriminate.
Qed.

(** C1, amended: after a successful [setItem(K, V, T)] with [T > 0] at a
    clock reading that is not negative, [getItem(K)] strictly before [T]
    minutes have elapsed returns [V] from the cache; from [T] minutes on it
    drops the entry and reads AsyncStorage, and when that read goes through
    it returns [V] again, for a well-formed [V], and caches it without expiry. *)
Theorem ttl_entry_then_store key value T w w1 :
  0 < T -> 0 <= clock w ->
  storageService.setItem key value (Some T) w = (Ok tt, w1) ->
  (forall d t fs,
     t < clock w + T * 60 * 1000 ->
     storageService.getItem key d (with_faults fs (with_clock t w1))
     = (Ok value, with_faults fs (with_clock t w1)))
  /\ (forall d t fs,
        clock w + T * 60 * 1000 <= t ->
        JSON.well_formed value = true ->
        rejects (with_faults fs (with_clock t w1)) = false ->
        result (storageService.getItem key d) (with_faults fs (with_clock t w1)) = Ok value
        /\ cache (after (storageService.getItem key d) (with_faults fs (with_clock t w1)))
             !! key
           = Some {| data := value; timestamp := t; expiry := None |}).
Proof.
  intros HT Hclock Hset.
  apply setItem_ok_inv in Hset as (text & Htext & _ & ->).
  assert (storageService.expiry_of (Some T) (clock w) = Some (clock w + T * 60 * 1000))
    as Hexp.
  { unfold storageService.expiry_of. by rewrite (proj2 (Z.eqb_neq T 0)) by lia. }
  rewrite Hexp. split.
  - intros d t fs Ht. rewrite getItem_eq. unfold cache_hit. simpl.
    rewrite lookup_insert_eq. unfold storageService.still_valid. simpl.
    by rewrite (proj2 (Z.ltb_lt _ _) Ht), orb_true_r.
  - intros d t fs Ht Hwf Hread.
    destruct (JSON_round_trip value Hwf) as (text' & Htext' & Hparse).
    assert (text' = text) as -> by congruence.
    assert (stored_text (Some text) = Some text) as Hstored.
    { destruct text; [done|done]. }
    unfold result, after. rewrite getItem_eq. unfold cache_hit. simpl.
    rewrite lookup_insert_eq. unfold storageService.still_valid. simpl.
    rewrite (proj2 (Z.eqb_neq _ 0)) by lia.
    rewrite (proj2 (Z.ltb_ge _ _) Ht). simpl.
    rewrite Hread. simpl. rewrite lookup_insert_eq, Hstored, Hparse. simpl.
    by rewrite lookup_insert_eq.
Qed.

Lemma ttl_entry_then_store_witness :
  (forall d t fs,
     t < clock fresh_world + 1 * 60 * 1000 ->
     storageService.getItem "k" d (with_faults fs (with_clock t world_with_ttl))
     = (Ok (JNum 7), with_faults fs (with_clock t world_with_ttl)))
  /\ (forall d t fs,
        clock fresh_world + 1 * 60 * 1000 <= t ->
        JSON.well_formed (JNum 7) = true ->
        rejects (with_faults fs (with_clock t world_with_ttl)) = false ->
        result (storageService.getItem "k" d) (with_faults fs (with_clock t world_with_ttl))
        = Ok (JNum 7)
        /\ cache (after (storageService.getItem "k" d)
                    (with_faults fs (with_clock t world_with_ttl))) !! "k"
           = Some {| data := JNum 7; timestamp := t; expiry := None |}).
Proof.
  apply (ttl_entry_then_store "k" (JNum 7) 1 fresh_world world_with_ttl).
  - lia.
  - vm_compute. discriminate.
  - vm_compute. reflexivity.
Defined.

(** ** Backup and restore *)

Lemma quiet_rejects n w : quiet (S n) w -> rejects w = false.
Proof.
  unfold quiet, rejects. destruct (faults w) as [|[] fs]; simpl; try done.
  intros H. apply Forall_cons in H as [H _]. done.
Qed.

Lemma quiet_next n w : quiet (S n) w -> quiet n (next_call w).
Proof.
  unfold quiet, next_call. simpl. destruct (faults w) as [|b fs]; simpl.
  - intros _. by rewrite take_nil.
  - intros H. by apply Forall_cons in H as [_ H].
Qed.

Lemma quiet_weaken n w : quiet (S n) w -> quiet n w.
Proof.
  unfold quiet. intros H. rewrite List.Forall_forall in *.
  intros b Hb. apply H. apply list_elem_of_In in Hb. apply list_elem_of_In.
  apply elem_of_take in Hb as (i & Hi & Hlt). apply elem_of_take. exists i. split; [done|lia].
Qed.

(** One [getItem] in a world whose store works. *)
Lemma getItem_step key d w n :
  quiet (S n) w ->
  exists v w',
    storageService.getItem key d w = (Ok v, w')
    /\ quiet n w' /\ clock w' = clock w /\ disk w' = disk w
    /\ forall k, k <> key -> cache w' !! k = cache w !! k.
Proof.
  intros Hq. pose proof (quiet_rejects n w Hq) as Hr.
  pose proof (quiet_next n w Hq) as Hnext. pose proof (quiet_weaken n w Hq) as Hweak.
  rewrite getItem_eq. destruct (cache_hit key w) as [v|]; [by eauto 10|].
  simpl. rewrite Hr.
  assert (forall k, k <> key ->
            cache (next_call (evicted key w)) !! k = cache w !! k) as Hother.
  { intros k Hk. simpl. by rewrite lookup_delete_ne. }
  destruct (stored_text (disk w !! key)) as [text|].
  - destruct (JSON.parse text) as [v|]; eexists; eexists; (split; [reflexivity|]);
      repeat split; try done.
    intros k Hk. simpl. rewrite lookup_insert_ne by done. by rewrite lookup_delete_ne.
  - eexists; eexists; (split; [reflexivity|]); repeat split; done.
Qed.

(** One [setItem] without a TTL in a world whose store works. *)
Lemma setItem_step key value w n :
  quiet (S n) w -> JSON.serializable value = true ->
  exists w',
    storageService.setItem key value None w = (Ok tt, w')
    /\ quiet n w' /\ clock w' = clock w
    /\ cache w' = <[key := {| data := value; timestamp := clock w; expiry := None |}]>
                    (cache w).
Proof.
  intros Hq Hser. rewrite setItem_eq. unfold JSON.stringify. rewrite Hser.
  rewrite (quiet_rejects n w Hq). eexists. split; [reflexivity|].
  repeat split. apply (quiet_next n w Hq).
Qed.

Lemma bind_ok {A B} (m : M A) (k : A -> M B) w a w' :
  m w = (Ok a, w') -> bind m k w = k a w'.
Proof. unfold bind. by intros ->. Qed.

Lemma toISOString_in_range t :
  Date.in_range t = true -> exists stamp, Date.toISOString t = Some stamp.
Proof.
  intros H. unfold Date.toISOString. rewrite H.
  destruct (Date.civil_from_days (t / 86400000)) as [[y m] d]. eauto.
Qed.

Lemma js_or_serializable v d :
  JSON.serializable v = true -> JSON.serializable d = true ->
  JSON.serializable (js_or (Some v) d) = true.
Proof. intros Hv Hd. simpl. by destruct (truthy v). Qed.

(** The four writes of a restore, and what the cache holds after them. *)
Lemma restore_writes_ok a n u s w :
  quiet 4 w ->
  JSON.serializable a = true -> JSON.serializable n = true ->
  JSON.serializable u = true -> JSON.serializable s = true ->
  exists w',
    restore_writes a n u s w = (Ok tt, w')
    /\ (exists c, cache w' !! STORAGE_KEYS.APPOINTMENTS = Some c
                  /\ data c = a /\ expiry c = None)
    /\ (exists c, cache w' !! STORAGE_KEYS.NOTIFICATIONS = Some c
                  /\ data c = n /\ expiry c = None)
    /\ (exists c, cache w' !! STORAGE_KEYS.REGISTERED_USERS = Some c
                  /\ data c = u /\ expiry c = None)
    /\ (exists c, cache w' !! STORAGE_KEYS.APP_SETTINGS = Some c
                  /\ data c = s /\ expiry c = None).
Proof.
  intros Hq Ha Hn Hu Hs. unfold restore_writes.
  destruct (setItem_step STORAGE_KEYS.APPOINTMENTS a w 3 Hq Ha) as (w1 & E1 & Hq1 & _ & C1).
  destruct (setItem_step STORAGE_KEYS.NOTIFICATIONS n w1 2 Hq1 Hn) as (w2 & E2 & Hq2 & _ & C2).
  destruct (setItem_step STORAGE_KEYS.REGISTERED_USERS u w2 1 Hq2 Hu)
    as (w3 & E3 & Hq3 & _ & C3).
  destruct (setItem_step STORAGE_KEYS.APP_SETTINGS s w3 0 Hq3 Hs) as (w4 & E4 & _ & _ & C4).
  exists w4.
  rewrite (bind_ok _ _ _ _ _ E1), (bind_ok _ _ _ _ _ E2), (bind_ok _ _ _ _ _ E3).
  split; [exact E4|].
  rewrite C4, C3, C2, C1.
  split; [|split; [|split]]; eexists.
  - split;
      [by rewrite !lookup_insert_ne, lookup_insert_eq by (apply String.eqb_neq; reflexivity)
      |done].
  - split;
      [by rewrite !lookup_insert_ne, lookup_insert_eq by (apply String.eqb_neq; reflexivity)
      |done].
  - split;
      [by rewrite !lookup_insert_ne, lookup_insert_eq by (apply String.eqb_neq; reflexivity)
      |done].
  - split; [by rewrite lookup_insert_eq|done].
Qed.

Lemma well_formed_backup stamp a n u s :
  JSON.well_formed a = true -> JSON.well_formed n = true ->
  JSON.well_formed u = true -> JSON.well_formed s = true ->
  JSON.well_formed (backup_document stamp a n u s) = true.
Proof. intros Ha Hn Hu Hs. simpl. by rewrite Ha, Hn, Hu, Hs. Qed.

(** A read of another key in the world that one [getItem] left gives what it
    gave before. *)
Lemma getItem_after_other key d w w' n :
  quiet (S n) w -> quiet (S n) w' ->
  clock w' = clock w -> disk w' = disk w -> cache w' !! key = cache w !! key ->
  result (storageService.getItem key d) w' = result (storageService.getItem key d) w.
Proof.
  intros Hq Hq' Hclock Hdisk Hcache. apply getItem_result_local; [done| |done|].
  - by rewrite (quiet_rejects n w Hq), (quiet_rejects n w' Hq').
  - by rewrite Hdisk.
Qed.

(** C9 as stated fails: in the empty store the settings key reads as [null],
    and as the default settings through [getAppSettings]; after
    [restoreFromBackup(createBackup())] it reads as the empty object. *)
Lemma backup_restore_changes_absent_settings :
  ~ (forall w text w1 w2 key d,
       In key [STORAGE_KEYS.APPOINTMENTS; STORAGE_KEYS.NOTIFICATIONS;
               STORAGE_KEYS.REGISTERED_USERS; STORAGE_KEYS.APP_SETTINGS] ->
       storageService.createBackup w = (Ok text, w1) ->
       storageService.restoreFromBackup text w1 = (Ok tt, w2) ->
       result (storageService.getItem key d) w2 = result (storageService.getItem key d) w).
Proof.
  intros H.
  pose (text := match result storageService.createBackup fresh_world with
                | Ok t => t
                | Throw _ => ""
                end).
  specialize (H fresh_world text (after storageService.createBackup fresh_world)
                (after (storageService.restoreFromBackup text)
                   (after storageService.createBackup fresh_world))
                STORAGE_KEYS.APP_SETTINGS None).
  assert (result (storageService.getItem STORAGE_KEYS.APP_SETTINGS None)
            (after (storageService.restoreFromBackup text)
               (after storageService.createBackup fresh_world)) = Ok (JObj [])) as Hafter.
  { vm_compute. reflexivity. }
  rewrite Hafter in H.
  assert (Ok (JObj []) = result (storageService.getItem STORAGE_KEYS.APP_SETTINGS None)
                           fresh_world -> False) as Hne.
  { vm_compute. discriminate. }
  apply Hne, H.
  - simpl. auto.
  - vm_compute. reflexivity.
  - vm_compute. reflexivity.
Qed.

(** The same on the reader of the repository: the default settings before,
    the empty object after. *)
Example getAppSettings_after_restore :
  result storageService.getAppSettings fresh_world = Ok storageService.default_settings
  /\ exists text,
       result storageService.createBackup fresh_world = Ok text
       /\ result storageService.getAppSettings
            (after (storageService.restoreFromBackup text)
               (after storageService.createBackup fresh_world)) = Ok (JObj []).
Proof.
  split; [vm_compute; reflexivity|].
  eexists. split; [vm_compute; reflexivity|].
  vm_compute. reflexivity.
Qed.

(** C9, amended: when the store accepts the calls and the four covered keys
    read, with the defaults of [createBackup], as well-formed values,
    [restoreFromBackup(createBackup())] succeeds and each covered key then
    reads, from the cache and whatever the default, as the value it read as
    immediately before the backup when that value is truthy, and as [[]] or
    [{}] when it was falsy. *)
Theorem backup_restore_round_trip w a n u s :
  quiet 8 w -> Date.in_range (clock w) = true ->
  result (storageService.getItem STORAGE_KEYS.APPOINTMENTS (Some (JArr []))) w = Ok a ->
  result (storageService.getItem STORAGE_KEYS.NOTIFICATIONS (Some (JArr []))) w = Ok n ->
  result (storageService.getItem STORAGE_KEYS.REGISTERED_USERS (Some (JArr []))) w = Ok u ->
  result (storageService.getItem STORAGE_KEYS.APP_SETTINGS (Some (JObj []))) w = Ok s ->
  JSON.well_formed a = true -> JSON.well_formed n = true ->
  JSON.well_formed u = true -> JSON.well_formed s = true ->
  exists text w1 w2,
    storageService.createBackup w = (Ok text, w1)
    /\ storageService.restoreFromBackup text w1 = (Ok tt, w2)
    /\ forall d t fs,
         result (storageService.getItem STORAGE_KEYS.APPOINTMENTS d)
           (with_faults fs (with_clock t w2)) = Ok (js_or (Some a) (JArr []))
         /\ result (storageService.getItem STORAGE_KEYS.NOTIFICATIONS d)
              (with_faults fs (with_clock t w2)) = Ok (js_or (Some n) (JArr []))
         /\ result (storageService.getItem STORAGE_KEYS.REGISTERED_USERS d)
              (with_faults fs (with_clock t w2)) = Ok (js_or (Some u) (JArr []))
         /\ result (storageService.getItem STORAGE_KEYS.APP_SETTINGS d)
              (with_faults fs (with_clock t w2)) = Ok (js_or (Some s) (JObj [])).
Proof.
  intros Hq Hrange Ha Hn Hu Hs Hwa Hwn Hwu Hws.
  assert (forall k : nat, (k <= 8)%nat -> quiet k w) as Hqk.
  { intros k Hk. unfold quiet in *. rewrite List.Forall_forall in *.
    intros b Hb. apply Hq. apply list_elem_of_In in Hb. apply list_elem_of_In.
    apply elem_of_take in Hb as (i & Hi & Hlt). apply elem_of_take.
    exists i. split; [done|lia]. }
  (* the four reads of createBackup *)
  destruct (getItem_step STORAGE_KEYS.APPOINTMENTS (Some (JArr [])) w 7 Hq)
    as (a' & wa & Ea & Hqa & Hca & Hda & Hka).
  assert (a' = a) as ->.
  { unfold result in Ha. rewrite Ea in Ha. by injection Ha. }
  destruct (getItem_step STORAGE_KEYS.NOTIFICATIONS (Some (JArr [])) wa 6 Hqa)
    as (n' & wn & En & Hqn & Hcn & Hdn & Hkn).
  assert (n' = n) as ->.
  { pose proof (getItem_after_other STORAGE_KEYS.NOTIFICATIONS (Some (JArr [])) w wa 6
                  (Hqk 7%nat ltac:(lia)) Hqa Hca Hda) as Hloc.
    unfold result in Hloc, Hn. rewrite En, Hn in Hloc.
    assert (Ok n' = Ok n) as [= ->]; [|done].
    apply Hloc, Hka. apply String.eqb_neq. reflexivity. }
  destruct (getItem_step STORAGE_KEYS.REGISTERED_USERS (Some (JArr [])) wn 5 Hqn)
    as (u' & wu & Eu & Hqu & Hcu & Hdu & Hku).
  assert (u' = u) as ->.
  { pose proof (getItem_after_other STORAGE_KEYS.REGISTERED_USERS (Some (JArr [])) w wn 5
                  (Hqk 6%nat ltac:(lia)) Hqn) as Hloc.
    unfold result in Hloc, Hu. rewrite Eu, Hu in Hloc.
    assert (Ok u' = Ok u) as [= ->]; [|done].
    apply Hloc; [congruence|congruence|].
    rewrite Hkn, Hka; [done| |]; apply String.eqb_neq; reflexivity. }
  destruct (getItem_step STORAGE_KEYS.APP_SETTINGS (Some (JObj [])) wu 4 Hqu)
    as (s' & ws & Es & Hqs & Hcs & Hds & Hks).
  assert (s' = s) as ->.
  { pose proof (getItem_after_other STORAGE_KEYS.APP_SETTINGS (Some (JObj [])) w wu 4
                  (Hqk 5%nat ltac:(lia)) Hqu) as Hloc.
    unfold result in Hloc, Hs. rewrite Es, Hs in Hloc.
    assert (Ok s' = Ok s) as [= ->]; [|done].
    apply Hloc; [congruence|congruence|].
    rewrite Hku, Hkn, Hka; [done| | |]; apply String.eqb_neq; reflexivity. }
  (* the document and its text *)
  destruct (toISOString_in_range (clock w) Hrange) as [stamp Hstamp].
  destruct (JSON_round_trip (backup_document stamp a n u s)
              (well_formed_backup stamp a n u s Hwa Hwn Hwu Hws))
    as (text & Htext & Hparse).
  (* the four writes of restoreFromBackup *)
  destruct (restore_writes_ok (js_or (Some a) (JArr [])) (js_or (Some n) (JArr []))
              (js_or (Some u) (JArr [])) (js_or (Some s) (JObj [])) ws Hqs)
    as (w2 & Hwrites & (ca & Hca1 & Hca2 & Hca3) & (cn & Hcn1 & Hcn2 & Hcn3)
        & (cu & Hcu1 & Hcu2 & Hcu3) & (cs & Hcs1 & Hcs2 & Hcs3));
    try (apply js_or_serializable; [by apply well_formed_serializable|done]).
  exists text, ws, w2. split; [|split].
  - unfold storageService.createBackup, try_catch, Date_toISOString, Date_now, of_option.
    unfold bind at 1 2. simpl. rewrite Hstamp. simpl.
    rewrite (bind_ok _ _ _ _ _ Ea), (bind_ok _ _ _ _ _ En), (bind_ok _ _ _ _ _ Eu),
      (bind_ok _ _ _ _ _ Es).
    unfold JSON_stringify, of_option. fold (backup_document stamp a n u s).
    by rewrite Htext.
  - assert (storageService.restoreFromBackup text ws
            = try_catch
                (restore_writes (js_or (Some a) (JArr [])) (js_or (Some n) (JArr []))
                   (js_or (Some u) (JArr [])) (js_or (Some s) (JObj [])))
                (fun error =>
                   let* _ := console_error "Erro ao restaurar backup:" error in
                   throw error) ws) as ->.
    { unfold storageService.restoreFromBackup, try_catch, JSON_parse, of_option.
      unfold bind at 1. rewrite Hparse. reflexivity. }
    unfold try_catch. by rewrite Hwrites.
  - intros d t fs. unfold result.
    rewrite (getItem_cached _ d _ ca), (getItem_cached _ d _ cn),
      (getItem_cached _ d _ cu), (getItem_cached _ d _ cs) by done.
    simpl. by rewrite Hca2, Hcn2, Hcu2, Hcs2.
Qed.

Lemma backup_restore_round_trip_witness :
  exists text w1 w2,
    storageService.createBackup populated_world = (Ok text, w1)
    /\ storageService.restoreFromBackup text w1 = (Ok tt, w2)
    /\ forall d t fs,
         result (storageService.getItem STORAGE_KEYS.APPOINTMENTS d)
           (with_faults fs (with_clock t w2))
         = Ok (js_or (Some (JArr confirmed_appointments)) (JArr []))
         /\ result (storageService.getItem STORAGE_KEYS.NOTIFICATIONS d)
              (with_faults fs (with_clock t w2))
            = Ok (js_or (Some (JArr sample_notifications)) (JArr []))
         /\ result (storageService.getItem STORAGE_KEYS.REGISTERED_USERS d)
              (with_faults fs (with_clock t w2))
            = Ok (js_or (Some sample_users) (JArr []))
         /\ result (storageService.getItem STORAGE_KEYS.APP_SETTINGS d)
              (with_faults fs (with_clock t w2))
            = Ok (js_or (Some sample_settings) (JObj [])).
Proof.
  apply (backup_restore_round_trip populated_world (JArr confirmed_appointments)
           (JArr sample_notifications) sample_users sample_settings);
    try (vm_compute; reflexivity).
  unfold quiet. vm_compute. constructor.
Defined.

(** * Further properties of the services *)

(** ** The generic storage service, continued *)

(** X1: [getItem] fails soft. When no valid cache entry answers and the
    read of AsyncStorage is rejected or finds text that is not JSON (text
    that the grammar of JSON refuses), it returns [defaultValue || null],
    logs one error on the console, leaves the store as it was and caches
    nothing under the key. *)
Theorem getItem_swallows_errors key d w :
  cache_hit key w = None ->
  rejects w = true \/ stored_garbage key w ->
  exists e,
    storageService.getItem key d w
    = (Ok (js_or d JNull),
       log (ConsoleError ("Erro ao carregar " +:+ key +:+ ":") e)
         (next_call (evicted key w)))
    /\ disk (after (storageService.getItem key d) w) = disk w
    /\ cache (after (storageService.getItem key d) w) !! key = None.
Proof.
  intros Hmiss Herr. unfold after. rewrite getItem_eq, Hmiss. simpl.
  destruct (rejects w) eqn:Hr.
  - exists StorageFailure. simpl. by rewrite lookup_delete_eq.
  - destruct Herr as [|(text & -> & ->%not_valid_no_parse)]; [done|].
    exists SyntaxError. simpl. by rewrite lookup_delete_eq.
Qed.

Lemma getItem_swallows_errors_witness :
  exists e,
    storageService.getItem "k" (Some (JArr [])) broken_text_world
    = (Ok (js_or (Some (JArr [])) JNull),
       log (ConsoleError ("Erro ao carregar " +:+ "k" +:+ ":") e)
         (next_call (evicted "k" broken_text_world)))
    /\ disk (after (storageService.getItem "k" (Some (JArr []))) broken_text_world)
       = disk broken_text_world
    /\ cache (after (storageService.getItem "k" (Some (JArr []))) broken_text_world) !! "k"
       = None.
Proof.
  apply (getItem_swallows_errors "k" (Some (JArr [])) broken_text_world).
  - vm_compute. reflexivity.
  - right. exists "{oops". split; vm_compute; reflexivity.
Defined.

(** X2: a value read from AsyncStorage is cached without expiry. Once
    [getItem] has parsed the stored text, every later [getItem] of the key
    returns that value, at any clock reading, also when AsyncStorage rejects
    and also when the text in AsyncStorage has been changed behind the
    service. *)
Theorem getItem_serves_stale_value key d w text v :
  cache_hit key w = None -> rejects w = false ->
  stored_text (disk w !! key) = Some text -> JSON.parse text = Some v ->
  result (storageService.getItem key d) w = Ok v
  /\ forall d' t fs store,
       result (storageService.getItem key d')
         (with_disk store (later t fs (after (storageService.getItem key d) w)))
       = Ok v.
Proof.
  intros Hmiss Hr Hstored Hparse. unfold result, after.
  rewrite (getItem_eq key d w), Hmiss. simpl. rewrite Hr, Hstored, Hparse.
  split; [done|]. intros d' t fs store.
  rewrite (getItem_cached key d' _ {| data := v; timestamp := clock w; expiry := None |});
    [done| |done].
  simpl. apply lookup_insert_eq.
Qed.

Lemma getItem_serves_stale_value_witness :
  result (storageService.getItem "k" None)
    (with_disk (<["k" := "[1,2]"]> ∅) fresh_world) = Ok (JArr [JNum 1; JNum 2])
  /\ forall d' t fs store,
       result (storageService.getItem "k" d')
         (with_disk store
            (later t fs
               (after (storageService.getItem "k" None)
                  (with_disk (<["k" := "[1,2]"]> ∅) fresh_world))))
       = Ok (JArr [JNum 1; JNum 2]).
Proof.
  apply (getItem_serves_stale_value "k" None
           (with_disk (<["k" := "[1,2]"]> ∅) fresh_world) "[1,2]");
    vm_compute; reflexivity.
Defined.

(** X3: [clearCache] touches the cache only, and the next [getItem] of any
    key goes to AsyncStorage: it returns the value of the stored text, or
    [defaultValue || null] when nothing is stored or the text is not JSON.
    The stored text is one of those the model has a value for whenever it
    is JSON. *)
Theorem clearCache_forces_store_read key d w :
  rejects w = false ->
  stored_within_model key w ->
  storageService.clearCache w = (Ok tt, with_cache ∅ w)
  /\ result (storageService.getItem key d) (after storageService.clearCache w)
     = Ok (match stored_text (disk w !! key) with
           | Some text =>
               if JSON.valid text then default JNull (JSON.parse text)
               else js_or d JNull
           | None => js_or d JNull
           end).
Proof.
  intros Hr Hmodel. split; [done|].
  unfold result, after. rewrite getItem_eq. unfold cache_hit. simpl.
  change (rejects (with_cache ∅ w)) with (rejects w). rewrite lookup_empty, Hr.
  destruct (stored_text (disk w !! key)) as [text|] eqn:Htext; [|done].
  destruct (JSON.parse text) as [v|] eqn:Hparse.
  - by rewrite (parse_is_valid _ _ Hparse).
  - by rewrite (within_model_no_parse text (Hmodel text Htext) Hparse).
Qed.

Lemma clearCache_forces_store_read_witness :
  storageService.clearCache world_with_k = (Ok tt, with_cache ∅ world_with_k)
  /\ result (storageService.getItem "k" None) (after storageService.clearCache world_with_k)
     = Ok (match stored_text (disk world_with_k !! "k") with
           | Some text =>
               if JSON.valid text then default JNull (JSON.parse text)
               else js_or None JNull
           | None => js_or None JNull
           end).
Proof.
  apply (clearCache_forces_store_read "k" None world_with_k).
  - vm_compute. reflexivity.
  - intros text Htext _. vm_compute in Htext. injection Htext as <-.
    vm_compute. by eexists.
Defined.

(** X4: after a successful [clearAll] nothing is left: every key, also one
    that was cached, reads as [defaultValue || null]. *)
Theorem clearAll_empties_everything w w1 :
  storageService.clearAll w = (Ok tt, w1) ->
  disk w1 = ∅ /\ cache w1 = ∅
  /\ forall key d t fs,
       result (storageService.getItem key d) (later t fs w1) = Ok (js_or d JNull).
Proof.
  unfold storageService.clearAll, try_catch, bind, AsyncStorage.clear, AsyncStorage.call.
  destruct (rejects w); simpl; [done|]. intros [= <-]. simpl.
  repeat split. intros key d t fs. apply getItem_absent; simpl; apply lookup_empty.
Qed.

Lemma clearAll_empties_everything_witness :
  disk (after storageService.clearAll world_with_k) = ∅
  /\ cache (after storageService.clearAll world_with_k) = ∅
  /\ forall key d t fs,
       result (storageService.getItem key d)
         (later t fs (after storageService.clearAll world_with_k))
       = Ok (js_or d JNull).
Proof.
  apply (clearAll_empties_everything world_with_k). vm_compute. reflexivity.
Defined.

(** X5: when AsyncStorage rejects, [removeItem] and [clearAll] throw to the
    caller and change neither the cache nor the store, so every key reads
    as before. *)
Theorem rejected_removal_changes_nothing key w :
  rejects w = true ->
  (exists w1, storageService.removeItem key w = (Throw StorageFailure, w1)
              /\ cache w1 = cache w /\ disk w1 = disk w)
  /\ (exists w1, storageService.clearAll w = (Throw StorageFailure, w1)
                 /\ cache w1 = cache w /\ disk w1 = disk w).
Proof.
  intros Hr. split.
  - unfold storageService.removeItem, try_catch, bind, AsyncStorage.removeItem,
      AsyncStorage.call. rewrite Hr. simpl. by eexists.
  - unfold storageService.clearAll, try_catch, bind, AsyncStorage.clear,
      AsyncStorage.call. rewrite Hr. simpl. by eexists.
Qed.

Lemma rejected_removal_changes_nothing_witness :
  (exists w1, storageService.removeItem "k" (with_faults [true] world_with_k)
              = (Throw StorageFailure, w1)
              /\ cache w1 = cache (with_faults [true] world_with_k)
              /\ disk w1 = disk (with_faults [true] world_with_k))
  /\ (exists w1, storageService.clearAll (with_faults [true] world_with_k)
                 = (Throw StorageFailure, w1)
                 /\ cache w1 = cache (with_faults [true] world_with_k)
                 /\ disk w1 = disk (with_faults [true] world_with_k)).
Proof.
  apply (rejected_removal_changes_nothing "k" (with_faults [true] world_with_k)).
  vm_compute. reflexivity.
Defined.

(** X6: [setItem] and [removeItem] on one key, whether they succeed or fail,
    never change what another key reads as. *)
Theorem other_keys_untouched key key' value ttl d w t fs :
  key' <> key ->
  result (storageService.getItem key' d)
    (later t fs (after (storageService.setItem key value ttl) w))
  = result (storageService.getItem key' d) (later t fs w)
  /\ result (storageService.getItem key' d)
       (later t fs (after (storageService.removeItem key) w))
     = result (storageService.getItem key' d) (later t fs w).
Proof.
  intros Hne. split; apply getItem_result_local; try done.
  - unfold after. rewrite setItem_eq.
    destruct (JSON.stringify value); [|done].
    destruct (rejects w); simpl; [done|]. by rewrite lookup_insert_ne.
  - unfold after. rewrite setItem_eq.
    destruct (JSON.stringify value); [|done].
    destruct (rejects w); simpl; [done|]. by rewrite lookup_insert_ne.
  - unfold after, storageService.removeItem, try_catch, bind, AsyncStorage.removeItem,
      AsyncStorage.call.
    destruct (rejects w); simpl; [done|]. by rewrite lookup_delete_ne.
  - unfold after, storageService.removeItem, try_catch, bind, AsyncStorage.removeItem,
      AsyncStorage.call.
    destruct (rejects w); simpl; [done|]. by rewrite lookup_delete_ne.
Qed.

Lemma other_keys_untouched_witness :
  result (storageService.getItem "k" None)
    (later 5 [] (after (storageService.setItem "j" (JNum 1) (Some 3)) world_with_k))
  = result (storageService.getItem "k" None) (later 5 [] world_with_k)
  /\ result (storageService.getItem "k" None)
       (later 5 [] (after (storageService.removeItem "j") world_with_k))
     = result (storageService.getItem "k" None) (later 5 [] world_with_k).
Proof.
  apply (other_keys_untouched "j" "k" (JNum 1) (Some 3) None world_with_k 5 []).
  apply String.eqb_neq. reflexivity.
Defined.

(** X7: a TTL of 0 minutes is no TTL. After a successful
    [setItem(K, V, 0)] the entry never expires: [getItem(K)] returns [V] at
    every clock reading. *)
Theorem zero_ttl_never_expires key value d w w1 t fs :
  storageService.setItem key value (Some 0) w = (Ok tt, w1) ->
  storageService.getItem key d (later t fs w1) = (Ok value, later t fs w1).
Proof.
  intros Hset. apply setItem_ok_inv in Hset as (text & _ & _ & ->).
  apply (getItem_cached key d _ {| data := value; timestamp := clock w; expiry := None |});
    [|done].
  simpl. apply lookup_insert_eq.
Qed.

Lemma zero_ttl_never_expires_witness :
  storageService.getItem "k" None
    (later 999999999 [true] (after (storageService.setItem "k" (JNum 7) (Some 0)) fresh_world))
  = (Ok (JNum 7),
     later 999999999 [true]
       (after (storageService.setItem "k" (JNum 7) (Some 0)) fresh_world)).
Proof.
  apply (zero_ttl_never_expires "k" (JNum 7) None fresh_world). vm_compute. reflexivity.
Defined.

(** ** The repositories of storage.ts *)

Lemma Array_filter_get_prop k (f : option JSValue -> bool) items w :
  Forall (fun n => n <> JNull) items ->
  Array_filter (fun n => let* x := get_prop n k in ret (f x)) items w
  = (Ok (List.filter (fun n => f (prop n k)) items), w).
Proof.
  induction 1 as [|n items Hn _ IH]; [done|].
  simpl. unfold bind in *. rewrite (get_prop_not_null n k w Hn). simpl.
  by rewrite IH.
Qed.

Lemma Array_map_get_prop k (f : JSValue -> option JSValue -> JSValue) items w :
  Forall (fun n => n <> JNull) items ->
  Array_map (fun n => let* x := get_prop n k in ret (f n x)) items w
  = (Ok (map (fun n => f n (prop n k)) items), w).
Proof.
  induction 1 as [|n items Hn _ IH]; [done|].
  simpl. unfold bind in *. rewrite (get_prop_not_null n k w Hn). simpl.
  by rewrite IH.
Qed.

(** A write without TTL that goes through, and what is read after it. *)
Lemma setItem_succeeds key value w :
  rejects w = false -> JSON.serializable value = true ->
  exists w',
    storageService.setItem key value None w = (Ok tt, w')
    /\ disk w' !! key = JSON.stringify value
    /\ forall d t fs, result (storageService.getItem key d) (later t fs w') = Ok value.
Proof.
  intros Hr Hser. rewrite setItem_eq. unfold JSON.stringify. rewrite Hser, Hr.
  eexists. split; [reflexivity|]. split.
  - simpl. by rewrite lookup_insert_eq.
  - intros d t fs. unfold result.
    rewrite (getItem_cached key d _ {| data := value; timestamp := clock w;
                                       expiry := None |}); [done| |done].
    simpl. apply lookup_insert_eq.
Qed.

Lemma serializable_filter (p : JSValue -> bool) items :
  JSON.serializable (JArr items) = true ->
  JSON.serializable (JArr (List.filter p items)) = true.
Proof.
  simpl. intros H%forallb_Forall. apply Forall_forallb.
  rewrite List.Forall_forall in *. intros x [Hx _]%List.filter_In. by apply H.
Qed.

(** X8: [deleteAppointment(id)] rewrites the collection without the
    appointments whose [id] is the given one, keeping the others in order;
    with the read and the write going through it raises no error, and the
    store and later reads hold exactly the kept appointments. *)
Theorem deleteAppointment_removes_matching appointmentId w items :
  rejects w = false -> rejects (next_call w) = false ->
  result storageService.getAppointments w = Ok (JArr items) ->
  JSON.serializable (JArr items) = true ->
  Forall (fun apt => apt <> JNull) items ->
  exists w',
    storageService.deleteAppointment appointmentId w = (Ok tt, w')
    /\ disk w' !! STORAGE_KEYS.APPOINTMENTS
       = JSON.stringify (JArr (without_id appointmentId items))
    /\ forall t fs,
         result storageService.getAppointments (later t fs w')
         = Ok (JArr (without_id appointmentId items)).
Proof.
  intros Hr1 Hr2 Hread Hser Hobj.
  pose proof (getItem_keeps_store_working STORAGE_KEYS.APPOINTMENTS (Some (JArr [])) w
                Hr1 Hr2) as Hr.
  unfold storageService.deleteAppointment, storageService.saveAppointments, bind.
  unfold result, storageService.getAppointments in Hread.
  unfold after in Hr. unfold storageService.getAppointments at 1.
  destruct (storageService.getItem STORAGE_KEYS.APPOINTMENTS (Some (JArr [])) w)
    as [r w1]. simpl in Hread, Hr. subst r. simpl.
  pose proof (Array_filter_get_prop "id"
                (fun id => negb (strict_eq_str id appointmentId)) items w1 Hobj) as Hf.
  unfold bind in Hf. rewrite Hf.
  destruct (setItem_succeeds STORAGE_KEYS.APPOINTMENTS
              (JArr (without_id appointmentId items)) w1 Hr
              (serializable_filter _ items Hser)) as (w' & Hset & Hdisk & Hget).
  exists w'. split; [exact Hset|]. split; [exact Hdisk|].
  intros t fs. apply Hget.
Qed.

Lemma deleteAppointment_removes_matching_witness :
  exists w',
    storageService.deleteAppointment "a2" saved_appointments_world = (Ok tt, w')
    /\ disk w' !! STORAGE_KEYS.APPOINTMENTS
       = JSON.stringify (JArr (without_id "a2" confirmed_appointments))
    /\ forall t fs,
         result storageService.getAppointments (later t fs w')
         = Ok (JArr (without_id "a2" confirmed_appointments)).
Proof.
  apply (deleteAppointment_removes_matching "a2" saved_appointments_world
           confirmed_appointments); try (vm_compute; reflexivity).
  repeat constructor; discriminate.
Defined.

Lemma assoc_get_set k k' v fields :
  assoc_get k (assoc_set k' v fields)
  = if String.eqb k k' then Some v else assoc_get k fields.
Proof.
  induction fields as [|[k0 v0] fields IH]; simpl.
  - by destruct (String.eqb k k').
  - destruct (String.eqb k' k0) eqn:E0; simpl.
    + apply String.eqb_eq in E0 as ->. by destruct (String.eqb k k0).
    + destruct (String.eqb k k0) eqn:E1; [|done].
      apply String.eqb_eq in E1 as ->.
      destruct (String.eqb k0 k') eqn:E2; [|done].
      apply String.eqb_eq in E2 as ->. by rewrite String.eqb_refl in E0.
Qed.

(** In [{...a, ...b}] a property of [b] wins and every other property of
    [a] stays. *)
Lemma assoc_get_spread k b : forall a,
  NoDup (map fst b) ->
  assoc_get k (spread a b)
  = match assoc_get k b with
    | Some v => Some v
    | None => assoc_get k a
    end.
Proof.
  unfold spread. induction b as [|[k' v'] b IH]; intros a Hnd; [done|].
  apply NoDup_cons in Hnd as [Hk' Hnd]. simpl. rewrite (IH _ Hnd), assoc_get_set.
  destruct (String.eqb k k') eqn:E.
  - apply String.eqb_eq in E as ->.
    assert (assoc_get k' b = None) as ->; [|done].
    clear -Hk'. induction b as [|[k0 v0] b IH]; [done|]. simpl in *.
    apply not_elem_of_cons in Hk' as [Hne Hk'].
    destruct (String.eqb k' k0) eqn:E; [by apply String.eqb_eq in E|]. by apply IH.
  - done.
Qed.

Lemma serializable_assoc_set k v fields :
  JSON.serializable v = true ->
  forallb (fun kv => JSON.serializable (snd kv)) fields = true ->
  forallb (fun kv => JSON.serializable (snd kv)) (assoc_set k v fields) = true.
Proof.
  intros Hv. induction fields as [|[k0 v0] fields IH]; simpl; [by rewrite Hv|].
  intros [H0 Hrest]%andb_true_iff.
  destruct (String.eqb k k0); simpl; [by rewrite Hv, Hrest|].
  by rewrite H0, IH.
Qed.

Lemma serializable_spread b : forall a,
  forallb (fun kv => JSON.serializable (snd kv)) a = true ->
  forallb (fun kv => JSON.serializable (snd kv)) b = true ->
  JSON.serializable (JObj (spread a b)) = true.
Proof.
  unfold spread. induction b as [|[k v] b IH]; intros a Ha Hb; [done|].
  simpl in Hb. apply andb_true_iff in Hb as [Hv Hb]. simpl.
  apply (IH (assoc_set k v a)); [|done]. by apply serializable_assoc_set.
Qed.

Lemma serializable_indexed {A} (f : A -> JSValue) l : forall i,
  Forall (fun x => JSON.serializable (f x) = true) l ->
  forallb (fun kv => JSON.serializable (snd kv)) (indexed f i l) = true.
Proof.
  induction l as [|x l IH]; intros i Hall; [done|].
  apply Forall_cons in Hall as [Hx Hall]. simpl. by rewrite Hx, IH.
Qed.

Lemma serializable_spread_props v :
  JSON.serializable v = true ->
  forallb (fun kv => JSON.serializable (snd kv)) (spread_props v) = true.
Proof.
  destruct v as [|b|n|n|s|items|fields]; try done.
  - intros _. apply serializable_indexed. by apply Forall_forall.
  - simpl. intros H%forallb_Forall. by apply serializable_indexed.
Qed.

Lemma serializable_merge_update id updates items :
  JSON.serializable updates = true ->
  JSON.serializable (JArr items) = true ->
  JSON.serializable (JArr (map (merge_update id updates) items)) = true.
Proof.
  intros Hu. simpl. intros H%forallb_Forall. apply Forall_forallb.
  apply Forall_map. eapply Forall_impl; [exact H|]. simpl. intros apt Hapt.
  unfold merge_update. destruct (strict_eq_str (prop apt "id") id); [|done].
  apply serializable_spread; by apply serializable_spread_props.
Qed.

(** X9: [updateAppointment(id, updates)] replaces each appointment whose
    [id] is the given one by [{...appointment, ...updates}] and passes the
    others through; in a replaced appointment every property that the
    spread of [updates] copies (the properties of an object, the elements of
    an array under their indices, the characters of a string) has the new
    value and every other property its old one. *)
Theorem updateAppointment_merges_matching appointmentId updates w items :
  rejects w = false -> rejects (next_call w) = false ->
  result storageService.getAppointments w = Ok (JArr items) ->
  JSON.serializable (JArr items) = true -> JSON.serializable updates = true ->
  NoDup (map fst (spread_props updates)) ->
  Forall (fun apt => apt <> JNull) items ->
  exists w',
    storageService.updateAppointment appointmentId updates w = (Ok tt, w')
    /\ (forall t fs,
          result storageService.getAppointments (later t fs w')
          = Ok (JArr (map (merge_update appointmentId updates) items)))
    /\ forall apt k,
         strict_eq_str (prop apt "id") appointmentId = true ->
         prop (merge_update appointmentId updates apt) k
         = match assoc_get k (spread_props updates) with
           | Some v => Some v
           | None => prop apt k
           end.
Proof.
  intros Hr1 Hr2 Hread Hser Hupd Hnd Hobj.
  pose proof (getItem_keeps_store_working STORAGE_KEYS.APPOINTMENTS (Some (JArr [])) w
                Hr1 Hr2) as Hr.
  unfold storageService.updateAppointment, storageService.saveAppointments, bind.
  unfold result, storageService.getAppointments in Hread.
  unfold after in Hr. unfold storageService.getAppointments at 1.
  destruct (storageService.getItem STORAGE_KEYS.APPOINTMENTS (Some (JArr [])) w)
    as [r w1]. simpl in Hread, Hr. subst r. simpl.
  pose proof (Array_map_get_prop "id"
                (fun apt id =>
                   if strict_eq_str id appointmentId
                   then JObj (spread (spread_props apt) (spread_props updates))
                   else apt) items w1 Hobj) as Hmap.
  unfold bind in Hmap. rewrite Hmap.
  destruct (setItem_succeeds STORAGE_KEYS.APPOINTMENTS
              (JArr (map (merge_update appointmentId updates) items)) w1 Hr
              (serializable_merge_update _ _ _ Hupd Hser)) as (w' & Hset & _ & Hget).
  exists w'. split; [exact Hset|]. split; [intros t fs; apply Hget|].
  intros apt k Hmatch. unfold merge_update. rewrite Hmatch.
  destruct apt as [|b|n|n|s|elements|fields]; try done.
  change (prop (JObj ?f) k) with (assoc_get k f).
  by rewrite (assoc_get_spread k _ _ Hnd).
Qed.

Lemma updateAppointment_merges_matching_witness :
  exists w',
    storageService.updateAppointment "a2" (JObj [("status", JStr "cancelled")])
      saved_appointments_world = (Ok tt, w')
    /\ (forall t fs,
          result storageService.getAppointments (later t fs w')
          = Ok (JArr (map (merge_update "a2" (JObj [("status", JStr "cancelled")]))
                        confirmed_appointments)))
    /\ forall apt k,
         strict_eq_str (prop apt "id") "a2" = true ->
         prop (merge_update "a2" (JObj [("status", JStr "cancelled")]) apt) k
         = match assoc_get k (spread_props (JObj [("status", JStr "cancelled")])) with
           | Some v => Some v
           | None => prop apt k
           end.
Proof.
  apply (updateAppointment_merges_matching "a2" (JObj [("status", JStr "cancelled")])
           saved_appointments_world confirmed_appointments);
    try (vm_compute; reflexivity).
  - repeat constructor. set_solver.
  - repeat constructor; discriminate.
Defined.

(** An array given for the updates is spread by its indices. *)
Example updateAppointment_spreads_an_array :
  prop (merge_update "a2" (JArr [JStr "x"])
          (appointment "a2" "p2" "d1" "02/09/2025" "pending")) "0"
  = Some (JStr "x").
Proof. vm_compute. reflexivity. Qed.

Lemma rejects_cache_mutate key v w :
  rejects (after (cache_mutate key v) w) = rejects w
  /\ disk (after (cache_mutate key v) w) = disk w
  /\ clock (after (cache_mutate key v) w) = clock w.
Proof. unfold after, cache_mutate. simpl. by destruct (cache w !! key). Qed.

(** The read, push and save that the three [add] functions share. *)
Lemma append_and_save key item w items :
  rejects w = false -> rejects (next_call w) = false ->
  result (storageService.getItem key (Some (JArr []))) w = Ok (JArr items) ->
  JSON.serializable (JArr (items ++ [item])) = true ->
  exists w',
    (let* list := storageService.getItem key (Some (JArr [])) in
     let* list' := storageService.push_in_place key list item in
     storageService.setItem key list' None) w = (Ok tt, w')
    /\ disk w' !! key = JSON.stringify (JArr (items ++ [item]))
    /\ forall d t fs,
         result (storageService.getItem key d) (later t fs w')
         = Ok (JArr (items ++ [item])).
Proof.
  intros Hr1 Hr2 Hread Hser.
  pose proof (getItem_keeps_store_working key (Some (JArr [])) w Hr1 Hr2) as Hr.
  unfold bind, result, after in *.
  destruct (storageService.getItem key (Some (JArr [])) w) as [r w1].
  simpl in Hread, Hr. subst r.
  unfold storageService.push_in_place, bind. simpl.
  destruct (rejects_cache_mutate key (JArr (items ++ [item])) w1) as (Hr' & _ & _).
  unfold after in Hr'. simpl in Hr'. rewrite Hr in Hr'.
  exact (setItem_succeeds key (JArr (items ++ [item])) _ Hr' Hser).
Qed.

(** X10: [addAppointment], [addUser] and [addNotification] append. When the
    collection reads as the array [items] and the calls to AsyncStorage go
    through, the store and every later read hold [items] followed by the
    new element. *)
Theorem repository_add_appends repo item w items :
  rejects w = false -> rejects (next_call w) = false ->
  result (repository_get repo) w = Ok (JArr items) ->
  JSON.serializable (JArr (items ++ [item])) = true ->
  exists w',
    repository_add repo item w = (Ok tt, w')
    /\ disk w' !! repository_key repo = JSON.stringify (JArr (items ++ [item]))
    /\ forall t fs,
         result (repository_get repo) (later t fs w') = Ok (JArr (items ++ [item])).
Proof.
  intros Hr1 Hr2 Hread Hser.
  destruct (append_and_save (repository_key repo) item w items Hr1 Hr2) as
    (w' & Hrun & Hdisk & Hget); [by destruct repo|done|].
  exists w'. split; [by destruct repo|]. split; [done|].
  intros t fs. specialize (Hget (Some (JArr [])) t fs). by destruct repo.
Qed.

Lemma repository_add_appends_witness :
  exists w',
    repository_add Appointments (appointment "a4" "p3" "d1" "01/10/2025" "pending")
      saved_appointments_world = (Ok tt, w')
    /\ disk w' !! repository_key Appointments
       = JSON.stringify
           (JArr (confirmed_appointments
                    ++ [appointment "a4" "p3" "d1" "01/10/2025" "pending"]))
    /\ forall t fs,
         result (repository_get Appointments) (later t fs w')
         = Ok (JArr (confirmed_appointments
                       ++ [appointment "a4" "p3" "d1" "01/10/2025" "pending"])).
Proof.
  apply (repository_add_appends Appointments
           (appointment "a4" "p3" "d1" "01/10/2025" "pending")
           saved_appointments_world confirmed_appointments);
    vm_compute; reflexivity.
Defined.

(** X11: a failed [add] is not undone in the cache. The element is pushed
    onto the array that the cache holds before the save is tried, so when
    the collection is cached and the save fails (the write is rejected, or
    the new list does not serialize) the error reaches the caller, the store
    is as before, and every later read returns the list with the element
    that was never stored. *)
Theorem failed_add_stays_in_cache repo item w c items :
  cache w !! repository_key repo = Some c ->
  expiry c = None -> data c = JArr items ->
  rejects w = true \/ JSON.serializable (JArr (items ++ [item])) = false ->
  exists e w',
    repository_add repo item w = (Throw e, w')
    /\ disk w' = disk w
    /\ forall t fs,
         result (repository_get repo) (later t fs w') = Ok (JArr (items ++ [item])).
Proof.
  intros Hc He Hd Hfail.
  assert (exists e w',
             (let* list := storageService.getItem (repository_key repo) (Some (JArr [])) in
              let* list' := storageService.push_in_place (repository_key repo) list item in
              storageService.setItem (repository_key repo) list' None) w = (Throw e, w')
             /\ disk w' = disk w
             /\ forall d t fs,
                  result (storageService.getItem (repository_key repo) d) (later t fs w')
                  = Ok (JArr (items ++ [item]))) as (e & w' & Hrun & Hdisk & Hget).
  { unfold bind. rewrite (getItem_cached _ _ _ c Hc He), Hd.
    unfold storageService.push_in_place, bind, cache_mutate. simpl. rewrite Hc.
    rewrite setItem_eq. unfold JSON.stringify.
    change (rejects (with_cache ?m w)) with (rejects w).
    assert (forall (w' : World) d t fs,
               cache w' = <[repository_key repo :=
                              {| data := JArr (items ++ [item]);
                                 timestamp := timestamp c; expiry := expiry c |}]> (cache w) ->
               result (storageService.getItem (repository_key repo) d) (later t fs w')
               = Ok (JArr (items ++ [item]))) as Hlater.
    { intros w' d t fs Hw'. unfold result.
      rewrite (getItem_cached _ d _ {| data := JArr (items ++ [item]);
                                       timestamp := timestamp c; expiry := expiry c |});
        [done| |done].
      simpl. rewrite Hw'. apply lookup_insert_eq. }
    destruct (JSON.serializable (JArr (items ++ [item]))) eqn:Hser.
    - destruct Hfail as [Hr|]; [|done]. rewrite Hr.
      eexists; eexists. split; [reflexivity|]. split; [done|].
      intros d t fs. by apply Hlater.
    - eexists; eexists. split; [reflexivity|]. split; [done|].
      intros d t fs. by apply Hlater. }
  exists e, w'. split; [by destruct repo|]. split; [done|].
  intros t fs. specialize (Hget (Some (JArr [])) t fs). by destruct repo.
Qed.

Lemma failed_add_stays_in_cache_witness :
  exists e w',
    repository_add Appointments (appointment "a4" "p3" "d1" "01/10/2025" "pending")
      failing_appointments_world = (Throw e, w')
    /\ disk w' = disk failing_appointments_world
    /\ forall t fs,
         result (repository_get Appointments) (later t fs w')
         = Ok (JArr (confirmed_appointments
                       ++ [appointment "a4" "p3" "d1" "01/10/2025" "pending"])).
Proof.
  apply (failed_add_stays_in_cache Appointments
           (appointment "a4" "p3" "d1" "01/10/2025" "pending")
           failing_appointments_world
           {| data := JArr confirmed_appointments; timestamp := 0; expiry := None |}
           confirmed_appointments); try (vm_compute; reflexivity).
  left. vm_compute. reflexivity.
Defined.

(** X12: [updateAppSettings(settings)] stores the shallow merge of the
    current settings and the given ones: afterwards a property of [settings]
    reads as given and every other property as [getAppSettings] returned it
    before, which on a fresh install is the default. *)
Theorem updateAppSettings_merges settings w current :
  rejects w = false -> rejects (next_call w) = false ->
  result storageService.getAppSettings w = Ok current ->
  JSON.serializable current = true -> JSON.serializable settings = true ->
  NoDup (map fst (spread_props settings)) ->
  exists w' merged,
    storageService.updateAppSettings settings w = (Ok tt, w')
    /\ (forall t fs,
          result storageService.getAppSettings (later t fs w') = Ok (JObj merged))
    /\ forall k,
         assoc_get k merged
         = match assoc_get k (spread_props settings) with
           | Some v => Some v
           | None => assoc_get k (spread_props current)
           end.
Proof.
  intros Hr1 Hr2 Hread Hcur Hset Hnd.
  pose proof (getItem_keeps_store_working STORAGE_KEYS.APP_SETTINGS
                (Some storageService.default_settings) w Hr1 Hr2) as Hr.
  unfold storageService.updateAppSettings, bind.
  unfold result, storageService.getAppSettings in Hread.
  unfold after in Hr. unfold storageService.getAppSettings at 1.
  destruct (storageService.getItem STORAGE_KEYS.APP_SETTINGS
              (Some storageService.default_settings) w) as [r w1].
  simpl in Hread, Hr. subst r.
  destruct (setItem_succeeds STORAGE_KEYS.APP_SETTINGS
              (JObj (spread (spread_props current) (spread_props settings))) w1 Hr)
    as (w' & Hrun & _ & Hget).
  { apply serializable_spread; by apply serializable_spread_props. }
  exists w', (spread (spread_props current) (spread_props settings)).
  split; [exact Hrun|]. split; [intros t fs; apply Hget|].
  intros k. by apply assoc_get_spread.
Qed.

Lemma updateAppSettings_merges_witness :
  exists w' merged,
    storageService.updateAppSettings (JObj [("theme", JStr "dark")]) fresh_world
    = (Ok tt, w')
    /\ (forall t fs,
          result storageService.getAppSettings (later t fs w') = Ok (JObj merged))
    /\ forall k,
         assoc_get k merged
         = match assoc_get k (spread_props (JObj [("theme", JStr "dark")])) with
           | Some v => Some v
           | None => assoc_get k (spread_props storageService.default_settings)
           end.
Proof.
  apply (updateAppSettings_merges (JObj [("theme", JStr "dark")]) fresh_world
           storageService.default_settings); try (vm_compute; reflexivity).
  repeat constructor. set_solver.
Defined.

(** ** Backup and restore, continued *)

(** X13: [restoreFromBackup] writes nothing unless the text parses to a
    value with a truthy [data] property. Text that is not JSON is a
    SyntaxError for the caller, the text [null] a TypeError, and any other
    JSON without [data] is accepted without effect. The text is one of
    those the model has a value for whenever it is JSON. *)
Theorem restoreFromBackup_without_data text w :
  within_model text ->
  backup_data text = None ->
  result (storageService.restoreFromBackup text) w
  = (if JSON.valid text
     then match JSON.parse text with
          | Some JNull => Throw TypeError
          | _ => Ok tt
          end
     else Throw SyntaxError)
  /\ cache (after (storageService.restoreFromBackup text) w) = cache w
  /\ disk (after (storageService.restoreFromBackup text) w) = disk w.
Proof.
  intros Hmodel.
  unfold backup_data, result, after, storageService.restoreFromBackup, try_catch, bind,
    JSON_parse, of_option.
  destruct (JSON.parse text) as [v|] eqn:Hparse.
  - rewrite (parse_is_valid _ _ Hparse).
    destruct v as [|b|n|n|s|items|fields]; try done.
    simpl. destruct (assoc_get "data" fields) as [d|]; [|done].
    by destruct (truthy d).
  - by rewrite (within_model_no_parse text Hmodel Hparse).
Qed.

Lemma restoreFromBackup_without_data_witness :
  result (storageService.restoreFromBackup "{oops") world_with_k
  = (if JSON.valid "{oops"
     then match JSON.parse "{oops" with
          | Some JNull => Throw TypeError
          | _ => Ok tt
          end
     else Throw SyntaxError)
  /\ cache (after (storageService.restoreFromBackup "{oops") world_with_k)
     = cache world_with_k
  /\ disk (after (storageService.restoreFromBackup "{oops") world_with_k)
     = disk world_with_k.
Proof.
  apply (restoreFromBackup_without_data "{oops" world_with_k).
  - intros Hvalid. vm_compute in Hvalid. discriminate.
  - vm_compute. reflexivity.
Defined.

(** X14: a restore is not atomic. When the first write goes through and
    the second is rejected, [restoreFromBackup] throws, the appointments
    key already holds the restored value, and the notifications key still
    reads as before. *)
Theorem restoreFromBackup_stops_half_way text d w :
  backup_data text = Some d ->
  rejects w = false -> rejects (next_call w) = true ->
  JSON.serializable (js_or (prop d "appointments") (JArr [])) = true ->
  JSON.serializable (js_or (prop d "notifications") (JArr [])) = true ->
  exists w',
    storageService.restoreFromBackup text w = (Throw StorageFailure, w')
    /\ disk w' !! STORAGE_KEYS.APPOINTMENTS
       = JSON.stringify (js_or (prop d "appointments") (JArr []))
    /\ (forall t fs,
          result storageService.getAppointments (later t fs w')
          = Ok (js_or (prop d "appointments") (JArr [])))
    /\ forall t fs,
         result storageService.getNotifications (later t fs w')
         = result storageService.getNotifications (later t fs w).
Proof.
  intros Hdata Hr1 Hr2 Hsa Hsn.
  unfold backup_data in Hdata.
  unfold storageService.restoreFromBackup, try_catch, JSON_parse, of_option.
  unfold bind at 1.
  destruct (JSON.parse text) as [v|]; [|done]. simpl.
  assert (v <> JNull) as Hv by (by intros ->).
  unfold bind at 1. rewrite (get_prop_not_null v "data" w Hv).
  destruct (prop v "data") as [d'|]; [|done].
  destruct (truthy d') eqn:Ht; [|done]. injection Hdata as ->.
  assert (d <> JNull) as Hd by (by intros ->).
  unfold bind at 1. rewrite (get_prop_not_null d "appointments" w Hd).
  unfold bind at 1. rewrite setItem_eq. unfold JSON.stringify at 1. rewrite Hsa, Hr1.
  unfold bind at 1. rewrite (get_prop_not_null d "notifications" _ Hd).
  unfold bind at 1. rewrite setItem_eq. unfold JSON.stringify at 1. rewrite Hsn.
  change (rejects (with_cache ?c (with_disk ?k (next_call w)))) with (rejects (next_call w)).
  rewrite Hr2. simpl.
  eexists. split; [reflexivity|]. simpl. split; [|split].
  - unfold JSON.stringify. by rewrite lookup_insert_eq, Hsa.
  - intros t fs. unfold result, storageService.getAppointments.
    rewrite (getItem_cached _ _ _ {| data := js_or (prop d "appointments") (JArr []);
                                     timestamp := clock w; expiry := None |});
      [done| |done].
    simpl. apply lookup_insert_eq.
  - intros t fs. unfold storageService.getNotifications.
    apply getItem_result_local; simpl; try done;
      apply lookup_insert_ne, String.eqb_neq; reflexivity.
Qed.

Lemma restoreFromBackup_stops_half_way_witness :
  exists w',
    storageService.restoreFromBackup sample_backup_text
      (with_faults [false; true] fresh_world) = (Throw StorageFailure, w')
    /\ disk w' !! STORAGE_KEYS.APPOINTMENTS
       = JSON.stringify (js_or (prop sample_backup_data "appointments") (JArr []))
    /\ (forall t fs,
          result storageService.getAppointments (later t fs w')
          = Ok (js_or (prop sample_backup_data "appointments") (JArr [])))
    /\ forall t fs,
         result storageService.getNotifications (later t fs w')
         = result storageService.getNotifications
             (later t fs (with_faults [false; true] fresh_world)).
Proof.
  apply (restoreFromBackup_stops_half_way sample_backup_text sample_backup_data
           (with_faults [false; true] fresh_world)); vm_compute; reflexivity.
Defined.

Lemma getItem_rejected key d w :
  cache w = ∅ -> rejects w = true ->
  storageService.getItem key d w
  = (Ok (js_or d JNull),
     log (ConsoleError ("Erro ao carregar " +:+ key +:+ ":") StorageFailure) (next_call w)).
Proof.
  intros Hc Hr. rewrite getItem_eq. unfold cache_hit, evicted.
  rewrite Hc, lookup_empty, delete_empty, <- Hc, with_cache_id. simpl. by rewrite Hr.
Qed.

(** X15: [createBackup] does not notice reads that fail. With nothing cached
    and AsyncStorage rejecting the four reads, it succeeds and returns a
    backup whose lists and settings are empty, whatever the store holds; the
    store is left as it was. *)
Theorem createBackup_of_unreadable_store w fs :
  cache w = ∅ -> faults w = true :: true :: true :: true :: fs ->
  Date.in_range (clock w) = true ->
  exists stamp text w',
    Date.toISOString (clock w) = Some stamp
    /\ storageService.createBackup w = (Ok text, w')
    /\ JSON.parse text
       = Some (backup_document stamp (JArr []) (JArr []) (JArr []) (JObj []))
    /\ disk w' = disk w.
Proof.
  intros Hc Hf Hrange.
  destruct (toISOString_in_range (clock w) Hrange) as [stamp Hstamp].
  destruct (JSON_round_trip (backup_document stamp (JArr []) (JArr []) (JArr []) (JObj []))
              eq_refl) as (text & Htext & Hparse).
  exists stamp, text. eexists. split; [done|].
  unfold storageService.createBackup, try_catch, Date_toISOString, Date_now, of_option.
  unfold bind at 1 2. simpl. rewrite Hstamp. simpl.
  unfold bind at 1. rewrite getItem_rejected; [|done|by unfold rejects; rewrite Hf].
  unfold bind at 1. rewrite getItem_rejected;
    [|done|by unfold rejects; simpl; rewrite Hf].
  unfold bind at 1. rewrite getItem_rejected;
    [|done|by unfold rejects; simpl; rewrite Hf].
  unfold bind at 1. rewrite getItem_rejected;
    [|done|by unfold rejects; simpl; rewrite Hf].
  unfold JSON_stringify, of_option.
  change (JSON.stringify (JObj _))
    with (JSON.stringify (backup_document stamp (JArr []) (JArr []) (JArr []) (JObj []))).
  rewrite Htext. simpl. done.
Qed.

Lemma createBackup_of_unreadable_store_witness :
  exists stamp text w',
    Date.toISOString (clock unreadable_world) = Some stamp
    /\ storageService.createBackup unreadable_world = (Ok text, w')
    /\ JSON.parse text
       = Some (backup_document stamp (JArr []) (JArr []) (JArr []) (JObj []))
    /\ disk w' = disk unreadable_world.
Proof.
  apply (createBackup_of_unreadable_store unreadable_world []); vm_compute; reflexivity.
Defined.

(** ** Statistics, continued *)

Lemma count_cons {A} (p : A -> bool) a l :
  Z.of_nat (length (List.filter p (a :: l)))
  = (if p a then 1 else 0) + Z.of_nat (length (List.filter p l)).
Proof. simpl. destruct (p a); simpl; lia. Qed.

Lemma status_exclusive a s1 s2 :
  s1 <> s2 -> has_status s1 a = true -> has_status s2 a = false.
Proof.
  unfold has_status. intros Hne H%strict_eq_str_inv. rewrite H. simpl.
  by apply String.eqb_neq.
Qed.

(** The three status counts never count an appointment twice. *)
Lemma status_counts_le appointments :
  (Z.of_nat (length (List.filter (has_status "confirmed") appointments))
   + Z.of_nat (length (List.filter (has_status "pending") appointments))
   + Z.of_nat (length (List.filter (has_status "cancelled") appointments))
   <= Z.of_nat (length appointments)).
Proof.
  induction appointments as [|a l IH]; [simpl; lia|].
  rewrite !count_cons. change (length (a :: l)) with (S (length l)).
  destruct (has_status "confirmed" a) eqn:E1.
  - rewrite (status_exclusive a "confirmed" "pending"),
      (status_exclusive a "confirmed" "cancelled"); [lia|done..].
  - destruct (has_status "pending" a) eqn:E2.
    + rewrite (status_exclusive a "pending" "cancelled"); [lia|done..].
    + destruct (has_status "cancelled" a); lia.
Qed.

Lemma validated_has_status a :
  storageService.validateAppointment a = JBool true ->
  has_status "pending" a || has_status "confirmed" a || has_status "cancelled" a = true.
Proof.
  unfold storageService.validateAppointment.
  destruct (truthy a) eqn:Ht; [|by intros ->].
  intros [= Ha]. repeat apply andb_true_iff in Ha as [Ha ?].
  assert (forall k, assoc_get k (storageService.own_props a) = prop a k) as Hp
    by (by destruct a).
  rewrite Hp in *. unfold includes in *. simpl in *. unfold has_status.
  by rewrite orb_false_r, orb_assoc in H.
Qed.

Lemma status_counts_eq appointments :
  Forall (fun a => storageService.validateAppointment a = JBool true) appointments ->
  (Z.of_nat (length (List.filter (has_status "confirmed") appointments))
   + Z.of_nat (length (List.filter (has_status "pending") appointments))
   + Z.of_nat (length (List.filter (has_status "cancelled") appointments))
   = Z.of_nat (length appointments)).
Proof.
  induction 1 as [|a l Ha _ IH]; [simpl; lia|].
  rewrite !count_cons. change (length (a :: l)) with (S (length l)).
  apply validated_has_status in Ha.
  destruct (has_status "confirmed" a) eqn:E1.
  - rewrite (status_exclusive a "confirmed" "pending"),
      (status_exclusive a "confirmed" "cancelled"); [lia|done..].
  - destruct (has_status "pending" a) eqn:E2.
    + rewrite (status_exclusive a "pending" "cancelled"); [lia|done..].
    + destruct (has_status "cancelled" a); [lia|done].
Qed.

Lemma validated_has_month_key a :
  storageService.validateAppointment a = JBool true ->
  a <> JNull /\ undated a = false.
Proof.
  unfold storageService.validateAppointment, undated, month_key.
  destruct (truthy a) eqn:Ht; [|by intros ->].
  intros [= Ha]. repeat apply andb_true_iff in Ha as [Ha ?].
  assert (forall k, assoc_get k (storageService.own_props a) = prop a k) as Hp
    by (by destruct a).
  rewrite Hp in *. split; [by intros ->|].
  by destruct (prop a "date") as [[]|].
Qed.

Lemma month_warnings_none appointments w :
  Forall (fun a => undated a = false) appointments ->
  month_warnings appointments w = w.
Proof.
  intros H. revert w. induction H as [|a l Ha _ IH]; intros w; [done|].
  simpl. unfold undated in Ha. destruct (month_key a); [apply IH|done].
Qed.

Lemma percentage_bounds c t : 0 <= c <= t -> (0 <= statisticsService.percentage c t <= 100)%Q.
Proof.
  intros Hc. unfold statisticsService.percentage.
  destruct (0 <? t) eqn:Ht; [|done].
  apply Z.ltb_lt in Ht.
  unfold Qle, Qdiv, Qmult, Qinv, inject_Z. simpl.
  destruct t as [|t|t]; try lia. simpl. split; nia.
Qed.

Lemma Set_size_bounds l :
  0 <= Set_size l <= Z.of_nat (length l) /\ (l <> [] -> 1 <= Set_size l).
Proof.
  induction l as [|x l [IH1 IH2]]; [by split|].
  change (Set_size (x :: l))
    with (if existsb (same_value_zero x) l then Set_size l else 1 + Set_size l).
  change (length (x :: l)) with (S (length l)).
  destruct (existsb (same_value_zero x) l) eqn:E.
  - split; [lia|]. intros _. apply IH2. by intros ->.
  - split; [lia|]. intros _. lia.
Qed.

(** X16: in the general statistics of a readable list of appointments
    without [null], each with a [specialty] that converts to a property key
    (a specialty with a [toString] property of its own makes the
    statistics throw), an appointment counts for at most one status: the
    three status counts add up to at most the total, every percentage lies
    between 0 and 100, and the distinct patients and the distinct doctors
    are at most as many as the appointments; when every appointment passes
    [validateAppointment] the counts add up to the total and nothing is
    logged. *)
Theorem status_counts_partition w appointments :
  rejects w = false -> rejects (next_call w) = false ->
  stored_array "@MedicalApp:appointments" w = Some appointments ->
  is_Some (stored_value "@MedicalApp:registeredUsers" w) ->
  Forall (fun a => a <> JNull) appointments ->
  Forall (fun a => keyable a = true) appointments ->
  exists s w',
    statisticsService.getGeneralStatistics w = (Ok s, w')
    /\ confirmedAppointments s + pendingAppointments s + cancelledAppointments s
       <= totalAppointments s
    /\ (0 <= confirmed (statusPercentages s) <= 100)%Q
    /\ (0 <= pending (statusPercentages s) <= 100)%Q
    /\ (0 <= cancelled (statusPercentages s) <= 100)%Q
    /\ 0 <= totalPatients s <= totalAppointments s
    /\ 0 <= totalDoctors s <= totalAppointments s
    /\ (Forall (fun a => storageService.validateAppointment a = JBool true) appointments ->
        confirmedAppointments s + pendingAppointments s + cancelledAppointments s
        = totalAppointments s
        /\ console w' = console w).
Proof.
  intros Hr1 Hr2 Happ Husers Hobj Hkeys.
  eexists; eexists. split; [by apply getGeneralStatistics_eq|]. simpl.
  pose proof (status_counts_le appointments) as Hle.
  assert (forall p : JSValue -> bool,
             0 <= Z.of_nat (length (List.filter p appointments))
             <= Z.of_nat (length appointments)) as Hcount.
  { intros p. pose proof (filter_length_le p appointments). lia. }
  split; [done|].
  repeat (split; [by apply percentage_bounds|]).
  pose proof (Set_size_bounds (map (fun n => prop n "patientId") appointments))
    as [Hp _].
  pose proof (Set_size_bounds (map (fun n => prop n "doctorId") appointments))
    as [Hd _].
  rewrite length_map in Hp, Hd. split; [done|]. split; [done|].
  intros Hvalid. split; [by apply status_counts_eq|].
  rewrite month_warnings_none; [done|].
  eapply Forall_impl; [exact Hvalid|]. intros a Ha. by apply validated_has_month_key.
Qed.

Lemma status_counts_partition_witness :
  exists s w',
    statisticsService.getGeneralStatistics mixed_world = (Ok s, w')
    /\ confirmedAppointments s + pendingAppointments s + cancelledAppointments s
       <= totalAppointments s
    /\ (0 <= confirmed (statusPercentages s) <= 100)%Q
    /\ (0 <= pending (statusPercentages s) <= 100)%Q
    /\ (0 <= cancelled (statusPercentages s) <= 100)%Q
    /\ 0 <= totalPatients s <= totalAppointments s
    /\ 0 <= totalDoctors s <= totalAppointments s
    /\ (Forall (fun a => storageService.validateAppointment a = JBool true)
          mixed_appointments ->
        confirmedAppointments s + pendingAppointments s + cancelledAppointments s
        = totalAppointments s
        /\ console w' = console mixed_world).
Proof.
  apply (status_counts_partition mixed_world mixed_appointments);
    try (vm_compute; reflexivity).
  - vm_compute. eexists. reflexivity.
  - repeat constructor; discriminate.
  - repeat constructor.
Defined.

Lemma bump_lookup k k' (byMonth : gmap string Z) :
  (forall j n, byMonth !! j = Some n -> 0 < n) ->
  statisticsService.bump k byMonth !! k'
  = if String.eqb k k' then Some (default 0 (byMonth !! k) + 1) else byMonth !! k'.
Proof.
  intros Hpos. unfold statisticsService.bump.
  destruct (String.eqb k k') eqn:E.
  - apply String.eqb_eq in E as <-.
    destruct (byMonth !! k) as [n|] eqn:Hk; simpl.
    + specialize (Hpos k n Hk). rewrite (proj2 (Z.eqb_neq n 0)) by lia.
      by rewrite lookup_insert_eq.
    + by rewrite lookup_insert_eq.
  - apply String.eqb_neq in E.
    destruct (byMonth !! k) as [n|]; [destruct (n =? 0)|]; by rewrite lookup_insert_ne.
Qed.

Lemma bump_positive k (byMonth : gmap string Z) :
  (forall j n, byMonth !! j = Some n -> 0 < n) ->
  forall j n, statisticsService.bump k byMonth !! j = Some n -> 0 < n.
Proof.
  intros Hpos j n. rewrite bump_lookup by done.
  destruct (String.eqb k j); [|apply Hpos].
  intros [= <-]. destruct (byMonth !! k) as [m|] eqn:Hk; simpl; [|lia].
  specialize (Hpos k m Hk). lia.
Qed.

(** Every entry of the histogram is the number of appointments filed under
    its key, on top of what was there. *)
Lemma month_histogram_lookup appointments : forall (byMonth : gmap string Z) k,
  (forall j n, byMonth !! j = Some n -> 0 < n) ->
  month_histogram byMonth appointments !! k
  = let filed := Z.of_nat (length (List.filter (filed_under k) appointments)) in
    if filed =? 0 then byMonth !! k else Some (default 0 (byMonth !! k) + filed).
Proof.
  induction appointments as [|a l IH]; intros byMonth k Hpos; [done|].
  cbv zeta. rewrite count_cons. simpl month_histogram.
  pose proof (Nat2Z.is_nonneg (length (List.filter (filed_under k) l))) as Hn.
  destruct (month_key a) as [ka|] eqn:Hka.
  - assert (filed_under k a = String.eqb ka k) as -> by (unfold filed_under; by rewrite Hka).
    rewrite (IH _ k (bump_positive ka byMonth Hpos)). cbv zeta.
    rewrite (bump_lookup ka k byMonth Hpos).
    destruct (String.eqb ka k) eqn:E.
    + apply String.eqb_eq in E as ->.
      destruct (Z.of_nat (length (List.filter (filed_under k) l)) =? 0) eqn:E0.
      * apply Z.eqb_eq in E0. rewrite E0. simpl. apply (f_equal Some). lia.
      * apply Z.eqb_neq in E0. rewrite (proj2 (Z.eqb_neq _ 0)) by lia.
        simpl. apply (f_equal Some). lia.
    + by rewrite Z.add_0_l.
  - assert (filed_under k a = false) as -> by (unfold filed_under; by rewrite Hka).
    rewrite (IH _ k Hpos). cbv zeta. by rewrite Z.add_0_l.
Qed.

Lemma month_warnings_console appointments : forall w,
  console (month_warnings appointments w)
  = rev (map (fun a => ConsoleWarn "Data inválida encontrada:" (prop a "date"))
           (List.filter undated appointments)) ++ console w.
Proof.
  induction appointments as [|a l IH]; intros w; [done|].
  simpl. unfold undated at 1. destruct (month_key a).
  - apply IH.
  - rewrite IH. simpl. by rewrite <- app_assoc.
Qed.

(** X17: for a readable list of appointments without [null], each with a
    [specialty] that converts to a property key, the month histogram of the
    general statistics holds, under every key, the number of appointments
    whose date is a string that splits to that key, and no entry where
    there is none; each appointment whose date is not a string gives one
    warning on the console, in order, and nothing else is logged. *)
Theorem month_histogram_counts w appointments :
  rejects w = false -> rejects (next_call w) = false ->
  stored_array "@MedicalApp:appointments" w = Some appointments ->
  is_Some (stored_value "@MedicalApp:registeredUsers" w) ->
  Forall (fun a => a <> JNull) appointments ->
  Forall (fun a => keyable a = true) appointments ->
  exists s w',
    statisticsService.getGeneralStatistics w = (Ok s, w')
    /\ (forall k,
          appointmentsByMonth s !! k
          = let filed := Z.of_nat (length (List.filter (filed_under k) appointments)) in
            if filed =? 0 then None else Some filed)
    /\ console w'
       = rev (map (fun a => ConsoleWarn "Data inválida encontrada:" (prop a "date"))
                (List.filter undated appointments)) ++ console w.
Proof.
  intros Hr1 Hr2 Happ Husers Hobj Hkeys.
  eexists; eexists. split; [by apply getGeneralStatistics_eq|]. simpl. split.
  - intros k. rewrite month_histogram_lookup; [|intros j n; by rewrite lookup_empty].
    by rewrite lookup_empty.
  - by rewrite month_warnings_console.
Qed.

Lemma month_histogram_counts_witness :
  exists s w',
    statisticsService.getGeneralStatistics mixed_world = (Ok s, w')
    /\ (forall k,
          appointmentsByMonth s !! k
          = let filed :=
              Z.of_nat (length (List.filter (filed_under k) mixed_appointments)) in
            if filed =? 0 then None else Some filed)
    /\ console w'
       = rev (map (fun a => ConsoleWarn "Data inválida encontrada:" (prop a "date"))
                (List.filter undated mixed_appointments)) ++ console mixed_world.
Proof.
  apply (month_histogram_counts mixed_world mixed_appointments);
    try (vm_compute; reflexivity).
  - vm_compute. eexists. reflexivity.
  - repeat constructor; discriminate.
  - repeat constructor.
Defined.

(** The conversion of the specialties to keys stops at the first one that
    cannot be a key. *)
Lemma specialty_keys_throw appointments w :
  Forall (fun a => a <> JNull) appointments ->
  Exists (fun a => keyable a = false) appointments ->
  Array_map statisticsService.specialty_key appointments w = (Throw TypeError, w).
Proof.
  induction 1 as [|a rest Ha Hrest IH]; intros Hbad; [by apply Exists_nil in Hbad|].
  simpl. unfold bind. unfold statisticsService.specialty_key at 1, bind.
  rewrite (get_prop_not_null a "specialty" w Ha).
  destruct (keyable a) eqn:Hk.
  - apply Exists_cons in Hbad as [Hbad|Hbad]; [congruence|].
    unfold keyable in Hk. unfold ToString.
    destruct (prop a "specialty") as [v|]; [|simpl; by rewrite (IH Hbad)].
    destruct (ToString_value v) as [key|]; [|done]. simpl. by rewrite (IH Hbad).
  - unfold keyable in Hk. unfold ToString.
    destruct (prop a "specialty") as [v|]; [|done].
    by destruct (ToString_value v).
Qed.

(** X18: the statistics fail loud. When the first read is rejected, or when
    the appointments text parses and the text of the registered users, a
    value that the statistics read and never use, is not JSON, or when both
    texts parse and the list of appointments, without [null], has one with
    a [specialty] that cannot be a property key, [getGeneralStatistics]
    logs the error and throws it to the caller. *)
Theorem getGeneralStatistics_throws w :
  rejects w = true
  \/ (rejects w = false /\ rejects (next_call w) = false
      /\ is_Some (stored_value "@MedicalApp:appointments" w)
      /\ stored_garbage "@MedicalApp:registeredUsers" w)
  \/ (rejects w = false /\ rejects (next_call w) = false
      /\ is_Some (stored_value "@MedicalApp:registeredUsers" w)
      /\ exists appointments,
           stored_array "@MedicalApp:appointments" w = Some appointments
           /\ Forall (fun a => a <> JNull) appointments
           /\ Exists (fun a => keyable a = false) appointments) ->
  exists e w',
    statisticsService.getGeneralStatistics w = (Throw e, w')
    /\ console w' = ConsoleError "Erro ao calcular estatísticas:" e :: console w.
Proof.
  unfold statisticsService.getGeneralStatistics, try_catch, statisticsService.read_array.
  unfold bind at 1 2. unfold AsyncStorage.getItem at 1, AsyncStorage.call at 1.
  intros [Hr|[(Hr1 & Hr2 & [v Hv] & (text & Htext & Husers%not_valid_no_parse))
             |(Hr1 & Hr2 & [users Husers] & appointments & Happ & Hobj & Hbad)]].
  - rewrite Hr. simpl. by eauto.
  - rewrite Hr1. simpl.
    rewrite (stored_value_parse _ w _ _ Hv).
    unfold bind at 1 2. unfold AsyncStorage.getItem at 1, AsyncStorage.call at 1.
    rewrite Hr2. simpl. rewrite Htext.
    unfold JSON_parse, of_option. rewrite Husers. simpl. by eauto.
  - rewrite Hr1. simpl.
    rewrite (stored_value_parse _ w _ _ (stored_array_value _ _ _ Happ)).
    unfold bind. rewrite (AsyncStorage_getItem_ok _ _ Hr2).
    change (disk (next_call w)) with (disk w).
    rewrite (stored_value_parse _ w _ _ Husers). simpl.
    rewrite !count_status_eq by done.
    rewrite !Array_map_prop by done.
    rewrite (specialty_keys_throw _ _ Hobj Hbad). simpl. by eauto.
Qed.

Lemma getGeneralStatistics_throws_witness :
  exists e w',
    statisticsService.getGeneralStatistics broken_users_world = (Throw e, w')
    /\ console w'
       = ConsoleError "Erro ao calcular estatísticas:" e :: console broken_users_world.
Proof.
  apply (getGeneralStatistics_throws broken_users_world). right. left.
  split; [vm_compute; reflexivity|]. split; [vm_compute; reflexivity|].
  split; [vm_compute; eexists; reflexivity|].
  exists "[oops". split; vm_compute; reflexivity.
Defined.

(** *** Computations that only read *)

Lemma read_only_ret {A} (a : A) : read_only (ret a).
Proof. by intros w. Qed.

Lemma read_only_throw {A} e : read_only (@throw A e).
Proof. by intros w. Qed.

Lemma read_only_bind {A B} (m : M A) (k : A -> M B) :
  read_only m -> (forall a, read_only (k a)) -> read_only (bind m k).
Proof.
  intros Hm Hk w. specialize (Hm w). unfold after, bind in *.
  destruct (m w) as [[a|e] w1]; simpl in *; [|done].
  destruct (Hk a w1) as [Hd Hc]. unfold after in *. by rewrite Hd, Hc.
Qed.

Lemma read_only_try_catch {A} (body : M A) (handler : Error -> M A) :
  read_only body -> (forall e, read_only (handler e)) -> read_only (try_catch body handler).
Proof.
  intros Hm Hk w. specialize (Hm w). unfold after, try_catch in *.
  destruct (body w) as [[a|e] w1]; simpl in *; [done|].
  destruct (Hk e w1) as [Hd Hc]. unfold after in *. by rewrite Hd, Hc.
Qed.

Lemma read_only_console_error msg e : read_only (console_error msg e).
Proof. by intros w. Qed.

Lemma read_only_console_warn msg x : read_only (console_warn msg x).
Proof. by intros w. Qed.

Lemma read_only_AsyncStorage_getItem key : read_only (AsyncStorage.getItem key).
Proof.
  intros w. unfold after, AsyncStorage.getItem, AsyncStorage.call.
  by destruct (rejects w).
Qed.

Lemma read_only_get_prop v k : read_only (get_prop v k).
Proof. intros w. by destruct v. Qed.

Lemma read_only_as_array v : read_only (as_array v).
Proof. intros w. by destruct v. Qed.

Lemma read_only_of_option {A} e (o : option A) : read_only (of_option e o).
Proof. intros w. by destruct o. Qed.

Lemma read_only_Array_filter {A} (f : A -> M bool) l :
  (forall x, read_only (f x)) -> read_only (Array_filter f l).
Proof.
  intros Hf. induction l as [|x l IH]; simpl; [apply read_only_ret|].
  apply read_only_bind; [done|]. intros keep.
  apply read_only_bind; [done|]. intros ys. apply read_only_ret.
Qed.

Lemma read_only_Array_map {A B} (f : A -> M B) l :
  (forall x, read_only (f x)) -> read_only (Array_map f l).
Proof.
  intros Hf. induction l as [|x l IH]; simpl; [apply read_only_ret|].
  apply read_only_bind; [done|]. intros y.
  apply read_only_bind; [done|]. intros ys. apply read_only_ret.
Qed.

Lemma read_only_read_array key : read_only (statisticsService.read_array key).
Proof.
  apply read_only_bind; [apply read_only_AsyncStorage_getItem|]. intros stored.
  destruct (stored_text stored); [apply read_only_of_option|apply read_only_ret].
Qed.

Lemma read_only_count_status status l :
  read_only (statisticsService.count_status status l).
Proof.
  apply read_only_bind; [|intros; apply read_only_ret].
  apply read_only_Array_filter. intros a.
  apply read_only_bind; [apply read_only_get_prop|intros; apply read_only_ret].
Qed.

Lemma read_only_count_months l : forall byMonth,
  read_only (statisticsService.count_months byMonth l).
Proof.
  induction l as [|a l IH]; intros byMonth; simpl; [apply read_only_ret|].
  apply read_only_bind; [|intros; apply IH].
  apply read_only_try_catch.
  - apply read_only_bind; [apply read_only_get_prop|]. intros date.
    apply read_only_bind; [|intros; apply read_only_ret].
    destruct date as [[]|]; first [apply read_only_ret|apply read_only_throw].
  - intros e. apply read_only_bind; [apply read_only_get_prop|]. intros date.
    apply read_only_bind; [apply read_only_console_warn|intros; apply read_only_ret].
Qed.

Lemma read_only_specialty_key a : read_only (statisticsService.specialty_key a).
Proof.
  apply read_only_bind; [apply read_only_get_prop|]. intros specialty.
  destruct specialty; [apply read_only_of_option|apply read_only_ret].
Qed.

(** A specialty that is the object [{"toString": 1}] makes the statistics
    throw a TypeError. *)
Example unkeyable_specialty_throws :
  result statisticsService.getGeneralStatistics unkeyable_world = Throw TypeError.
Proof. vm_compute. reflexivity. Qed.

(** X19: the statistics and the notification list only read. Whatever the
    world and whatever the outcome, [getGeneralStatistics],
    [getDoctorStatistics] and [getNotifications] of the notification service
    leave AsyncStorage and the cache of the storage service as they were. *)
Theorem readers_never_write doctorId userId :
  read_only statisticsService.getGeneralStatistics
  /\ read_only (statisticsService.getDoctorStatistics doctorId)
  /\ read_only (notificationService.getNotifications userId).
Proof.
  split; [|split].
  - apply read_only_try_catch.
    + apply read_only_bind; [apply read_only_read_array|]. intros parsed.
      apply read_only_bind; [apply read_only_read_array|]. intros users.
      apply read_only_bind; [apply read_only_as_array|]. intros appointments.
      repeat (apply read_only_bind; [apply read_only_count_status|]; intros ?).
      apply read_only_bind;
        [apply read_only_Array_map; intros; apply read_only_get_prop|]. intros ?.
      apply read_only_bind;
        [apply read_only_Array_map; intros; apply read_only_get_prop|]. intros ?.
      apply read_only_bind;
        [apply read_only_Array_map; intros; apply read_only_specialty_key|]. intros ?.
      apply read_only_bind; [apply read_only_count_months|]. intros ?.
      apply read_only_ret.
    + intros e. apply read_only_bind; [apply read_only_console_error|].
      intros; apply read_only_throw.
  - apply read_only_try_catch.
    + apply read_only_bind; [apply read_only_read_array|]. intros parsed.
      apply read_only_bind; [apply read_only_as_array|]. intros appointments.
      apply read_only_bind.
      { apply read_only_Array_filter. intros a.
        apply read_only_bind; [apply read_only_get_prop|intros; apply read_only_ret]. }
      intros mine.
      repeat (apply read_only_bind; [apply read_only_count_status|]; intros ?).
      apply read_only_bind;
        [apply read_only_Array_map; intros; apply read_only_get_prop|]. intros ?.
      apply read_only_ret.
    + intros e. apply read_only_bind; [apply read_only_console_error|].
      intros; apply read_only_throw.
  - apply read_only_try_catch.
    + apply read_only_bind; [apply read_only_AsyncStorage_getItem|]. intros stored.
      apply read_only_bind.
      { destruct (stored_text stored); [apply read_only_of_option|apply read_only_ret]. }
      intros parsed.
      apply read_only_bind; [apply read_only_as_array|]. intros items.
      apply read_only_bind.
      { apply read_only_Array_filter. intros a.
        apply read_only_bind; [apply read_only_get_prop|intros; apply read_only_ret]. }
      intros mine.
      apply read_only_bind; [|intros; apply read_only_ret].
      destruct (2 <=? length mine)%nat; [|apply read_only_ret].
      apply read_only_Array_map. intros n.
      apply read_only_bind; [apply read_only_get_prop|]. intros createdAt.
      apply read_only_bind; [|intros; apply read_only_ret].
      destruct createdAt; [apply read_only_of_option|apply read_only_ret].
    + intros e. apply read_only_bind; [apply read_only_console_error|].
      intros; apply read_only_ret.
Qed.

(** X20: for a readable list of appointments without [null], the
    statistics of a doctor cover the appointments whose [doctorId] is the
    given one and no others: the total is their number, the status
    counts add up to at most the total, the patients are at most as many as
    the appointments, and for a doctor without appointments every count and
    every percentage is 0. *)
Theorem getDoctorStatistics_covers_doctor doctorId w all :
  rejects w = false ->
  stored_array "@MedicalApp:appointments" w = Some all ->
  Forall (fun a => a <> JNull) all ->
  exists s w',
    statisticsService.getDoctorStatistics doctorId w = (Ok s, w')
    /\ statisticsService.doctor_totalAppointments s
       = Z.of_nat (length (doctor_appointments doctorId all))
    /\ statisticsService.doctor_totalAppointments s <= Z.of_nat (length all)
    /\ statisticsService.doctor_confirmedAppointments s + statisticsService.doctor_pendingAppointments s
       + statisticsService.doctor_cancelledAppointments s <= statisticsService.doctor_totalAppointments s
    /\ 0 <= statisticsService.doctor_totalPatients s <= statisticsService.doctor_totalAppointments s
    /\ (doctor_appointments doctorId all = [] ->
        statisticsService.doctor_confirmedAppointments s = 0 /\ statisticsService.doctor_pendingAppointments s = 0
        /\ statisticsService.doctor_cancelledAppointments s = 0 /\ statisticsService.doctor_totalPatients s = 0
        /\ statisticsService.doctor_statusPercentages s = mkStatusPercentages 0%Q 0%Q 0%Q).
Proof.
  intros Hr Hall Hobj.
  assert (Forall (fun a => a <> JNull) (doctor_appointments doctorId all)) as Hobj'.
  { rewrite List.Forall_forall in *. intros a [Ha _]%List.filter_In. by apply Hobj. }
  eexists; eexists. split.
  - unfold statisticsService.getDoctorStatistics, try_catch, bind,
      statisticsService.read_array.
    unfold bind. rewrite (AsyncStorage_getItem_ok _ _ Hr).
    rewrite (stored_value_parse _ w _ _ (stored_array_value _ _ _ Hall)). simpl.
    pose proof (Array_filter_prop "doctorId" doctorId all (next_call w) Hobj) as Hf.
    unfold bind in Hf. rewrite Hf.
    change (List.filter _ all) with (doctor_appointments doctorId all).
    rewrite !count_status_eq by done.
    rewrite Array_map_prop by done. reflexivity.
  - simpl.
    pose proof (status_counts_le (doctor_appointments doctorId all)) as Hle.
    pose proof (Set_size_bounds
                  (map (fun n => prop n "patientId") (doctor_appointments doctorId all)))
      as [Hs _].
    rewrite length_map in Hs.
    pose proof (filter_length_le (of_doctor doctorId) all) as Hlen.
    fold (doctor_appointments doctorId all) in Hlen.
    split; [done|]. split; [lia|]. split; [lia|]. split; [lia|].
    intros ->. by simpl.
Qed.

Lemma getDoctorStatistics_covers_doctor_witness :
  exists s w',
    statisticsService.getDoctorStatistics "d9" mixed_world = (Ok s, w')
    /\ statisticsService.doctor_totalAppointments s
       = Z.of_nat (length (doctor_appointments "d9" mixed_appointments))
    /\ statisticsService.doctor_totalAppointments s <= Z.of_nat (length mixed_appointments)
    /\ statisticsService.doctor_confirmedAppointments s + statisticsService.doctor_pendingAppointments s
       + statisticsService.doctor_cancelledAppointments s <= statisticsService.doctor_totalAppointments s
    /\ 0 <= statisticsService.doctor_totalPatients s <= statisticsService.doctor_totalAppointments s
    /\ (doctor_appointments "d9" mixed_appointments = [] ->
        statisticsService.doctor_confirmedAppointments s = 0 /\ statisticsService.doctor_pendingAppointments s = 0
        /\ statisticsService.doctor_cancelledAppointments s = 0 /\ statisticsService.doctor_totalPatients s = 0
        /\ statisticsService.doctor_statusPercentages s = mkStatusPercentages 0%Q 0%Q 0%Q).
Proof.
  apply (getDoctorStatistics_covers_doctor "d9" mixed_world mixed_appointments);
    try (vm_compute; reflexivity).
  repeat constructor; discriminate.
Defined.

(** *** The notification service *)

Lemma read_all_ok w all :
  rejects w = false ->
  stored_array notificationService.STORAGE_KEY w = Some all ->
  notificationService.read_all w = (Ok (JArr all), next_call w).
Proof.
  intros Hr Hall. unfold notificationService.read_all, bind.
  rewrite (AsyncStorage_getItem_ok _ _ Hr).
  apply (stored_value_parse _ w _ _ (stored_array_value _ _ _ Hall)).
Qed.

Lemma write_all_ok items w :
  rejects w = false -> JSON.well_formed (JArr items) = true ->
  exists w',
    notificationService.write_all (JArr items) w = (Ok tt, w')
    /\ stored_array notificationService.STORAGE_KEY w' = Some items
    /\ forall t fs,
         stored_array notificationService.STORAGE_KEY (later t fs w') = Some items.
Proof.
  intros Hr Hwf. destruct (JSON_round_trip _ Hwf) as (text & Htext & Hparse).
  assert (stored_text (Some text) = Some text) as Hstored.
  { destruct text; [done|done]. }
  unfold notificationService.write_all, bind, JSON_stringify, of_option.
  rewrite Htext. simpl. unfold AsyncStorage.setItem, AsyncStorage.call. rewrite Hr.
  eexists. split; [reflexivity|].
  assert (forall w0, disk w0 !! notificationService.STORAGE_KEY = Some text ->
                     stored_array notificationService.STORAGE_KEY w0 = Some items) as Hs.
  { intros w0 Hd. unfold stored_array, stored_value. by rewrite Hd, Hstored, Hparse. }
  split; [|intros t fs]; apply Hs; simpl; apply lookup_insert_eq.
Qed.

Lemma distinct_assoc_set k v fields :
  JSON.distinct (map fst fields) = true ->
  JSON.distinct (map fst (assoc_set k v fields)) = true.
Proof.
  rewrite !distinct_NoDup.
  destruct (existsb (String.eqb k) (map fst fields)) eqn:E.
  - assert (map fst (assoc_set k v fields) = map fst fields) as ->; [|done].
    clear -E. induction fields as [|[k' v'] fields IH]; [done|]. simpl in *.
    destruct (String.eqb k k') eqn:Ek; [done|]. simpl in *. by rewrite IH.
  - assert (k ∉ map fst fields) as Hk.
    { intros Hin%existsb_eqb_elem. congruence. }
    rewrite (assoc_set_fresh k v fields Hk), map_app. simpl. intros Hnd.
    apply NoDup_app. split; [done|]. split; [|apply NoDup_singleton].
    intros x Hx ->%list_elem_of_singleton. done.
Qed.

Lemma well_formed_fields_assoc_set k v fields :
  JSON.well_formed v = true ->
  forallb (fun kv => JSON.well_formed (snd kv)) fields = true ->
  forallb (fun kv => JSON.well_formed (snd kv)) (assoc_set k v fields) = true.
Proof.
  intros Hv. induction fields as [|[k0 v0] fields IH]; simpl; [by rewrite Hv|].
  intros [H0 Hrest]%andb_true_iff.
  destruct (String.eqb k k0); simpl; [by rewrite Hv, Hrest|].
  by rewrite H0, IH.
Qed.

Lemma well_formed_assoc_set k v fields :
  JSON.well_formed v = true -> JSON.well_formed (JObj fields) = true ->
  JSON.well_formed (JObj (assoc_set k v fields)) = true.
Proof.
  intros Hv.
  change (JSON.well_formed (JObj ?f))
    with (JSON.distinct (map fst f)
          && forallb (fun kv => JSON.well_formed (snd kv)) f).
  intros [Hd Hf]%andb_true_iff.
  by rewrite distinct_assoc_set, well_formed_fields_assoc_set.
Qed.

Lemma well_formed_spread b : forall a,
  JSON.well_formed (JObj a) = true ->
  forallb (fun kv => JSON.well_formed (snd kv)) b = true ->
  JSON.well_formed (JObj (spread a b)) = true.
Proof.
  unfold spread. induction b as [|[k v] b IH]; intros a Ha Hb; [done|].
  simpl in Hb. apply andb_true_iff in Hb as [Hv Hb]. simpl fold_left.
  apply (IH (assoc_set k v a)); [|done]. by apply well_formed_assoc_set.
Qed.

Lemma well_formed_items items :
  JSON.well_formed (JArr items) = true <-> Forall (fun n => JSON.well_formed n = true) items.
Proof.
  change (JSON.well_formed (JArr items)) with (forallb JSON.well_formed items).
  split; [apply forallb_Forall|apply Forall_forallb].
Qed.

Lemma prop_object n k v : prop n k = Some v -> exists fields, n = JObj fields.
Proof. destruct n; try done. by eexists. Qed.

Lemma well_formed_mark_where k s n :
  JSON.well_formed n = true -> JSON.well_formed (mark_where k s n) = true.
Proof.
  intros Hwf. unfold mark_where.
  destruct (strict_eq_str (prop n k) s) eqn:E; [|done].
  apply strict_eq_str_inv in E. apply prop_object in E as [fields ->].
  by apply (well_formed_assoc_set "read" (JBool true)).
Qed.

Section sort_counts.
Context {A : Type} (comparefn : A -> A -> option Z) (p : A -> bool).

Lemma sort_insert_count x l :
  length (List.filter p (sort_insert comparefn x l)) = length (List.filter p (x :: l)).
Proof.
  induction l as [|y l IH]; [done|].
  simpl in *. destruct (strictly_before comparefn y x); [|done].
  simpl. destruct (p y), (p x); simpl in *; lia.
Qed.

Lemma Array_sort_count l :
  length (List.filter p (Array_sort comparefn l)) = length (List.filter p l).
Proof.
  induction l as [|x l IH]; [done|]. simpl Array_sort.
  rewrite sort_insert_count. simpl. destruct (p x); simpl; lia.
Qed.
End sort_counts.

Lemma unread_filter_ok (r : list JSValue) w :
  Forall (fun n => n <> JNull) r ->
  Array_filter (fun n => let* x := get_prop n "read" in ret (js_not x)) r w
  = (Ok (List.filter unread r), w).
Proof. apply (Array_filter_get_prop "read" js_not). Qed.

Lemma getUnreadCount_eq userId w all :
  rejects w = false ->
  stored_array notificationService.STORAGE_KEY w = Some all ->
  Forall (fun n => n <> JNull) all ->
  Forall (fun n => owned_by userId n = true -> datable n = true) all ->
  notificationService.getUnreadCount userId w = (Ok (unread_of userId all), next_call w).
Proof.
  intros Hr Hall Hobj Hdates.
  unfold notificationService.getUnreadCount, try_catch, bind.
  rewrite (getNotifications_ok userId w all Hr Hall Hobj Hdates).
  rewrite unread_filter_ok.
  - simpl. unfold unread_of. by rewrite Array_sort_count.
  - rewrite List.Forall_forall. intros n Hn.
    apply list_elem_of_In in Hn. rewrite Array_sort_perm in Hn.
    apply list_elem_of_In, List.filter_In in Hn as [_ Hn].
    by apply (owned_not_null userId).
Qed.

(** When two or more notifications are those of the user and no Date can
    be made of the [createdAt] of one of them, the comparator throws and
    [getNotifications] returns the empty list. *)
Lemma getNotifications_undatable userId w all :
  rejects w = false ->
  stored_array notificationService.STORAGE_KEY w = Some all ->
  Forall (fun n => n <> JNull) all ->
  (2 <= length (List.filter (owned_by userId) all))%nat ->
  Exists (fun n => datable n = false) (List.filter (owned_by userId) all) ->
  notificationService.getNotifications userId w
  = (Ok [], log (ConsoleError "Erro ao carregar notificações:" TypeError) (next_call w)).
Proof.
  intros Hread Hstored Hobj Hmany Hbad.
  unfold notificationService.getNotifications, try_catch, bind.
  rewrite (AsyncStorage_getItem_ok _ _ Hread).
  rewrite (stored_value_parse _ _ _ _ (stored_array_value _ _ _ Hstored)).
  cbn -[Nat.leb Array_map].
  pose proof (Array_filter_prop "userId" userId all (next_call w) Hobj) as Hf.
  unfold bind in Hf. rewrite Hf.
  fold (owned_by userId).
  rewrite (proj2 (Nat.leb_le _ _) Hmany).
  rewrite new_Date_throw; [done| |done].
  rewrite List.Forall_forall. intros n [_ Hn]%List.filter_In.
  by apply (owned_not_null userId).
Qed.

Lemma datable_dec (l : list JSValue) :
  Forall (fun n => datable n = true) l \/ Exists (fun n => datable n = false) l.
Proof.
  induction l as [|n l [IH|IH]].
  - left. constructor.
  - destruct (datable n) eqn:Hn.
    + left. by constructor.
    + right. by apply Exists_cons_hd.
  - right. by apply Exists_cons_tl.
Qed.

(** With a readable list without [null], the count is the number of unread
    notifications of the user, or 0 where the comparator has thrown. *)
Lemma getUnreadCount_cases userId w all :
  rejects w = false ->
  stored_array notificationService.STORAGE_KEY w = Some all ->
  Forall (fun n => n <> JNull) all ->
  result (notificationService.getUnreadCount userId) w = Ok (unread_of userId all)
  \/ result (notificationService.getUnreadCount userId) w = Ok 0.
Proof.
  intros Hr Hall Hobj. unfold result.
  assert (Forall (fun n => n <> JNull) (List.filter (owned_by userId) all)) as Hmine.
  { rewrite List.Forall_forall. intros n [_ Hn]%List.filter_In.
    by apply (owned_not_null userId). }
  destruct (datable_dec (List.filter (owned_by userId) all)) as [Hok|Hbad].
  - left. rewrite (getUnreadCount_eq userId w all Hr Hall Hobj); [done|].
    rewrite List.Forall_forall in *. intros n Hn Hown. apply Hok.
    by apply List.filter_In.
  - destruct (le_lt_dec 2 (length (List.filter (owned_by userId) all))) as [Hmany|Hfew].
    + right. unfold notificationService.getUnreadCount, try_catch, bind.
      by rewrite (getNotifications_undatable userId w all Hr Hall Hobj Hmany Hbad).
    + left. unfold notificationService.getUnreadCount, try_catch, bind.
      unfold notificationService.getNotifications, try_catch, bind.
      rewrite (AsyncStorage_getItem_ok _ _ Hr).
      rewrite (stored_value_parse _ _ _ _ (stored_array_value _ _ _ Hall)).
      cbn -[Nat.leb Array_map].
      pose proof (Array_filter_prop "userId" userId all (next_call w) Hobj) as Hf.
      unfold bind in Hf. rewrite Hf.
      fold (owned_by userId).
      rewrite (proj2 (Nat.leb_gt _ _) Hfew). cbn -[Array_sort].
      rewrite unread_filter_ok.
      * simpl. unfold unread_of. by rewrite Array_sort_count.
      * rewrite List.Forall_forall. intros n Hn.
        apply list_elem_of_In in Hn. rewrite Array_sort_perm in Hn.
        apply list_elem_of_In, List.filter_In in Hn as [_ Hn].
        by apply (owned_not_null userId).
Qed.

(** When AsyncStorage rejects the read, or the stored text is not JSON, or
    it is JSON but not an array, [getUnreadCount] returns 0 and the one
    message on the console is the one of [getNotifications]. *)
Lemma getUnreadCount_failure userId w :
  rejects w = true
  \/ stored_garbage notificationService.STORAGE_KEY w
  \/ stored_no_array notificationService.STORAGE_KEY w ->
  exists e,
    notificationService.getUnreadCount userId w
    = (Ok 0, log (ConsoleError "Erro ao carregar notificações:" e) (next_call w)).
Proof.
  intros H. unfold notificationService.getUnreadCount,
    notificationService.getNotifications, try_catch, bind.
  destruct (rejects w) eqn:Hr.
  - unfold AsyncStorage.getItem, AsyncStorage.call. rewrite Hr. simpl.
    eexists. reflexivity.
  - rewrite (AsyncStorage_getItem_ok _ _ Hr).
    destruct H as [H|[(text & -> & Hbad%not_valid_no_parse)|(v & Hv & Hno)]]; [done| |].
    + unfold JSON_parse, of_option. rewrite Hbad. simpl. eexists. reflexivity.
    + rewrite (stored_value_parse _ _ _ _ Hv).
      destruct v; try done; simpl; eexists; reflexivity.
Qed.

(** A [null] among the notifications makes the filter by user throw. *)
Lemma Array_filter_null k (f : option JSValue -> bool) items w :
  ~ Forall (fun n => n <> JNull) items ->
  Array_filter (fun n => let* x := get_prop n k in ret (f x)) items w
  = (Throw TypeError, w).
Proof.
  induction items as [|n items IH]; intros Hnot; [by destruct Hnot|].
  assert (n = JNull \/ n <> JNull) as [->|Hn] by (destruct n; auto).
  - done.
  - simpl. unfold bind in *. rewrite (get_prop_not_null n k w Hn). simpl.
    rewrite IH; [done|]. intros Hrest. apply Hnot. by constructor.
Qed.

(** A [try] whose [catch] returns, returns. *)
Lemma try_catch_returns {A} (body : M A) (handler : Error -> M A) w :
  (forall e w0, exists a w', handler e w0 = (Ok a, w')) ->
  exists a w', try_catch body handler w = (Ok a, w').
Proof.
  intros Hh. unfold try_catch. destruct (body w) as [[a|e] w1]; [by eexists _, _|].
  apply Hh.
Qed.

(** X21: [getUnreadCount(userId)] always returns a number. With a readable
    list without [null] where a Date can be made of every [createdAt] of
    the user, it is the number of stored notifications whose [userId] is
    the given one and whose [read] is falsy or missing; the order that the
    sort gives them does not enter the count. A failure looks like an empty
    inbox: when AsyncStorage rejects the read, or the stored text is not
    JSON, or it is JSON but not an array, the count is 0 and the one message
    on the console is the one of [getNotifications], which has already
    turned the error into an empty list; and so it is when the array holds
    a [null], and when the user has two or more notifications and no Date
    can be made of the [createdAt] of one of them, the comparator of the
    sort throwing a TypeError. *)
Theorem getUnreadCount_counts_unread userId w :
  exists n,
    result (notificationService.getUnreadCount userId) w = Ok n
    /\ (forall all,
          rejects w = false ->
          stored_array notificationService.STORAGE_KEY w = Some all ->
          Forall (fun a => a <> JNull) all ->
          Forall (fun a => owned_by userId a = true -> datable a = true) all ->
          n = unread_of userId all /\ 0 <= n <= Z.of_nat (length all))
    /\ (rejects w = true
        \/ stored_garbage notificationService.STORAGE_KEY w
        \/ stored_no_array notificationService.STORAGE_KEY w
        \/ (rejects w = false
            /\ exists all,
                 stored_array notificationService.STORAGE_KEY w = Some all
                 /\ (~ Forall (fun a => a <> JNull) all
                     \/ (Forall (fun a => a <> JNull) all
                         /\ (2 <= length (List.filter (owned_by userId) all))%nat
                         /\ Exists (fun a => datable a = false)
                              (List.filter (owned_by userId) all)))) ->
        n = 0
        /\ exists e,
             console (after (notificationService.getUnreadCount userId) w)
             = ConsoleError "Erro ao carregar notificações:" e :: console w).
Proof.
  assert (forall all,
             stored_array notificationService.STORAGE_KEY w = Some all ->
             ~ stored_garbage notificationService.STORAGE_KEY w
             /\ ~ stored_no_array notificationService.STORAGE_KEY w) as Hreadable.
  { intros all Hall. unfold stored_array, stored_garbage, stored_no_array in *.
    split.
    - intros (text & Htext & Hbad%not_valid_no_parse).
      unfold stored_value in Hall. rewrite Htext, Hbad in Hall. done.
    - intros (v & Hv & Hno). rewrite Hv in Hall. by destruct v. }
  assert (forall n,
             result (notificationService.getUnreadCount userId) w = Ok n ->
             forall all,
               rejects w = false ->
               stored_array notificationService.STORAGE_KEY w = Some all ->
               Forall (fun a => a <> JNull) all ->
               Forall (fun a => owned_by userId a = true -> datable a = true) all ->
               n = unread_of userId all /\ 0 <= n <= Z.of_nat (length all)) as Hcount.
  { intros n Hn all Hr Hall Hobj Hdates. unfold result in Hn.
    rewrite (getUnreadCount_eq userId w all Hr Hall Hobj Hdates) in Hn.
    injection Hn as <-. split; [done|]. unfold unread_of.
    pose proof (filter_length_le unread (List.filter (owned_by userId) all)).
    pose proof (filter_length_le (owned_by userId) all). lia. }
  assert (rejects w = true
          \/ stored_garbage notificationService.STORAGE_KEY w
          \/ stored_no_array notificationService.STORAGE_KEY w
          \/ (rejects w = false
              /\ exists all,
                   stored_array notificationService.STORAGE_KEY w = Some all
                   /\ (~ Forall (fun a => a <> JNull) all
                       \/ (Forall (fun a => a <> JNull) all
                           /\ (2 <= length (List.filter (owned_by userId) all))%nat
                           /\ Exists (fun a => datable a = false)
                                (List.filter (owned_by userId) all)))) ->
          exists e,
            notificationService.getUnreadCount userId w
            = (Ok 0, log (ConsoleError "Erro ao carregar notificações:" e) (next_call w)))
    as Hfail.
  { intros [H|[H|[H|(Hr & all & Hall & [Hnull|(Hobj & Hmany & Hbad)])]]];
      try (apply getUnreadCount_failure; by auto).
    - exists TypeError.
      unfold notificationService.getUnreadCount, notificationService.getNotifications,
        try_catch, bind.
      rewrite (AsyncStorage_getItem_ok _ _ Hr).
      rewrite (stored_value_parse _ _ _ _ (stored_array_value _ _ _ Hall)).
      cbn -[Nat.leb Array_map].
      pose proof (Array_filter_null "userId" (fun x => strict_eq_str x userId) all
                    (next_call w) Hnull) as Hf.
      unfold bind in Hf. by rewrite Hf.
    - exists TypeError. unfold notificationService.getUnreadCount, try_catch, bind.
      by rewrite (getNotifications_undatable userId w all Hr Hall Hobj Hmany Hbad). }
  assert (exists n, result (notificationService.getUnreadCount userId) w = Ok n)
    as [n Hn].
  { unfold result, notificationService.getUnreadCount.
    destruct (try_catch_returns
                (let* notifications := notificationService.getNotifications userId in
                 let* unread :=
                   Array_filter
                     (fun n => let* read := get_prop n "read" in ret (js_not read))
                     notifications in
                 ret (Z.of_nat (length unread)))
                (fun error =>
                   let* _ :=
                     console_error "Erro ao contar notificações não lidas:" error in
                   ret 0) w) as (n & w' & Hn).
    - intros e w0. by eexists _, _.
    - exists n. by rewrite Hn. }
  exists n. split; [done|]. split; [by apply Hcount|].
  intros Hbad. destruct (Hfail Hbad) as [e He]. unfold result, after in *.
  rewrite He in *. simpl in *. split; [congruence|]. by exists e.
Qed.

(** On a list of two notifications of a user, unread both, one of them with
    the object [{"toString": 1}] for its [createdAt], the count is 0. *)
Example undatable_notification_hides_unread :
  result (notificationService.getUnreadCount "u1") undatable_world = Ok 0.
Proof. vm_compute. reflexivity. Qed.

Lemma prop_as_read fields key :
  prop (notificationService.as_read (JObj fields)) key
  = if String.eqb key "read" then Some (JBool true) else assoc_get key fields.
Proof. apply (assoc_get_set key "read" (JBool true) fields). Qed.

Lemma prop_mark_where k s n key :
  strict_eq_str (prop n k) s = true ->
  prop (mark_where k s n) key
  = if String.eqb key "read" then Some (JBool true) else prop n key.
Proof.
  intros E. unfold mark_where. rewrite E.
  apply strict_eq_str_inv in E. apply prop_object in E as [fields ->].
  apply prop_as_read.
Qed.

Lemma mark_where_not_null k s n : n <> JNull -> mark_where k s n <> JNull.
Proof.
  intros Hn. unfold mark_where. by destruct (strict_eq_str (prop n k) s).
Qed.

Lemma owned_by_mark_where k s userId n :
  owned_by userId (mark_where k s n) = owned_by userId n.
Proof.
  unfold owned_by. destruct (strict_eq_str (prop n k) s) eqn:E.
  - by rewrite (prop_mark_where k s n "userId" E).
  - unfold mark_where. by rewrite E.
Qed.

Lemma unread_mark_where k s n :
  unread (mark_where k s n)
  = if strict_eq_str (prop n k) s then false else unread n.
Proof.
  unfold unread. destruct (strict_eq_str (prop n k) s) eqn:E.
  - by rewrite (prop_mark_where k s n "read" E).
  - unfold mark_where. by rewrite E.
Qed.

Lemma unread_of_cons userId n all :
  unread_of userId (n :: all)
  = (if owned_by userId n && unread n then 1 else 0) + unread_of userId all.
Proof.
  unfold unread_of. simpl. destruct (owned_by userId n); simpl; [|lia].
  destruct (unread n); simpl; lia.
Qed.

Lemma unread_of_nonneg userId all : 0 <= unread_of userId all.
Proof. unfold unread_of. lia. Qed.

(** The body that [markAsRead] and [markAllAsRead] share, with [k] the
    property they compare. *)
Lemma mark_ok k s w all :
  quiet 2 w ->
  stored_array notificationService.STORAGE_KEY w = Some all ->
  JSON.well_formed (JArr all) = true ->
  Forall (fun n => n <> JNull) all ->
  exists w',
    (let* allNotifications := notificationService.read_all in
     let* items := as_array allNotifications in
     let* updatedNotifications :=
       Array_map
         (fun n =>
            let* x := get_prop n k in
            ret (if strict_eq_str x s then notificationService.as_read n else n))
         items in
     notificationService.write_all (JArr updatedNotifications)) w = (Ok tt, w')
    /\ forall t fs,
         stored_array notificationService.STORAGE_KEY (later t fs w')
         = Some (map (mark_where k s) all).
Proof.
  intros Hq Hall Hwf Hobj.
  pose proof (quiet_rejects 1 w Hq) as Hr1.
  pose proof (quiet_rejects 0 _ (quiet_next 1 w Hq)) as Hr2.
  destruct (write_all_ok (map (mark_where k s) all) (next_call w) Hr2)
    as (w' & Hw & _ & Hlater).
  { apply well_formed_items. apply well_formed_items in Hwf.
    rewrite List.Forall_forall in *. intros n (n0 & <- & Hn0)%in_map_iff.
    apply well_formed_mark_where. by apply Hwf. }
  exists w'. split; [|done].
  unfold bind. rewrite (read_all_ok w all Hr1 Hall). simpl.
  pose proof (Array_map_get_prop k
                (fun n x => if strict_eq_str x s then notificationService.as_read n else n)
                all (next_call w) Hobj) as Hmap.
  unfold bind in Hmap. rewrite Hmap. exact Hw.
Qed.

(** X22: when the stored notifications are a well-formed array without
    [null] and the read and the write go through, then after
    [markAllAsRead(userId)] the stored list is the old one with
    [read: true] in every notification of that user,
    [getUnreadCount(userId)] is 0 at any later time, and the notifications
    of every other user are the ones they were. *)
Theorem markAllAsRead_clears_unread userId w all :
  quiet 2 w ->
  stored_array notificationService.STORAGE_KEY w = Some all ->
  JSON.well_formed (JArr all) = true ->
  Forall (fun n => n <> JNull) all ->
  exists w',
    notificationService.markAllAsRead userId w = (Ok tt, w')
    /\ (forall t fs,
          stored_array notificationService.STORAGE_KEY (later t fs w')
          = Some (map (mark_where "userId" userId) all))
    /\ (forall t fs,
          result (notificationService.getUnreadCount userId) (later t (false :: fs) w')
          = Ok 0)
    /\ forall other,
         other <> userId ->
         List.filter (owned_by other) (map (mark_where "userId" userId) all)
         = List.filter (owned_by other) all.
Proof.
  intros Hq Hall Hwf Hobj.
  destruct (mark_ok "userId" userId w all Hq Hall Hwf Hobj) as (w' & Hrun & Hstored).
  exists w'. split; [|split; [done|split]].
  - unfold notificationService.markAllAsRead, try_catch.
    unfold bind in *. by rewrite Hrun.
  - intros t fs.
    assert (unread_of userId (map (mark_where "userId" userId) all) = 0) as Hnone.
    { clear. induction all as [|n all IH]; [done|].
      simpl map. rewrite unread_of_cons, IH, owned_by_mark_where, unread_mark_where.
      fold (owned_by userId n). by destruct (owned_by userId n). }
    destruct (getUnreadCount_cases userId (later t (false :: fs) w')
                (map (mark_where "userId" userId) all)) as [Hcount|Hcount];
      [done|apply Hstored| |by rewrite Hcount, Hnone|done].
    rewrite List.Forall_forall in *. intros n (n0 & <- & Hn0)%in_map_iff.
    apply mark_where_not_null. by apply Hobj.
  - intros other Hne. clear -Hne. induction all as [|n all IH]; [done|].
    simpl. rewrite owned_by_mark_where, IH.
    destruct (owned_by other n) eqn:Ho; [|done]. f_equal.
    unfold mark_where. destruct (strict_eq_str (prop n "userId") userId) eqn:E; [|done].
    apply strict_eq_str_inv in E. apply strict_eq_str_inv in Ho. congruence.
Qed.

Lemma markAllAsRead_clears_unread_witness :
  exists w',
    notificationService.markAllAsRead "u1" notifications_world = (Ok tt, w')
    /\ (forall t fs,
          stored_array notificationService.STORAGE_KEY (later t fs w')
          = Some (map (mark_where "userId" "u1") sample_notifications))
    /\ (forall t fs,
          result (notificationService.getUnreadCount "u1") (later t (false :: fs) w')
          = Ok 0)
    /\ forall other,
         other <> "u1" ->
         List.filter (owned_by other) (map (mark_where "userId" "u1") sample_notifications)
         = List.filter (owned_by other) sample_notifications.
Proof.
  apply (markAllAsRead_clears_unread "u1" notifications_world sample_notifications).
  - vm_compute. constructor.
  - vm_compute. reflexivity.
  - vm_compute. reflexivity.
  - repeat constructor; discriminate.
Defined.

(** X23: when the stored notifications are a well-formed array without
    [null] and the read and the write go through, then after
    [markAsRead(id)] the stored list is the old one with every
    notification of that [id] replaced by a copy whose [read]
    is [true] and whose other properties are unchanged; the others are
    passed through, so that nobody has more unread notifications than
    before. *)
Theorem markAsRead_marks_matching notificationId w all :
  quiet 2 w ->
  stored_array notificationService.STORAGE_KEY w = Some all ->
  JSON.well_formed (JArr all) = true ->
  Forall (fun n => n <> JNull) all ->
  exists w',
    notificationService.markAsRead notificationId w = (Ok tt, w')
    /\ (forall t fs,
          stored_array notificationService.STORAGE_KEY (later t fs w')
          = Some (map (mark_where "id" notificationId) all))
    /\ (forall n key,
          strict_eq_str (prop n "id") notificationId = true ->
          prop (mark_where "id" notificationId n) key
          = if String.eqb key "read" then Some (JBool true) else prop n key)
    /\ (forall n,
          strict_eq_str (prop n "id") notificationId = false ->
          mark_where "id" notificationId n = n)
    /\ forall userId,
         unread_of userId (map (mark_where "id" notificationId) all)
         <= unread_of userId all.
Proof.
  intros Hq Hall Hwf Hobj.
  destruct (mark_ok "id" notificationId w all Hq Hall Hwf Hobj) as (w' & Hrun & Hstored).
  exists w'. split; [|split; [done|split; [|split]]].
  - unfold notificationService.markAsRead, try_catch.
    unfold bind in *. by rewrite Hrun.
  - intros n key E. by apply prop_mark_where.
  - intros n E. unfold mark_where. by rewrite E.
  - intros userId. clear. induction all as [|n all IH]; [done|].
    simpl map. rewrite !unread_of_cons, owned_by_mark_where, unread_mark_where.
    destruct (owned_by userId n), (strict_eq_str (prop n "id") notificationId),
      (unread n); simpl; lia.
Qed.

Lemma markAsRead_marks_matching_witness :
  exists w',
    notificationService.markAsRead "n3" notifications_world = (Ok tt, w')
    /\ (forall t fs,
          stored_array notificationService.STORAGE_KEY (later t fs w')
          = Some (map (mark_where "id" "n3") sample_notifications))
    /\ (forall n key,
          strict_eq_str (prop n "id") "n3" = true ->
          prop (mark_where "id" "n3" n) key
          = if String.eqb key "read" then Some (JBool true) else prop n key)
    /\ (forall n,
          strict_eq_str (prop n "id") "n3" = false ->
          mark_where "id" "n3" n = n)
    /\ forall userId,
         unread_of userId (map (mark_where "id" "n3") sample_notifications)
         <= unread_of userId sample_notifications.
Proof.
  apply (markAsRead_marks_matching "n3" notifications_world sample_notifications).
  - vm_compute. constructor.
  - vm_compute. reflexivity.
  - vm_compute. reflexivity.
  - repeat constructor; discriminate.
Defined.

Lemma filter_comm {A} (p q : A -> bool) l :
  List.filter p (List.filter q l) = List.filter q (List.filter p l).
Proof.
  induction l as [|x l IH]; [done|]. simpl.
  destruct (p x) eqn:Hp, (q x) eqn:Hq; simpl; rewrite ?Hp, ?Hq, IH; done.
Qed.

Lemma StronglySorted_filter {A} (R : A -> A -> Prop) (p : A -> bool) l :
  StronglySorted R l -> StronglySorted R (List.filter p l).
Proof.
  induction 1 as [|x l Hs IH Hx]; simpl; [constructor|].
  destruct (p x); [|done]. constructor; [done|].
  rewrite List.Forall_forall in *. intros y [Hy _]%List.filter_In. by apply Hx.
Qed.

Lemma Forall_filter_keep {A} (P : A -> Prop) (p : A -> bool) l :
  Forall P l -> Forall P (List.filter p l).
Proof.
  rewrite !List.Forall_forall. intros H x [Hx _]%List.filter_In. by apply H.
Qed.

(** With valid dates, selecting before the sort or after it gives the same
    list. *)
Lemma Array_sort_filter (p : JSValue -> bool) l :
  Forall (fun n => is_Some (notificationService.created n)) l ->
  Array_sort notificationService.newest_first (List.filter p l)
  = List.filter p (Array_sort notificationService.newest_first l).
Proof.
  intros Hl.
  assert (Forall (fun n => is_Some (notificationService.created n))
            (Array_sort notificationService.newest_first l)) as Hsl.
  { rewrite List.Forall_forall in *. intros n Hn. apply Hl.
    apply list_elem_of_In. apply list_elem_of_In in Hn.
    by rewrite Array_sort_perm in Hn. }
  apply stable_sorted_unique.
  - rewrite List.Forall_forall in *. intros n Hn. apply Hl.
    apply list_elem_of_In in Hn. rewrite Array_sort_perm in Hn.
    by apply list_elem_of_In, List.filter_In in Hn as [Hn _].
  - by apply Forall_filter_keep.
  - apply Array_sort_sorted. by apply Forall_filter_keep.
  - apply StronglySorted_filter. by apply Array_sort_sorted.
  - intros t. rewrite Array_sort_stable.
    rewrite (filter_comm (created_at t) p (Array_sort _ l)), Array_sort_stable.
    apply filter_comm.
Qed.

(** X24: when the stored notifications are a well-formed array without
    [null] and the read and the write go through, then after
    [deleteNotification(id)] the stored list is the old one without the
    notifications of that [id], and what
    [getNotifications] gives a user whose notifications all have a valid
    date is what it gave before, less those notifications and in the same
    order. *)
Theorem deleteNotification_keeps_the_rest notificationId w all :
  quiet 2 w ->
  stored_array notificationService.STORAGE_KEY w = Some all ->
  JSON.well_formed (JArr all) = true ->
  Forall (fun n => n <> JNull) all ->
  exists w',
    notificationService.deleteNotification notificationId w = (Ok tt, w')
    /\ (forall t fs,
          stored_array notificationService.STORAGE_KEY (later t fs w')
          = Some (List.filter (other_id notificationId) all))
    /\ forall userId r,
         Forall (fun n => owned_by userId n = true
                          -> is_Some (notificationService.created n)) all ->
         result (notificationService.getNotifications userId) w = Ok r ->
         forall t fs,
           result (notificationService.getNotifications userId) (later t (false :: fs) w')
           = Ok (List.filter (other_id notificationId) r).
Proof.
  intros Hq Hall Hwf Hobj.
  pose proof (quiet_rejects 1 w Hq) as Hr1.
  pose proof (quiet_rejects 0 _ (quiet_next 1 w Hq)) as Hr2.
  destruct (write_all_ok (List.filter (other_id notificationId) all) (next_call w) Hr2)
    as (w' & Hw & _ & Hlater).
  { apply well_formed_items. apply well_formed_items in Hwf.
    by apply Forall_filter_keep. }
  exists w'. split; [|split; [done|]].
  - unfold notificationService.deleteNotification, try_catch, bind.
    rewrite (read_all_ok w all Hr1 Hall). simpl.
    pose proof (Array_filter_get_prop "id"
                  (fun x => negb (strict_eq_str x notificationId))
                  all (next_call w) Hobj) as Hf.
    unfold bind in Hf. rewrite Hf.
    change (List.filter _ all) with (List.filter (other_id notificationId) all).
    unfold bind in Hw. by rewrite Hw.
  - intros userId r Htimes Hbefore t fs. unfold result in *.
    assert (Forall (fun n => owned_by userId n = true -> datable n = true) all)
      as Hdates.
    { eapply Forall_impl; [exact Htimes|]. intros n Hn Hown.
      by apply created_datable, Hn. }
    rewrite (getNotifications_ok userId w all Hr1 Hall Hobj Hdates) in Hbefore.
    simpl in Hbefore. injection Hbefore as <-.
    rewrite (getNotifications_ok userId _ (List.filter (other_id notificationId) all));
      [|done|apply Hlater|by apply Forall_filter_keep|by apply Forall_filter_keep].
    simpl. f_equal. rewrite filter_comm. apply Array_sort_filter.
    rewrite List.Forall_forall in *. intros n [Hn Ho]%List.filter_In.
    by apply Htimes.
Qed.

Lemma deleteNotification_keeps_the_rest_witness :
  exists w',
    notificationService.deleteNotification "n1" notifications_world = (Ok tt, w')
    /\ (forall t fs,
          stored_array notificationService.STORAGE_KEY (later t fs w')
          = Some (List.filter (other_id "n1") sample_notifications))
    /\ forall userId r,
         Forall (fun n => owned_by userId n = true
                          -> is_Some (notificationService.created n))
           sample_notifications ->
         result (notificationService.getNotifications userId) notifications_world = Ok r ->
         forall t fs,
           result (notificationService.getNotifications userId) (later t (false :: fs) w')
           = Ok (List.filter (other_id "n1") r).
Proof.
  apply (deleteNotification_keeps_the_rest "n1" notifications_world sample_notifications).
  - vm_compute. constructor.
  - vm_compute. reflexivity.
  - vm_compute. reflexivity.
  - repeat constructor; discriminate.
Defined.

Lemma unread_of_app userId l1 l2 :
  unread_of userId (l1 ++ l2) = unread_of userId l1 + unread_of userId l2.
Proof.
  unfold unread_of. rewrite !List.filter_app, length_app. lia.
Qed.

(** X25: when the stored notifications are a well-formed array, [n] is a
    well-formed object and the read and the write go through, then after
    [createNotification(n)] the stored list is the old one with one
    notification more at its end: a copy of [n] whose
    [id] is the reading of the clock in decimal, whose [createdAt] is the
    reading of the clock in ISO format and whose [read] is [false], whatever
    [n] said about these three; the user named in [n] has one unread
    notification more and nobody else has. The clock is read twice in a row
    and taken not to move in between. The [id] depends on the clock alone,
    so two notifications created at the same reading share it. *)
Theorem createNotification_appends fields w all stamp :
  quiet 2 w ->
  stored_array notificationService.STORAGE_KEY w = Some all ->
  JSON.well_formed (JArr all) = true ->
  JSON.well_formed (JObj fields) = true ->
  Date.toISOString (clock w) = Some stamp ->
  exists w',
    notificationService.createNotification (JObj fields) w = (Ok tt, w')
    /\ (forall t fs,
          stored_array notificationService.STORAGE_KEY (later t fs w')
          = Some (all ++ [new_notification (JObj fields) (clock w) stamp]))
    /\ (forall k,
          prop (new_notification (JObj fields) (clock w) stamp) k
          = if String.eqb k "id" then Some (JStr (Number_toString (clock w)))
            else if String.eqb k "createdAt" then Some (JStr stamp)
            else if String.eqb k "read" then Some (JBool false)
            else assoc_get k fields)
    /\ forall userId,
         unread_of userId (all ++ [new_notification (JObj fields) (clock w) stamp])
         = unread_of userId all
           + (if strict_eq_str (assoc_get "userId" fields) userId then 1 else 0).
Proof.
  intros Hq Hall Hwf Hn Hstamp.
  pose proof (quiet_rejects 1 w Hq) as Hr1.
  pose proof (quiet_rejects 0 _ (quiet_next 1 w Hq)) as Hr2.
  assert (forall k,
            prop (new_notification (JObj fields) (clock w) stamp) k
            = if String.eqb k "id" then Some (JStr (Number_toString (clock w)))
              else if String.eqb k "createdAt" then Some (JStr stamp)
              else if String.eqb k "read" then Some (JBool false)
              else assoc_get k fields) as Hprop.
  { intros k. unfold new_notification.
    change (prop (JObj ?f) k) with (assoc_get k f).
    rewrite assoc_get_spread.
    - simpl. by destruct (String.eqb k "id"), (String.eqb k "createdAt"),
        (String.eqb k "read").
    - apply distinct_NoDup. reflexivity. }
  destruct (write_all_ok (all ++ [new_notification (JObj fields) (clock w) stamp])
              (next_call w) Hr2) as (w' & Hw & _ & Hlater).
  { apply well_formed_items. apply well_formed_items in Hwf.
    apply Forall_app. split; [done|]. constructor; [|constructor].
    unfold new_notification. by apply well_formed_spread. }
  exists w'. split; [|split; [done|split; [done|]]].
  - unfold notificationService.createNotification, try_catch, Date_toISOString, bind.
    rewrite (read_all_ok w all Hr1 Hall). simpl. rewrite Hstamp. simpl.
    unfold bind in Hw. unfold new_notification in Hw. simpl in Hw. by rewrite Hw.
  - intros userId. rewrite unread_of_app. f_equal.
    rewrite unread_of_cons. unfold owned_by, unread. rewrite !Hprop. simpl.
    change (unread_of userId []) with 0.
    destruct (strict_eq_str (assoc_get "userId" fields) userId); simpl; lia.
Qed.

Lemma createNotification_appends_witness :
  exists w',
    notificationService.createNotification
      (JObj [("userId", JStr "u2"); ("title", JStr "Lembrete de Consulta")])
      (with_clock 1755786600000 notifications_world) = (Ok tt, w')
    /\ (forall t fs,
          stored_array notificationService.STORAGE_KEY (later t fs w')
          = Some (sample_notifications
                    ++ [new_notification
                          (JObj [("userId", JStr "u2");
                                 ("title", JStr "Lembrete de Consulta")])
                          (clock (with_clock 1755786600000 notifications_world))
                          "2025-08-21T14:30:00.000Z"]))
    /\ (forall k,
          prop (new_notification
                  (JObj [("userId", JStr "u2"); ("title", JStr "Lembrete de Consulta")])
                  (clock (with_clock 1755786600000 notifications_world))
                  "2025-08-21T14:30:00.000Z") k
          = if String.eqb k "id"
            then Some (JStr (Number_toString
                               (clock (with_clock 1755786600000 notifications_world))))
            else if String.eqb k "createdAt" then Some (JStr "2025-08-21T14:30:00.000Z")
            else if String.eqb k "read" then Some (JBool false)
            else assoc_get k [("userId", JStr "u2"); ("title", JStr "Lembrete de Consulta")])
    /\ forall userId,
         unread_of userId
           (sample_notifications
              ++ [new_notification
                    (JObj [("userId", JStr "u2"); ("title", JStr "Lembrete de Consulta")])
                    (clock (with_clock 1755786600000 notifications_world))
                    "2025-08-21T14:30:00.000Z"])
         = unread_of userId sample_notifications
           + (if strict_eq_str
                   (assoc_get "userId"
                      [("userId", JStr "u2"); ("title", JStr "Lembrete de Consulta")])
                   userId
              then 1 else 0).
Proof.
  apply (createNotification_appends
           [("userId", JStr "u2"); ("title", JStr "Lembrete de Consulta")]
           (with_clock 1755786600000 notifications_world) sample_notifications
           "2025-08-21T14:30:00.000Z").
  - vm_compute. constructor.
  - vm_compute. reflexivity.
  - vm_compute. reflexivity.
  - vm_compute. reflexivity.
  - vm_compute. reflexivity.
Defined.

(** *** What the notification service may touch *)

Lemma writes_only_read_only {A} key (m : M A) : read_only m -> writes_only key m.
Proof. intros H w. destruct (H w) as [Hd Hc]. split; [done|]. intros k _. by rewrite Hd. Qed.

Lemma writes_only_bind {A B} key (m : M A) (k : A -> M B) :
  writes_only key m -> (forall a, writes_only key (k a)) -> writes_only key (bind m k).
Proof.
  intros Hm Hk w. specialize (Hm w). unfold after, bind in *.
  destruct (m w) as [[a|e] w1]; simpl in *; [|done].
  destruct Hm as [Hc Hd]. destruct (Hk a w1) as [Hc' Hd']. unfold after in *.
  split; [congruence|]. intros k0 Hne. by rewrite Hd', Hd.
Qed.

Lemma writes_only_try_catch {A} key (body : M A) (handler : Error -> M A) :
  writes_only key body -> (forall e, writes_only key (handler e)) ->
  writes_only key (try_catch body handler).
Proof.
  intros Hm Hk w. specialize (Hm w). unfold after, try_catch in *.
  destruct (body w) as [[a|e] w1]; simpl in *; [done|].
  destruct Hm as [Hc Hd]. destruct (Hk e w1) as [Hc' Hd']. unfold after in *.
  split; [congruence|]. intros k0 Hne. by rewrite Hd', Hd.
Qed.

Lemma writes_only_setItem key text : writes_only key (AsyncStorage.setItem key text).
Proof.
  intros w. unfold after, AsyncStorage.setItem, AsyncStorage.call.
  destruct (rejects w); simpl; [done|]. split; [done|].
  intros k Hne. by apply lookup_insert_ne.
Qed.

Lemma read_only_Date_now : read_only Date_now.
Proof. by intros w. Qed.

Lemma read_only_Date_toISOString : read_only Date_toISOString.
Proof.
  apply read_only_bind; [apply read_only_Date_now|intros; apply read_only_of_option].
Qed.

Lemma read_only_Array_push v item : read_only (Array_push v item).
Proof. intros w. by destruct v. Qed.

Lemma read_only_read_all : read_only notificationService.read_all.
Proof.
  apply read_only_bind; [apply read_only_AsyncStorage_getItem|]. intros stored.
  destruct (stored_text stored); [apply read_only_of_option|apply read_only_ret].
Qed.

Lemma writes_only_write_all v :
  writes_only notificationService.STORAGE_KEY (notificationService.write_all v).
Proof.
  apply writes_only_bind; [apply writes_only_read_only, read_only_of_option|].
  intros text. apply writes_only_setItem.
Qed.

Lemma mutate_writes_only m : writes_only notificationService.STORAGE_KEY (mutate m).
Proof.
  destruct m; simpl; (apply writes_only_try_catch;
    [|intros; apply writes_only_read_only, read_only_console_error]).
  - apply writes_only_bind; [apply writes_only_read_only, read_only_read_all|]. intros ?.
    apply writes_only_bind; [apply writes_only_read_only, read_only_Date_now|]. intros ?.
    apply writes_only_bind; [apply writes_only_read_only, read_only_Date_toISOString|].
    intros ?.
    apply writes_only_bind; [apply writes_only_read_only, read_only_Array_push|]. intros ?.
    apply writes_only_write_all.
  - apply writes_only_bind; [apply writes_only_read_only, read_only_read_all|]. intros ?.
    apply writes_only_bind; [apply writes_only_read_only, read_only_as_array|]. intros ?.
    apply writes_only_bind; [|intros; apply writes_only_write_all].
    apply writes_only_read_only, read_only_Array_map. intros n.
    apply read_only_bind; [apply read_only_get_prop|intros; apply read_only_ret].
  - apply writes_only_bind; [apply writes_only_read_only, read_only_read_all|]. intros ?.
    apply writes_only_bind; [apply writes_only_read_only, read_only_as_array|]. intros ?.
    apply writes_only_bind; [|intros; apply writes_only_write_all].
    apply writes_only_read_only, read_only_Array_map. intros n.
    apply read_only_bind; [apply read_only_get_prop|intros; apply read_only_ret].
  - apply writes_only_bind; [apply writes_only_read_only, read_only_read_all|]. intros ?.
    apply writes_only_bind; [apply writes_only_read_only, read_only_as_array|]. intros ?.
    apply writes_only_bind; [|intros; apply writes_only_write_all].
    apply writes_only_read_only, read_only_Array_filter. intros n.
    apply read_only_bind; [apply read_only_get_prop|intros; apply read_only_ret].
Qed.

Lemma swallowed (body : M unit) msg w :
  result (try_catch body (fun error => console_error msg error)) w = Ok tt.
Proof.
  unfold result, try_catch, console_error. by destruct (body w) as [[[]|e] w1].
Qed.

(** X26: [createNotification], [markAsRead], [markAllAsRead] and
    [deleteNotification] never throw: whatever goes wrong, a rejected read
    or write, a text that does not parse, a stored value that is no list,
    the promise resolves and the caller cannot tell. In AsyncStorage they
    touch no key but [@MedicalApp:notifications], and they never touch the
    cache of the storage service. *)
Theorem mutators_swallow_errors m :
  (forall w, result (mutate m) w = Ok tt)
  /\ writes_only notificationService.STORAGE_KEY (mutate m).
Proof.
  split; [|apply mutate_writes_only].
  intros w. destruct m; apply swallowed.
Qed.

(** X27: the storage service does not see what the notification service
    changes. Both keep the notifications under the same key, but the
    notification service writes to AsyncStorage directly: once the storage
    service has the list in its cache, which its own reads and writes leave
    there without expiry, [storageService.getNotifications] keeps returning
    that list after any [createNotification], [markAsRead],
    [markAllAsRead] or [deleteNotification], at any later time. *)
Theorem cached_notifications_outlive_changes m w c :
  cache w !! STORAGE_KEYS.NOTIFICATIONS = Some c -> expiry c = None ->
  forall t fs,
    result storageService.getNotifications (later t fs (after (mutate m) w))
    = Ok (data c).
Proof.
  intros Hc He t fs. unfold result, storageService.getNotifications.
  rewrite (getItem_cached _ _ _ c); [done| |done].
  destruct (mutate_writes_only m w) as [Hcache _].
  change (cache (later t fs (after (mutate m) w))) with (cache (after (mutate m) w)).
  by rewrite Hcache.
Qed.

Lemma cached_notifications_outlive_changes_witness :
  result storageService.getNotifications
    (later 86400000 [true] (after (mutate (Delete "n1")) cached_notifications_world))
  = Ok (data {| data := JArr sample_notifications; timestamp := 0; expiry := None |}).
Proof.
  apply (cached_notifications_outlive_changes (Delete "n1") cached_notifications_world
           {| data := JArr sample_notifications; timestamp := 0; expiry := None |}).
  - vm_compute. reflexivity.
  - reflexivity.
Defined.

(** *** The authentication service *)

Lemma Array_some_none email l w :
  Forall (fun u => u <> JNull) l ->
  Forall (fun u => strict_eq_str (prop u "email") email = false) l ->
  Array_some (authService.has_email email) l w = (Ok false, w).
Proof.
  induction 1 as [|u l Hu _ IH]; [done|]. intros [He Hl]%Forall_cons.
  simpl. unfold bind, authService.has_email, bind.
  rewrite (get_prop_not_null u "email" w Hu). simpl. rewrite He.
  by apply IH.
Qed.

Lemma Array_find_none (f : option JSValue -> bool) email l w :
  (forall x, f x = true -> strict_eq_str x email = true) ->
  Forall (fun u => u <> JNull) l ->
  Forall (fun u => strict_eq_str (prop u "email") email = false) l ->
  Array_find (fun u => let* e := get_prop u "email" in ret (f e)) l w = (Ok None, w).
Proof.
  intros Hf. induction 1 as [|u l Hu _ IH]; [done|]. intros [He Hl]%Forall_cons.
  simpl. unfold bind. rewrite (get_prop_not_null u "email" w Hu). simpl.
  destruct (f (prop u "email")) eqn:E; [|by apply IH].
  apply Hf in E. congruence.
Qed.

Lemma Array_find_last email l p w :
  Forall (fun u => u <> JNull) l ->
  Forall (fun u => strict_eq_str (prop u "email") email = false) l ->
  p <> JNull -> strict_eq_str (prop p "email") email = true ->
  Array_find (authService.has_email email) (l ++ [p]) w = (Ok (Some p), w).
Proof.
  intros Hl He Hp Hpe. induction Hl as [|u l Hu _ IH]; simpl.
  - unfold bind, authService.has_email, bind.
    rewrite (get_prop_not_null p "email" w Hp). simpl. by rewrite Hpe.
  - apply Forall_cons in He as [Hue He].
    unfold bind, authService.has_email, bind.
    rewrite (get_prop_not_null u "email" w Hu). simpl. rewrite Hue.
    by apply IH.
Qed.

Lemma mockDoctors_not_null : Forall (fun u => u <> JNull) authService.mockDoctors.
Proof. repeat constructor; discriminate. Qed.

Lemma email_free_inv email items :
  email_free email items ->
  String.eqb email authService.admin_email = false
  /\ String.eqb authService.admin_email email = false
  /\ Forall (fun u => strict_eq_str (prop u "email") email = false) authService.mockDoctors
  /\ Forall (fun u => strict_eq_str (prop u "email") email = false) items.
Proof.
  intros [Hne Hall]. apply Forall_app in Hall as [Hd Hi].
  repeat split; try done; apply String.eqb_neq; congruence.
Qed.

Lemma registered_not_null n name email password :
  registered n name email password <> JNull.
Proof. done. Qed.

Lemma registered_email n name email password :
  strict_eq_str (prop (registered n name email password) "email") email = true.
Proof. simpl. apply String.eqb_refl. Qed.

Lemma auth_step {A B} (m : M A) (k : A -> authService.Auth B) u w a w' :
  m w = (Ok a, w') ->
  authService.auth_bind (authService.lift m) k (authService.mkApp u w)
  = k a (authService.mkApp u w').
Proof. intros H. unfold authService.auth_bind, authService.lift. simpl. by rewrite H. Qed.

Lemma auth_fail {A B} (m : M A) (k : A -> authService.Auth B) u w e w' :
  m w = (Throw e, w') ->
  authService.auth_bind (authService.lift m) k (authService.mkApp u w)
  = (authService.Throws e, authService.mkApp u w').
Proof. intros H. unfold authService.auth_bind, authService.lift. simpl. by rewrite H. Qed.

Lemma auth_read {B} (k : JSValue -> authService.Auth B) u w :
  authService.auth_bind authService.read_registeredUsers k (authService.mkApp u w)
  = k u (authService.mkApp u w).
Proof. done. Qed.

Lemma auth_assign {B} (k : unit -> authService.Auth B) v u w :
  authService.auth_bind (authService.assign_registeredUsers v) k (authService.mkApp u w)
  = k tt (authService.mkApp v w).
Proof. done. Qed.

Lemma patient_id n name email password w :
  (let* i := get_prop (registered n name email password) "id" in ToString i) w
  = (Ok ("patient-" +:+ Number_toString (Z.of_nat n + 1)), w).
Proof. done. Qed.

(** What [signIn] does once [register] has put the patient last in the
    list. *)
Lemma signIn_registered name email password items w :
  email_free email items ->
  Forall (fun u => u <> JNull) items ->
  authService.signIn email password
    (authService.mkApp
       (JArr (items ++ [registered (length items) name email password])) w)
  = (authService.Returns
       {| authService.user :=
            authService.without_password (registered (length items) name email password);
          authService.token :=
            "patient-token-" +:+ "patient-"
            +:+ Number_toString (Z.of_nat (length items) + 1) |},
     authService.mkApp
       (JArr (items ++ [registered (length items) name email password])) w).
Proof.
  intros Hfree Hobj. destruct (email_free_inv _ _ Hfree) as (Ha & _ & Hd & Hi).
  unfold authService.signIn. rewrite Ha, andb_false_l.
  rewrite (auth_step _ _ _ _ _ _
             (Array_find_none
                (fun e => strict_eq_str e email && String.eqb password "123456")
                email authService.mockDoctors w
                (fun x Hx => proj1 (proj1 (andb_true_iff _ _) Hx))
                mockDoctors_not_null Hd)).
  cbv iota beta. rewrite auth_read.
  rewrite (auth_step _ _ _ w _ w (eq_refl : as_array (JArr _) w = (Ok _, w))).
  rewrite (auth_step _ _ _ _ _ _
             (Array_find_last email items _ w Hobj Hi
                (registered_not_null _ _ _ _) (registered_email _ _ _ _))).
  cbv iota beta.
  change (truthy (registered ?n ?a ?b ?c)) with true. cbv iota.
  rewrite (auth_step _ _ _ w (Some (JStr password)) w eq_refl).
  change (strict_eq_str (Some (JStr password)) password)
    with (String.eqb password password).
  rewrite String.eqb_refl.
  by rewrite (auth_step _ _ _ _ _ _ (patient_id _ _ _ _ w)).
Qed.

Lemma serializable_pushed items p :
  JSON.serializable (JArr items) = true -> JSON.serializable p = true ->
  JSON.serializable (JArr (items ++ [p])) = true.
Proof.
  simpl. intros Hi Hp. rewrite forallb_app, Hi. simpl. by rewrite Hp.
Qed.

Lemma register_eq name email password items w :
  email_free email items ->
  Forall (fun u => u <> JNull) items ->
  JSON.serializable (JArr items) = true ->
  authService.register name email password (authService.mkApp (JArr items) w)
  = let pushed := JArr (items ++ [registered (length items) name email password]) in
    if rejects w
    then (authService.Throws StorageFailure, authService.mkApp pushed (next_call w))
    else (authService.Returns
            {| authService.user :=
                 authService.without_password
                   (registered (length items) name email password);
               authService.token :=
                 "patient-token-" +:+ "patient-"
                 +:+ Number_toString (Z.of_nat (length items) + 1) |},
          authService.mkApp pushed
            (with_disk
               (<[authService.REGISTERED_USERS :=
                    string_of_list_ascii (JSON.render pushed)]> (disk w))
               (next_call w))).
Proof.
  intros Hfree Hobj Hser. destruct (email_free_inv _ _ Hfree) as (_ & Ha & Hd & Hi).
  pose proof (serializable_pushed items (registered (length items) name email password)
                Hser eq_refl) as Hser'.
  unfold authService.register, authService.email_in_use.
  unfold authService.auth_bind at 1.
  rewrite (auth_step _ _ _ _ _ _ (Array_some_none email _ w mockDoctors_not_null Hd)).
  cbv iota beta. rewrite Ha. cbv iota. rewrite auth_read.
  rewrite (auth_step _ _ _ w _ w (eq_refl : as_array (JArr _) w = (Ok _, w))).
  unfold authService.lift at 1.
  change (authService.world (authService.mkApp ?u ?x)) with x.
  rewrite (Array_some_none email items w Hobj Hi). cbv iota beta.
  change (authService.registeredUsers (authService.mkApp ?u ?x)) with u.
  rewrite auth_read.
  rewrite (auth_step _ _ _ w _ w (eq_refl : as_array (JArr _) w = (Ok _, w))).
  cbv zeta.
  rewrite (auth_step _ _ _ w _ w
             (eq_refl : Array_push (JArr items) _ w = (Ok (JArr (items ++ [_])), w))).
  fold (registered (length items) name email password).
  rewrite auth_assign.
  assert (JSON_stringify
            (JArr (items ++ [registered (length items) name email password])) w
          = (Ok (string_of_list_ascii
                   (JSON.render
                      (JArr (items ++ [registered (length items) name email password])))),
             w)) as Htext.
  { unfold JSON_stringify, JSON.stringify. by rewrite Hser'. }
  rewrite (auth_step _ _ _ _ _ _ Htext).
  destruct (rejects w) eqn:Hr.
  - rewrite (auth_fail _ _ _ w StorageFailure (next_call w)); [done|].
    unfold AsyncStorage.setItem, AsyncStorage.call. by rewrite Hr.
  - erewrite auth_step;
      [|unfold AsyncStorage.setItem, AsyncStorage.call; rewrite Hr; reflexivity].
    by rewrite (auth_step _ _ _ _ _ _ (patient_id _ _ _ _ _)).
Qed.

Lemma Array_some_last email l p w :
  Forall (fun u => u <> JNull) l ->
  Forall (fun u => strict_eq_str (prop u "email") email = false) l ->
  p <> JNull -> strict_eq_str (prop p "email") email = true ->
  Array_some (authService.has_email email) (l ++ [p]) w = (Ok true, w).
Proof.
  intros Hl He Hp Hpe. induction Hl as [|u l Hu _ IH]; simpl.
  - unfold bind, authService.has_email, bind.
    rewrite (get_prop_not_null p "email" w Hp). simpl. by rewrite Hpe.
  - apply Forall_cons in He as [Hue He].
    unfold bind, authService.has_email, bind.
    rewrite (get_prop_not_null u "email" w Hu). simpl. rewrite Hue.
    by apply IH.
Qed.

Lemma register_again name name' email password password' items w :
  email_free email items ->
  Forall (fun u => u <> JNull) items ->
  authService.register name' email password'
    (authService.mkApp
       (JArr (items ++ [registered (length items) name email password])) w)
  = (authService.ThrowsError "Email já está em uso",
     authService.mkApp
       (JArr (items ++ [registered (length items) name email password])) w).
Proof.
  intros Hfree Hobj. destruct (email_free_inv _ _ Hfree) as (_ & Ha & Hd & Hi).
  unfold authService.register, authService.email_in_use.
  unfold authService.auth_bind at 1.
  rewrite (auth_step _ _ _ _ _ _ (Array_some_none email _ w mockDoctors_not_null Hd)).
  cbv iota beta. rewrite Ha. cbv iota. rewrite auth_read.
  rewrite (auth_step _ _ _ w _ w (eq_refl : as_array (JArr _) w = (Ok _, w))).
  unfold authService.lift at 1.
  change (authService.world (authService.mkApp ?u ?x)) with x.
  by rewrite (Array_some_last email items _ w Hobj Hi
                (registered_not_null _ _ _ _) (registered_email _ _ _ _)).
Qed.

(** X28: [register] adds the patient to the list in memory before it writes
    to AsyncStorage. With a list that serializes and has no [null] in it,
    and with an e-mail that nobody has, the list in memory ends
    with the new patient whether the write goes through or is rejected; in
    the second case [register] throws and the store is as it was. Either
    way [signIn] with the same e-mail and password then returns the patient
    without the password and with the token [patient-token-patient-N], and
    registering the e-mail again throws [Email já está em uso]. *)
Theorem register_takes_effect_in_memory name email password items w :
  email_free email items ->
  Forall (fun u => u <> JNull) items ->
  JSON.serializable (JArr items) = true ->
  let patient := registered (length items) name email password in
  let response :=
    {| authService.user := authService.without_password patient;
       authService.token :=
         "patient-token-" +:+ "patient-"
         +:+ Number_toString (Z.of_nat (length items) + 1) |} in
  exists outcome s',
    authService.register name email password (authService.mkApp (JArr items) w)
    = (outcome, s')
    /\ authService.registeredUsers s' = JArr (items ++ [patient])
    /\ (rejects w = true ->
        outcome = authService.Throws StorageFailure
        /\ disk (authService.world s') = disk w)
    /\ (rejects w = false ->
        outcome = authService.Returns response
        /\ disk (authService.world s') !! authService.REGISTERED_USERS
           = JSON.stringify (JArr (items ++ [patient])))
    /\ (forall w2,
          fst (authService.signIn email password
                 (authService.mkApp (authService.registeredUsers s') w2))
          = authService.Returns response)
    /\ prop (authService.user response) "password" = None
    /\ prop (authService.user response) "email" = Some (JStr email)
    /\ forall name' password' w2,
         fst (authService.register name' email password'
                (authService.mkApp (authService.registeredUsers s') w2))
         = authService.ThrowsError "Email já está em uso".
Proof.
  intros Hfree Hobj Hser patient response.
  pose proof (register_eq name email password items w Hfree Hobj Hser) as Hreg.
  cbv zeta in Hreg. fold patient in Hreg. fold response in Hreg.
  assert (JSON.stringify (JArr (items ++ [patient]))
          = Some (string_of_list_ascii (JSON.render (JArr (items ++ [patient])))))
    as Htext.
  { unfold JSON.stringify. by rewrite (serializable_pushed items patient Hser eq_refl). }
  destruct (rejects w) eqn:Hr; eexists; eexists; (split; [exact Hreg|]); simpl.
  - split; [done|]. split; [done|]. split; [done|].
    split; [|split; [done|split; [done|]]].
    + intros w2. unfold patient. by rewrite signIn_registered.
    + intros name' password' w2. unfold patient. by rewrite register_again.
  - split; [done|]. split; [done|]. split.
    { intros _. split; [done|]. rewrite Htext. apply lookup_insert_eq. }
    split; [|split; [done|split; [done|]]].
    + intros w2. unfold patient. by rewrite signIn_registered.
    + intros name' password' w2. unfold patient. by rewrite register_again.
Qed.

Lemma register_takes_effect_in_memory_witness :
  let patient := registered (length sample_patients) "Rui" "rui@example.com" "1234" in
  let response :=
    {| authService.user := authService.without_password patient;
       authService.token :=
         "patient-token-" +:+ "patient-"
         +:+ Number_toString (Z.of_nat (length sample_patients) + 1) |} in
  exists outcome s',
    authService.register "Rui" "rui@example.com" "1234"
      (authService.mkApp (JArr sample_patients) (with_faults [true] fresh_world))
    = (outcome, s')
    /\ authService.registeredUsers s' = JArr (sample_patients ++ [patient])
    /\ (rejects (with_faults [true] fresh_world) = true ->
        outcome = authService.Throws StorageFailure
        /\ disk (authService.world s') = disk (with_faults [true] fresh_world))
    /\ (rejects (with_faults [true] fresh_world) = false ->
        outcome = authService.Returns response
        /\ disk (authService.world s') !! authService.REGISTERED_USERS
           = JSON.stringify (JArr (sample_patients ++ [patient])))
    /\ (forall w2,
          fst (authService.signIn "rui@example.com" "1234"
                 (authService.mkApp (authService.registeredUsers s') w2))
          = authService.Returns response)
    /\ prop (authService.user response) "password" = None
    /\ prop (authService.user response) "email" = Some (JStr "rui@example.com")
    /\ forall name' password' w2,
         fst (authService.register name' "rui@example.com" password'
                (authService.mkApp (authService.registeredUsers s') w2))
         = authService.ThrowsError "Email já está em uso".
Proof.
  apply (register_takes_effect_in_memory "Rui" "rui@example.com" "1234" sample_patients
           (with_faults [true] fresh_world)).
  - split; [discriminate|]. repeat constructor.
  - repeat constructor; discriminate.
  - reflexivity.
Defined.

Lemma signIn_unknown email password items w :
  email_free email items ->
  Forall (fun u => u <> JNull) items ->
  authService.signIn email password (authService.mkApp (JArr items) w)
  = (authService.ThrowsError "Email ou senha inválidos",
     authService.mkApp (JArr items) w).
Proof.
  intros Hfree Hobj. destruct (email_free_inv _ _ Hfree) as (Ha & _ & Hd & Hi).
  unfold authService.signIn. rewrite Ha, andb_false_l.
  rewrite (auth_step _ _ _ _ _ _
             (Array_find_none
                (fun e => strict_eq_str e email && String.eqb password "123456")
                email authService.mockDoctors w
                (fun x Hx => proj1 (proj1 (andb_true_iff _ _) Hx))
                mockDoctors_not_null Hd)).
  cbv iota beta. rewrite auth_read.
  rewrite (auth_step _ _ _ w _ w (eq_refl : as_array (JArr _) w = (Ok _, w))).
  by rewrite (auth_step _ _ _ _ _ _
                (Array_find_none (fun e => strict_eq_str e email) email items w
                   (fun x Hx => Hx) Hobj Hi)).
Qed.

(** X29: a registration survives a restart only through AsyncStorage. After
    [register] has returned (for a well-formed list without [null] and an
    e-mail that nobody had), an app that starts with an empty list and
    runs [loadRegisteredUsers] has the same list as before and lets the
    patient sign in; when the read is rejected, [loadRegisteredUsers]
    returns all the same, the list stays empty and the patient is told
    [Email ou senha inválidos]. *)
Theorem registered_patients_survive_restart name email password items w :
  email_free email items ->
  Forall (fun u => u <> JNull) items ->
  JSON.well_formed (JArr items) = true ->
  rejects w = false ->
  let patient := registered (length items) name email password in
  let response :=
    {| authService.user := authService.without_password patient;
       authService.token :=
         "patient-token-" +:+ "patient-"
         +:+ Number_toString (Z.of_nat (length items) + 1) |} in
  let saved :=
    authService.world
      (snd (authService.register name email password
              (authService.mkApp (JArr items) w))) in
  (forall t fs,
     let s := snd (authService.loadRegisteredUsers (started (later t (false :: fs) saved))) in
     authService.registeredUsers s = JArr (items ++ [patient])
     /\ fst (authService.signIn email password s) = authService.Returns response)
  /\ forall t fs,
       let loading := authService.loadRegisteredUsers (started (later t (true :: fs) saved)) in
       fst loading = authService.Returns tt
       /\ authService.registeredUsers (snd loading) = JArr []
       /\ fst (authService.signIn email password (snd loading))
          = authService.ThrowsError "Email ou senha inválidos".
Proof.
  intros Hfree Hobj Hwf Hr patient response saved.
  pose proof (well_formed_serializable _ Hwf) as Hser.
  pose proof (register_eq name email password items w Hfree Hobj Hser) as Hreg.
  cbv zeta in Hreg. rewrite Hr in Hreg. fold patient in Hreg.
  assert (JSON.well_formed (JArr (items ++ [patient])) = true) as Hwf'.
  { apply well_formed_items. apply well_formed_items in Hwf.
    apply Forall_app. split; [done|]. by constructor. }
  destruct (JSON_round_trip _ Hwf') as (text & Htext & Hparse).
  assert (stored_text (Some text) = Some text) as Hstored.
  { destruct text; [done|done]. }
  assert (disk saved !! authService.REGISTERED_USERS = Some text) as Hdisk.
  { unfold saved. rewrite Hreg. simpl. rewrite lookup_insert_eq.
    unfold JSON.stringify in Htext. rewrite (well_formed_serializable _ Hwf') in Htext.
    done. }
  split.
  - intros t fs.
    assert (authService.loadRegisteredUsers (started (later t (false :: fs) saved))
            = (authService.Returns tt,
               authService.mkApp (JArr (items ++ [patient]))
                 (next_call (later t (false :: fs) saved)))) as Hload.
    { unfold authService.loadRegisteredUsers, started.
      erewrite auth_step; cycle 1.
      { unfold try_catch, bind, AsyncStorage.getItem, AsyncStorage.call. simpl.
        rewrite Hdisk, Hstored. unfold JSON_parse. rewrite Hparse. reflexivity. }
      reflexivity. }
    rewrite Hload. simpl. split; [done|].
    unfold patient. by rewrite signIn_registered.
  - intros t fs.
    assert (authService.loadRegisteredUsers (started (later t (true :: fs) saved))
            = (authService.Returns tt,
               authService.mkApp (JArr [])
                 (log (ConsoleError "Erro ao carregar usuários registrados:" StorageFailure)
                    (next_call (later t (true :: fs) saved))))) as Hload.
    { unfold authService.loadRegisteredUsers, started.
      erewrite auth_step; cycle 1.
      { reflexivity. }
      reflexivity. }
    rewrite Hload. simpl. split; [done|]. split; [done|].
    rewrite (signIn_unknown email password [] _); [done| |constructor].
    destruct Hfree as [Hne Hall]. split; [done|].
    apply Forall_app in Hall as [Hd _]. by rewrite app_nil_r.
Qed.

Lemma registered_patients_survive_restart_witness :
  let patient := registered (length sample_patients) "Rui" "rui@example.com" "1234" in
  let response :=
    {| authService.user := authService.without_password patient;
       authService.token :=
         "patient-token-" +:+ "patient-"
         +:+ Number_toString (Z.of_nat (length sample_patients) + 1) |} in
  let saved :=
    authService.world
      (snd (authService.register "Rui" "rui@example.com" "1234"
              (authService.mkApp (JArr sample_patients) fresh_world))) in
  (forall t fs,
     let s := snd (authService.loadRegisteredUsers (started (later t (false :: fs) saved))) in
     authService.registeredUsers s = JArr (sample_patients ++ [patient])
     /\ fst (authService.signIn "rui@example.com" "1234" s) = authService.Returns response)
  /\ forall t fs,
       let loading := authService.loadRegisteredUsers (started (later t (true :: fs) saved)) in
       fst loading = authService.Returns tt
       /\ authService.registeredUsers (snd loading) = JArr []
       /\ fst (authService.signIn "rui@example.com" "1234" (snd loading))
          = authService.ThrowsError "Email ou senha inválidos".
Proof.
  apply (registered_patients_survive_restart "Rui" "rui@example.com" "1234"
           sample_patients fresh_world).
  - split; [discriminate|]. repeat constructor.
  - repeat constructor; discriminate.
  - reflexivity.
  - reflexivity.
Defined.

Lemma stateless_ret {A} (a : A) : stateless (ret a).
Proof. by intros w. Qed.

Lemma stateless_bind {A B} (m : M A) (k : A -> M B) :
  stateless m -> (forall a, stateless (k a)) -> stateless (bind m k).
Proof.
  intros Hm Hk w. specialize (Hm w). unfold after, bind in *.
  destruct (m w) as [[a|e] w1]; simpl in *; subst; [apply Hk|done].
Qed.

Lemma stateless_get_prop v k : stateless (get_prop v k).
Proof. intros w. by destruct v. Qed.

Lemma stateless_as_array v : stateless (as_array v).
Proof. intros w. by destruct v. Qed.

Lemma stateless_ToString x : stateless (ToString x).
Proof. intros w. destruct x as [v|]; [|done]. simpl. by destruct (ToString_value v). Qed.

Lemma stateless_Array_find {A} (f : A -> M bool) l :
  (forall x, stateless (f x)) -> stateless (Array_find f l).
Proof.
  intros Hf. induction l as [|x l IH]; simpl; [apply stateless_ret|].
  apply stateless_bind; [done|]. intros []; [apply stateless_ret|done].
Qed.

Lemma Array_find_In {A} (f : A -> M bool) l w x :
  fst (Array_find f l w) = Ok (Some x) -> In x l.
Proof.
  revert w. induction l as [|y l IH]; intros w; simpl; [done|].
  unfold bind. destruct (f y w) as [[[]|e] w1]; simpl; [|by right; eapply IH|done].
  intros [= ->]. by left.
Qed.

Lemma auth_lift_stateless {A B} (m : M A) (k : A -> authService.Auth B) u w :
  stateless m ->
  authService.auth_bind (authService.lift m) k (authService.mkApp u w)
  = match fst (m w) with
    | Ok a => k a (authService.mkApp u w)
    | Throw e => (authService.Throws e, authService.mkApp u w)
    end.
Proof.
  intros Hm. specialize (Hm w). unfold after in Hm.
  unfold authService.auth_bind, authService.lift. simpl.
  destruct (m w) as [[a|e] w1]; simpl in *; by subst.
Qed.

Lemma without_password_has_none p :
  prop (authService.without_password p) "password" = None.
Proof.
  unfold authService.without_password.
  change (prop (JObj ?f) ?k) with (assoc_get k f).
  induction (spread_props p) as [|[k v] l IH]; [done|].
  change (List.filter ?f ((k, v) :: l))
    with (if f (k, v) then (k, v) :: List.filter f l else List.filter f l).
  cbv beta. change (fst (k, v)) with k.
  destruct (String.eqb k "password") eqn:E; [done|].
  change (negb false) with true. cbv iota.
  change (assoc_get ?x ((k, v) :: ?r))
    with (if String.eqb x k then Some v else assoc_get x r).
  by rewrite String.eqb_sym, E.
Qed.

(** X30: [signIn] is a pure question: it changes neither the list of
    patients nor the world, however it ends, and the user of the response it
    returns never has a [password] property, whoever signed in and whatever
    the list of patients holds. *)
Theorem signIn_never_returns_password email password s :
  snd (authService.signIn email password s) = s
  /\ forall response,
       fst (authService.signIn email password s) = authService.Returns response ->
       prop (authService.user response) "password" = None.
Proof.
  destruct s as [u w]. unfold authService.signIn.
  destruct (String.eqb email authService.admin_email && String.eqb password "123456").
  { split; [done|]. by intros response [= <-]. }
  rewrite auth_lift_stateless; cycle 1.
  { apply stateless_Array_find. intros d.
    apply stateless_bind; [apply stateless_get_prop|intros; apply stateless_ret]. }
  destruct (fst (Array_find _ authService.mockDoctors w)) as [[d|]|e] eqn:Hdoctor;
    [| |done].
  - apply Array_find_In in Hdoctor.
    rewrite auth_lift_stateless; cycle 1.
    { apply stateless_bind; [apply stateless_get_prop|apply stateless_ToString]. }
    destruct (fst ((let* i := get_prop d "id" in ToString i) w)) as [id|e]; [|done].
    split; [done|]. intros response [= <-]. simpl.
    destruct Hdoctor as [<-|[<-|[<-|[]]]]; reflexivity.
  - rewrite auth_read.
    rewrite auth_lift_stateless by apply stateless_as_array.
    destruct (fst (as_array u w)) as [items|e]; [|done].
    rewrite auth_lift_stateless; cycle 1.
    { apply stateless_Array_find. intros d.
      apply stateless_bind; [apply stateless_get_prop|intros; apply stateless_ret]. }
    destruct (fst (Array_find _ items w)) as [[p|]|e]; [| |done]; [|done].
    destruct (truthy p); [|done].
    rewrite auth_lift_stateless by apply stateless_get_prop.
    destruct (fst (get_prop p "password" w)) as [stored|e]; [|done].
    destruct (strict_eq_str stored password); [|done].
    rewrite auth_lift_stateless; cycle 1.
    { apply stateless_bind; [apply stateless_get_prop|apply stateless_ToString]. }
    destruct (fst ((let* i := get_prop p "id" in ToString i) w)) as [id|e]; [|done].
    split; [done|]. intros response [= <-]. apply without_password_has_none.
Qed.
